(** * transcribe: a shallow embedding of the pipeline of [transcribe.py]

    The development follows the layout of the script: text and codec
    helpers of the Python runtime, the JSON value type with [json.dumps] /
    [json.loads], paths and the file system, the exception monad, then
    [load_config], [Downloader], [Transcriber], [Summarizer] and [main].
    The properties of the specification are proved at the end. *)

From Stdlib Require Import ZArith NArith List String Ascii Bool Lia.
From Stdlib Require Import SpecFloat Sorted DecimalFacts DecimalN.
From stdpp Require Import base tactics decidable numbers list.
Import ListNotations.

Set Warnings "-register-all".
Local Open Scope N_scope.

(** ** Text

    A Python [str] is a sequence of Unicode code points; a file is a
    sequence of octets.  Both are lists of [N]. *)

Definition str := list N.
Definition bytes := list N.

(** [u "abc"] is the Python literal ['abc'] (ASCII source text). *)
Definition u (s : string) : str := map N_of_ascii (list_ascii_of_string s).

Definition ch (a : ascii) : N := N_of_ascii a.

Definition str_eqb (a b : str) : bool := bool_decide (a = b).

Fixpoint startswith (s prefix : str) {struct prefix} : bool :=
  match prefix, s with
  | [], _ => true
  | p :: prefix', c :: s' => (N.eqb p c) && startswith s' prefix'
  | _ :: _, [] => false
  end.

Fixpoint join (sep : str) (l : list str) : str :=
  match l with
  | [] => []
  | [x] => x
  | x :: l' => x ++ sep ++ join sep l'
  end.

(** [str.isspace] on one code point: the characters CPython classifies as
    whitespace. *)
Definition py_isspace (c : N) : bool :=
  ((9 <=? c) && (c <=? 13)) || ((28 <=? c) && (c <=? 32)) ||
  (c =? 133) || (c =? 160) || (c =? 5760) ||
  ((8192 <=? c) && (c <=? 8202)) || (c =? 8232) || (c =? 8233) ||
  (c =? 8239) || (c =? 8287) || (c =? 12288).

Fixpoint lstrip (s : str) : str :=
  match s with
  | [] => []
  | c :: s' => if py_isspace c then lstrip s' else s
  end.

Definition rstrip (s : str) : str := rev (lstrip (rev s)).

(** [str.strip()] *)
Definition strip (s : str) : str := rstrip (lstrip s).

(** Surrogate code points cannot be encoded as UTF-8. *)
Definition is_surrogate (c : N) : bool := (55296 <=? c) && (c <=? 57343).

(** *** The UTF-8 codec ([encoding="utf-8"], strict error handling) *)

Definition utf8_encode_char (c : N) : option bytes :=
  if c <? 128 then Some [c]
  else if c <? 2048 then Some [192 + c / 64; 128 + c mod 64]
  else if c <? 65536 then
    if is_surrogate c then None
    else Some [224 + c / 4096; 128 + (c / 64) mod 64; 128 + c mod 64]
  else if c <? 1114112 then
    Some [240 + c / 262144; 128 + (c / 4096) mod 64;
          128 + (c / 64) mod 64; 128 + c mod 64]
  else None.

Fixpoint utf8_encode (s : str) : option bytes :=
  match s with
  | [] => Some []
  | c :: s' =>
      match utf8_encode_char c, utf8_encode s' with
      | Some b, Some bs => Some (b ++ bs)
      | _, _ => None
      end
  end.

Definition is_cont (b : N) : bool := (128 <=? b) && (b <=? 191).

Fixpoint utf8_decode (bs : bytes) : option str :=
  match bs with
  | [] => Some []
  | b0 :: r0 =>
      if b0 <? 128 then option_map (cons b0) (utf8_decode r0)
      else if b0 <? 194 then None
      else if b0 <? 224 then
        match r0 with
        | b1 :: r1 =>
            if is_cont b1
            then option_map (cons ((b0 - 192) * 64 + (b1 - 128))) (utf8_decode r1)
            else None
        | _ => None
        end
      else if b0 <? 240 then
        match r0 with
        | b1 :: b2 :: r2 =>
            let c := (b0 - 224) * 4096 + (b1 - 128) * 64 + (b2 - 128) in
            if is_cont b1 && is_cont b2 && (2048 <=? c) && negb (is_surrogate c)
            then option_map (cons c) (utf8_decode r2)
            else None
        | _ => None
        end
      else if b0 <? 245 then
        match r0 with
        | b1 :: b2 :: b3 :: r3 =>
            let c := (b0 - 240) * 262144 + (b1 - 128) * 4096
                     + (b2 - 128) * 64 + (b3 - 128) in
            if is_cont b1 && is_cont b2 && is_cont b3
               && (65536 <=? c) && (c <? 1114112)
            then option_map (cons c) (utf8_decode r3)
            else None
        | _ => None
        end
      else None
  end.

(** ** Library functions of the Python runtime that the script calls but
    does not define.  They are parameters of the development. *)

Class PyLib := {
  (** [float.__repr__] of a finite float *)
  float_repr : spec_float -> str;
  (** [float(text)] on a JSON number literal *)
  float_of_literal : str -> spec_float;
  (** [str.lower] on one code point outside ASCII *)
  lower_nonascii : N -> str;
  (** [fnmatch] of a file name against a glob pattern *)
  fnmatch : str -> str -> bool;
  (** [slugify.slugify] *)
  slugify : str -> str;
}.

Section WithPyLib.
Context `{PyLib}.

Definition lower_char (c : N) : str :=
  if (65 <=? c) && (c <=? 90) then [c + 32]
  else if c <? 128 then [c]
  else lower_nonascii c.

(** [str.lower()] *)
Definition lower (s : str) : str := concat (map lower_char s).

(** ** JSON values, as [json.loads] builds them and [json.dump] reads them

    A [dict] is kept as its items in insertion order; its keys are strings,
    as in every object that comes out of [json.loads]. *)

Inductive json :=
| JNull
| JBool (b : bool)
| JInt (z : Z)
| JFloat (f : spec_float)
| JStr (s : str)
| JArr (items : list json)
| JObj (fields : list (str * json)).

(** *** Python [dict] operations on the items list *)

Definition pydict := list (str * json).

Fixpoint dict_get (d : pydict) (k : str) : option json :=
  match d with
  | [] => None
  | (k', v) :: d' => if str_eqb k' k then Some v else dict_get d' k
  end.

(** [d[k] = v]: an existing key keeps its position, a new key goes last. *)
Fixpoint dict_set (d : pydict) (k : str) (v : json) : pydict :=
  match d with
  | [] => [(k, v)]
  | (k', v') :: d' =>
      if str_eqb k' k then (k', v) :: d' else (k', v') :: dict_set d' k v
  end.

Definition dict_contains (d : pydict) (k : str) : bool :=
  match dict_get d k with Some _ => true | None => false end.

(** [dict(pairs)] and [d.update(other_dict)]: items are stored left to right. *)
Definition dict_update (d other : pydict) : pydict :=
  fold_left (fun acc kv => dict_set acc (fst kv) (snd kv)) other d.

Definition dict_of_pairs (pairs : list (str * json)) : pydict :=
  dict_update [] pairs.

(** *** Decimal integers ([str(int)] and [int(text)]) *)

Definition digit_char (d : N) : N := 48 + d.

Fixpoint uint_to_str (d : Decimal.uint) : str :=
  match d with
  | Decimal.Nil => []
  | Decimal.D0 d => digit_char 0 :: uint_to_str d
  | Decimal.D1 d => digit_char 1 :: uint_to_str d
  | Decimal.D2 d => digit_char 2 :: uint_to_str d
  | Decimal.D3 d => digit_char 3 :: uint_to_str d
  | Decimal.D4 d => digit_char 4 :: uint_to_str d
  | Decimal.D5 d => digit_char 5 :: uint_to_str d
  | Decimal.D6 d => digit_char 6 :: uint_to_str d
  | Decimal.D7 d => digit_char 7 :: uint_to_str d
  | Decimal.D8 d => digit_char 8 :: uint_to_str d
  | Decimal.D9 d => digit_char 9 :: uint_to_str d
  end.

Definition is_digit (c : N) : bool := (48 <=? c) && (c <=? 57).

(** Reads a run of ASCII digits; any other character ends the numeral. *)
Fixpoint uint_of_str (s : str) : Decimal.uint :=
  match s with
  | [] => Decimal.Nil
  | c :: s' =>
      let d := uint_of_str s' in
      if c =? 48 then Decimal.D0 d else if c =? 49 then Decimal.D1 d
      else if c =? 50 then Decimal.D2 d else if c =? 51 then Decimal.D3 d
      else if c =? 52 then Decimal.D4 d else if c =? 53 then Decimal.D5 d
      else if c =? 54 then Decimal.D6 d else if c =? 55 then Decimal.D7 d
      else if c =? 56 then Decimal.D8 d else if c =? 57 then Decimal.D9 d
      else Decimal.Nil
  end.

Definition N_to_str (n : N) : str := uint_to_str (N.to_uint n).

(** [str(z)] *)
Definition Z_to_str (z : Z) : str :=
  match z with
  | Z0 => N_to_str 0
  | Zpos p => N_to_str (Npos p)
  | Zneg p => ch "-" :: N_to_str (Npos p)
  end.

(** [int(text)] on the integer part of a JSON number *)
Definition Z_of_str (s : str) : Z :=
  match s with
  | c :: s' =>
      if c =? ch "-" then Z.opp (Z.of_N (N.of_uint (uint_of_str s')))
      else Z.of_N (N.of_uint (uint_of_str s))
  | [] => 0%Z
  end.

(** *** [json.dumps(obj, indent=2, ensure_ascii=False)] *)

Definition hex_digit (d : N) : N := if d <? 10 then 48 + d else 87 + d.

(** The replacement of [ESCAPE_DCT] for one character. *)
Definition escape_char (c : N) : str :=
  if c =? 34 then [92; 34]
  else if c =? 92 then [92; 92]
  else if c =? 10 then [92; 110]
  else if c =? 13 then [92; 114]
  else if c =? 9 then [92; 116]
  else if c =? 8 then [92; 98]
  else if c =? 12 then [92; 102]
  else if c <? 32 then [92; 117; 48; 48; hex_digit (c / 16); hex_digit (c mod 16)]
  else [c].

(** [py_encode_basestring] *)
Definition encode_basestring (s : str) : str :=
  [34] ++ concat (map escape_char s) ++ [34].

Definition newline_indent (level : nat) : str :=
  10 :: repeat 32 (2 * level).

(** [floatstr] of the encoder *)
Definition floatstr (f : spec_float) : str :=
  match f with
  | S754_nan => u "NaN"
  | S754_infinity false => u "Infinity"
  | S754_infinity true => u "-Infinity"
  | _ => float_repr f
  end.

Fixpoint dumps_at (level : nat) (v : json) : str :=
  match v with
  | JNull => u "null"
  | JBool true => u "true"
  | JBool false => u "false"
  | JInt z => Z_to_str z
  | JFloat f => floatstr f
  | JStr s => encode_basestring s
  | JArr [] => u "[]"
  | JArr items =>
      [91] ++ newline_indent (S level)
      ++ join (44 :: newline_indent (S level)) (map (dumps_at (S level)) items)
      ++ newline_indent level ++ [93]
  | JObj [] => u "{}"
  | JObj fields =>
      [123] ++ newline_indent (S level)
      ++ join (44 :: newline_indent (S level))
           (map (fun kv => encode_basestring (fst kv) ++ [58; 32]
                           ++ dumps_at (S level) (snd kv)) fields)
      ++ newline_indent level ++ [125]
  end.

Definition json_dumps (v : json) : str := dumps_at 0 v.

(** *** [json.loads]: the scanner of [json.decoder] and [json.scanner]

    [None] is a [JSONDecodeError].  The recursion limit of the interpreter
    and its cap on the number of digits of an integer are not modelled. *)

Definition is_ws (c : N) : bool :=
  (c =? 32) || (c =? 9) || (c =? 10) || (c =? 13).

Fixpoint skip_ws (s : str) : str :=
  match s with
  | c :: s' => if is_ws c then skip_ws s' else s
  | [] => []
  end.

Definition hex_val (c : N) : option N :=
  if is_digit c then Some (c - 48)
  else if (97 <=? c) && (c <=? 102) then Some (c - 87)
  else if (65 <=? c) && (c <=? 70) then Some (c - 55)
  else None.

(** [_decode_uXXXX] on the four characters after [\u] *)
Definition hex4 (a b c d : N) : option N :=
  match hex_val a, hex_val b, hex_val c, hex_val d with
  | Some a, Some b, Some c, Some d => Some (((a * 16 + b) * 16 + c) * 16 + d)
  | _, _, _, _ => None
  end.

(** The [BACKSLASH] table. *)
Definition unescape (e : N) : option N :=
  if e =? 34 then Some 34 else if e =? 92 then Some 92
  else if e =? 47 then Some 47 else if e =? 98 then Some 8
  else if e =? 102 then Some 12 else if e =? 110 then Some 10
  else if e =? 114 then Some 13 else if e =? 116 then Some 9
  else None.

Definition is_high_surrogate (c : N) : bool := (55296 <=? c) && (c <=? 56319).
Definition is_low_surrogate (c : N) : bool := (56320 <=? c) && (c <=? 57343).

Definition push (c : N) (r : option (str * str)) : option (str * str) :=
  match r with
  | Some (x, rest) => Some (c :: x, rest)
  | None => None
  end.

(** [scanstring] in strict mode, entered after the opening quote: the text
    of the string and what follows its closing quote. *)
Fixpoint scanstring (s : str) : option (str * str) :=
  match s with
  | [] => None
  | c :: r =>
      if c =? 34 then Some ([], r)
      else if c =? 92 then
        match r with
        | [] => None
        | e :: r1 =>
            if e =? 117 then
              match r1 with
              | h1 :: h2 :: h3 :: h4 :: r2 =>
                  match hex4 h1 h2 h3 h4 with
                  | None => None
                  | Some uni =>
                      if is_high_surrogate uni then
                        match r2 with
                        | b :: r3 =>
                            if b =? 92 then
                              match r3 with
                              | e2 :: r4 =>
                                  if e2 =? 117 then
                                    match r4 with
                                    | g1 :: g2 :: g3 :: g4 :: r5 =>
                                        match hex4 g1 g2 g3 g4 with
                                        | None => None
                                        | Some uni2 =>
                                            if is_low_surrogate uni2
                                            then push (65536 + ((uni - 55296) * 1024 + (uni2 - 56320)))
                                                      (scanstring r5)
                                            else push uni (scanstring r2)
                                        end
                                    | _ => None
                                    end
                                  else push uni (scanstring r2)
                              | [] => push uni (scanstring r2)
                              end
                            else push uni (scanstring r2)
                        | [] => push uni (scanstring r2)
                        end
                      else push uni (scanstring r2)
                  end
              | _ => None
              end
            else
              match unescape e with
              | Some c' => push c' (scanstring r1)
              | None => None
              end
        end
      else if c <? 32 then None
      else push c (scanstring r)
  end.

Fixpoint take_digits (s : str) : str * str :=
  match s with
  | c :: r =>
      if is_digit c then let '(d, r') := take_digits r in (c :: d, r')
      else ([], s)
  | [] => ([], [])
  end.

(** The integer part of [NUMBER_RE]: an optional minus, then [0] or a
    numeral without leading zero. *)
Definition match_integer (s : str) : option (str * str) :=
  let '(sign, s1) :=
    match s with
    | c :: r => if c =? 45 then ([45], r) else ([], s)
    | [] => ([], s)
    end in
  match s1 with
  | c :: r =>
      if c =? 48 then Some (sign ++ [48], r)
      else if is_digit c then
        let '(d, r') := take_digits r in Some (sign ++ c :: d, r')
      else None
  | [] => None
  end.

(** The optional fraction group. *)
Definition match_frac (s : str) : str * str :=
  match s with
  | c :: r =>
      if c =? 46 then
        match take_digits r with
        | ([], _) => ([], s)
        | (d, r') => (46 :: d, r')
        end
      else ([], s)
  | [] => ([], s)
  end.

(** The optional exponent group. *)
Definition match_exp (s : str) : str * str :=
  match s with
  | c :: r =>
      if (c =? 101) || (c =? 69) then
        let '(sign, r1) :=
          match r with
          | c' :: r' => if (c' =? 45) || (c' =? 43) then ([c'], r') else ([], r)
          | [] => ([], r)
          end in
        match take_digits r1 with
        | ([], _) => ([], s)
        | (d, r') => (c :: sign ++ d, r')
        end
      else ([], s)
  | [] => ([], s)
  end.

(** [match_number] followed by the conversion of [_scan_once]. *)
Definition scan_number (s : str) : option (json * str) :=
  match match_integer s with
  | None => None
  | Some (integer, r) =>
      let '(frac, r1) := match_frac r in
      let '(exp, r2) := match_exp r1 in
      match frac, exp with
      | [], [] => Some (JInt (Z_of_str integer), r2)
      | _, _ => Some (JFloat (float_of_literal (integer ++ frac ++ exp)), r2)
      end
  end.

(** The loop of [JSONArray], entered where a value is expected. *)
Fixpoint array_items (scan : str -> option (json * str)) (n : nat) (s : str)
  : option (list json * str) :=
  match n with
  | O => None
  | S n' =>
      match scan s with
      | None => None
      | Some (v, r) =>
          match skip_ws r with
          | c :: r' =>
              if c =? 93 then Some ([v], r')
              else if c =? 44 then
                match array_items scan n' (skip_ws r') with
                | Some (vs, r'') => Some (v :: vs, r'')
                | None => None
                end
              else None
          | [] => None
          end
      end
  end.

(** The loop of [JSONObject], entered where the quote of a key is expected. *)
Fixpoint object_items (scan : str -> option (json * str)) (n : nat) (s : str)
  : option (list (str * json) * str) :=
  match n with
  | O => None
  | S n' =>
      match s with
      | q :: r0 =>
          if q =? 34 then
            match scanstring r0 with
            | None => None
            | Some (key, r1) =>
                match skip_ws r1 with
                | c :: r2 =>
                    if c =? 58 then
                      match scan (skip_ws r2) with
                      | None => None
                      | Some (v, r3) =>
                          match skip_ws r3 with
                          | c' :: r4 =>
                              if c' =? 125 then Some ([(key, v)], r4)
                              else if c' =? 44 then
                                match object_items scan n' (skip_ws r4) with
                                | Some (kvs, r5) => Some ((key, v) :: kvs, r5)
                                | None => None
                                end
                              else None
                          | [] => None
                          end
                      end
                    else None
                | [] => None
                end
            end
          else None
      | [] => None
      end
  end.

(** [_scan_once]; [fuel] bounds the nesting depth. *)
Fixpoint scan_once (fuel : nat) (s : str) : option (json * str) :=
  match fuel with
  | O => None
  | S fuel' =>
      match s with
      | [] => None
      | c :: r =>
          if c =? 34 then
            match scanstring r with
            | Some (x, r') => Some (JStr x, r')
            | None => None
            end
          else if c =? 123 then
            match skip_ws r with
            | c' :: r' =>
                if c' =? 125 then Some (JObj [], r')
                else
                  match object_items (scan_once fuel') (length r) (skip_ws r) with
                  | Some (kvs, r'') => Some (JObj (dict_of_pairs kvs), r'')
                  | None => None
                  end
            | [] => None
            end
          else if c =? 91 then
            match skip_ws r with
            | c' :: r' =>
                if c' =? 93 then Some (JArr [], r')
                else
                  match array_items (scan_once fuel') (length r) (skip_ws r) with
                  | Some (vs, r'') => Some (JArr vs, r'')
                  | None => None
                  end
            | [] => None
            end
          else if startswith s (u "null") then Some (JNull, drop 4 s)
          else if startswith s (u "true") then Some (JBool true, drop 4 s)
          else if startswith s (u "false") then Some (JBool false, drop 5 s)
          else
            match scan_number s with
            | Some res => Some res
            | None =>
                if startswith s (u "NaN") then Some (JFloat S754_nan, drop 3 s)
                else if startswith s (u "Infinity")
                then Some (JFloat (S754_infinity false), drop 8 s)
                else if startswith s (u "-Infinity")
                then Some (JFloat (S754_infinity true), drop 9 s)
                else None
            end
      end
  end.

(** [json.loads(s)]: a leading byte order mark is refused, white space may
    surround the value, nothing else may follow it. *)
Definition json_loads (s : str) : option json :=
  if startswith s [65279] then None
  else
    match scan_once (S (length s)) (skip_ws s) with
    | Some (v, r) =>
        match skip_ws r with
        | [] => Some v
        | _ :: _ => None
        end
    | None => None
    end.

End WithPyLib.


(** ** Paths ([pathlib.PurePosixPath]) *)

Record Path := mkPath { is_abs : bool; parts : list str }.

#[global] Instance Path_eq_dec : EqDecision Path.
Proof. solve_decision. Defined.

Definition path_eqb (p q : Path) : bool := bool_decide (p = q).

Fixpoint split_on (sep : N) (s : str) : list str :=
  match s with
  | [] => [[]]
  | c :: r =>
      if c =? sep then [] :: split_on sep r
      else
        match split_on sep r with
        | x :: xs => (c :: x) :: xs
        | [] => [[c]]
        end
  end.

(** [Path(s)]: empty and [.] components are dropped. *)
Definition path_of_str (s : str) : Path :=
  mkPath (startswith s [47])
         (List.filter (fun p => negb (str_eqb p []) && negb (str_eqb p [46]))
                      (split_on 47 s)).

(** [str(p)] *)
Definition path_str (p : Path) : str :=
  match is_abs p, parts p with
  | false, [] => [46]
  | false, ps => join [47] ps
  | true, ps => 47 :: join [47] ps
  end.

(** [p.name] *)
Definition name (p : Path) : str := List.last (parts p) [].

(** [p.parent] *)
Definition parent (p : Path) : Path := mkPath (is_abs p) (removelast (parts p)).

Definition joinpath (p q : Path) : Path :=
  if is_abs q then q else mkPath (is_abs p) (parts p ++ parts q).

(** [p / s] *)
Definition path_div (p : Path) (s : str) : Path := joinpath p (path_of_str s).

(** The name cut at its last dot: [Some (before, dot_and_after)]. *)
Fixpoint rsplit_dot (s : str) : option (str * str) :=
  match s with
  | [] => None
  | c :: r =>
      match rsplit_dot r with
      | Some (a, b) => Some (c :: a, b)
      | None => if c =? 46 then Some ([], s) else None
      end
  end.

(** [(stem, suffix)] of a file name: the suffix starts at the last dot when
    that dot is neither the first nor the last character. *)
Definition split_suffix (nm : str) : str * str :=
  match rsplit_dot nm with
  | Some (a :: a', b :: b' :: b'') => (a :: a', b :: b' :: b'')
  | _ => (nm, [])
  end.

Definition stem_of (nm : str) : str := fst (split_suffix nm).
Definition suffix_of (nm : str) : str := snd (split_suffix nm).

(** [p.stem] *)
Definition stem (p : Path) : str := stem_of (name p).

(** [p.with_suffix(suffix)] for a suffix that starts with a dot; [None] is
    the [ValueError] of a path with an empty name. *)
Definition with_suffix (p : Path) (suffix : str) : option Path :=
  match name p with
  | [] => None
  | nm => Some (mkPath (is_abs p) (removelast (parts p) ++ [stem_of nm ++ suffix]))
  end.

(** ** Exceptions *)

Inductive exn :=
| SystemExit (code : Z)
| KeyboardInterrupt
| FileNotFoundError (msg : str)
| UnicodeDecodeError
| UnicodeEncodeError
| JSONDecodeError
| TypeError
| ValueError
| AttributeError
| KeyError (key : str)
| CalledProcessError (returncode : Z) (stderr : str)
| RequestException (msg : str)
| DownloadError (msg : str)
| RuntimeError (msg : str)
| OSError (msg : str).

(** [isinstance(e, Exception)]: [SystemExit] and [KeyboardInterrupt] derive
    from [BaseException] only. *)
Definition is_Exception (e : exn) : bool :=
  match e with
  | SystemExit _ | KeyboardInterrupt => false
  | _ => true
  end.

Definition is_JSONDecodeError (e : exn) : bool :=
  match e with JSONDecodeError => true | _ => false end.

Definition is_CalledProcessError (e : exn) : bool :=
  match e with CalledProcessError _ _ => true | _ => false end.

Definition is_RequestException (e : exn) : bool :=
  match e with RequestException _ => true | _ => false end.

(** [str(e)], used in log lines and notifications. *)
Definition exn_str (e : exn) : str :=
  match e with
  | SystemExit c => Z_to_str c
  | KeyboardInterrupt => []
  | FileNotFoundError m | RequestException m | DownloadError m
  | RuntimeError m | OSError m => m
  | UnicodeDecodeError => u "UnicodeDecodeError"
  | UnicodeEncodeError => u "UnicodeEncodeError"
  | JSONDecodeError => u "JSONDecodeError"
  | TypeError => u "TypeError"
  | ValueError => u "ValueError"
  | AttributeError => u "AttributeError"
  | KeyError k => k
  | CalledProcessError c _ => u "Command returned non-zero exit status " ++ Z_to_str c
  end.

(** ** The world: file system, and the trace of what the run did to the
    outside *)

Record file := mkFile { data : bytes; mtime : Z }.

Inductive LogLevel := DEBUG | INFO | WARNING | ERROR | CRITICAL.

Inductive PostBody :=
| Multipart (filename : str) (content : bytes) (fields : list (str * str))
| JsonBody (payload : json).

Inductive Event :=
| EPrint (line : str)
| ELog (level : LogLevel) (msg : str)
| ENotify (title message : str)
| ERun (cmd : list str) (stdin : option str)
| EPost (url : json) (body : PostBody)
| EYdl (url : str) (opts : pydict)
| EMkdtemp (d : Path)
| EMkdir (d : Path)
| ERmtree (d : Path)
| EMove (src dst : Path)
| EUnlink (p : Path)
| EWrite (p : Path).

(** [files] lists the regular files in the order in which a directory scan
    reports them; [dirs] the directories.  Keys are absolute paths. *)
Record World := mkWorld {
  files : list (Path * file);
  dirs : list Path;
  clock : Z;
  trace : list Event;
}.

(** ** The collaborators outside the script.  Each is consulted at most once
    per run, except [which] and the notifier. *)

Inductive ydl_outcome :=
| YdlRaise (msg : str)
| YdlDone (filename : str) (created : list (str * file)).

Record ffmpeg_outcome := mkFfmpeg { ff_returncode : Z; ff_written : option bytes }.

Record proc_outcome := mkProc { pr_returncode : Z; pr_stdout : str; pr_stderr : str }.

Inductive http_outcome :=
| HttpError (msg : str)
| HttpResponse (status : Z) (body : option json).

Record Env := mkEnv {
  env_cwd : Path;
  env_home : Path;
  env_which : str -> bool;
  env_resolve : str -> Path;
  env_mkdtemp : option Path;
  env_notify_ok : str -> str -> bool;
  env_ydl : ydl_outcome;
  env_ffmpeg : ffmpeg_outcome;
  env_whisper : http_outcome;
  env_ollama : http_outcome;
  env_gemini : proc_outcome;
}.

(** ** The monad of the script: state and exceptions *)

Inductive result (A : Type) :=
| Ok (a : A)
| Raise (e : exn).
Arguments Ok {A} a.
Arguments Raise {A} e.

Definition M (A : Type) : Type := World -> result A * World.

Definition ret {A} (a : A) : M A := fun w => (Ok a, w).

Definition bind {A B} (c : M A) (k : A -> M B) : M B :=
  fun w =>
    match c w with
    | (Ok a, w') => k a w'
    | (Raise e, w') => (Raise e, w')
    end.

Definition raise {A} (e : exn) : M A := fun w => (Raise e, w).

Declare Scope py_scope.
Delimit Scope py_scope with py.
Notation "x <- c ;; k" := (bind c (fun x => k))
  (at level 100, c at next level, right associativity) : py_scope.
Notation "c ;; k" := (bind c (fun _ => k))
  (at level 100, right associativity) : py_scope.
Local Open Scope py_scope.

(** [try: body / except <class> as e: handler e]; an exception raised by
    the handler is not caught again. *)
Definition try_except {A} (body : M A) (catches : exn -> bool)
    (handler : exn -> M A) : M A :=
  fun w =>
    match body w with
    | (Raise e, w') => if catches e then handler e w' else (Raise e, w')
    | r => r
    end.

(** The same with two [except] clauses, tried in order. *)
Definition try_except2 {A} (body : M A)
    (catches1 : exn -> bool) (handler1 : exn -> M A)
    (catches2 : exn -> bool) (handler2 : exn -> M A) : M A :=
  fun w =>
    match body w with
    | (Raise e, w') =>
        if catches1 e then handler1 e w'
        else if catches2 e then handler2 e w'
        else (Raise e, w')
    | r => r
    end.

(** [try: body / finally: cleanup] *)
Definition try_finally {A} (body : M A) (cleanup : M unit) : M A :=
  fun w =>
    match body w with
    | (r, w') =>
        match cleanup w' with
        | (Ok _, w'') => (r, w'')
        | (Raise e, w'') => (Raise e, w'')
        end
    end.

Definition when (b : bool) (c : M unit) : M unit := if b then c else ret tt.

Definition emit (e : Event) : M unit :=
  fun w => (Ok tt, mkWorld (files w) (dirs w) (clock w) (trace w ++ [e])).

Definition sys_exit {A} (code : Z) : M A := raise (SystemExit code).
Definition print (line : str) : M unit := emit (EPrint line).
Definition logging (level : LogLevel) (msg : str) : M unit := emit (ELog level msg).

(** *** File system calls *)

Section WithEnv.
Context `{PyLib} (env : Env).

Definition abspath (p : Path) : Path :=
  if is_abs p then p else joinpath (env_cwd env) p.

Fixpoint lookup_file (fs : list (Path * file)) (p : Path) : option file :=
  match fs with
  | [] => None
  | (q, f) :: fs' => if path_eqb q p then Some f else lookup_file fs' p
  end.

Definition remove_file (fs : list (Path * file)) (p : Path) : list (Path * file) :=
  List.filter (fun qf => negb (path_eqb (fst qf) p)) fs.

Definition store_file (fs : list (Path * file)) (p : Path) (f : file)
  : list (Path * file) :=
  match lookup_file fs p with
  | Some _ => map (fun qf => if path_eqb (fst qf) p then (p, f) else qf) fs
  | None => fs ++ [(p, f)]
  end.

Definition is_file (w : World) (p : Path) : bool :=
  match lookup_file (files w) (abspath p) with Some _ => true | None => false end.

Definition is_dir (w : World) (p : Path) : bool :=
  existsb (path_eqb (abspath p)) (dirs w).

(** [p.exists()] *)
Definition exists_ (p : Path) : M bool :=
  fun w => (Ok (is_file w p || is_dir w p), w).

(** [open(p, "rb").read()] *)
Definition read_bytes (p : Path) : M bytes :=
  fun w =>
    match lookup_file (files w) (abspath p) with
    | Some f => (Ok (data f), w)
    | None =>
        if is_dir w p then (Raise (OSError (path_str p)), w)
        else (Raise (FileNotFoundError (path_str p)), w)
    end.

(** [open(p, "r", encoding="utf-8").read()] *)
Definition read_text (p : Path) : M str :=
  b <- read_bytes p ;;
  match utf8_decode b with
  | Some s => ret s
  | None => raise UnicodeDecodeError
  end.

Definition put_file (p : Path) (b : bytes) : M unit :=
  fun w =>
    (Ok tt, mkWorld (store_file (files w) (abspath p) (mkFile b (clock w)))
                    (dirs w) (clock w + 1)%Z (trace w)).

(** [with open(p, "w", encoding="utf-8") as f: f.write(text)], where [text]
    is computed after the file has been opened: the file is created or
    truncated first; the write fails on text that UTF-8 cannot encode.
    Failures of the operating system (permissions, a full disk) are outside
    the model. *)
Definition write_text (p : Path) (text : M str) : M unit :=
  emit (EWrite p) ;;
  put_file p [] ;;
  s <- text ;;
  match utf8_encode s with
  | Some b => put_file p b
  | None => raise UnicodeEncodeError
  end.

(** [p.unlink()] *)
Definition unlink (p : Path) : M unit :=
  fun w =>
    match lookup_file (files w) (abspath p) with
    | Some _ =>
        (Ok tt, mkWorld (remove_file (files w) (abspath p)) (dirs w) (clock w)
                        (trace w ++ [EUnlink p]))
    | None =>
        if is_dir w p then (Raise (OSError (path_str p)), w)
        else (Raise (FileNotFoundError (path_str p)), w)
    end.

(** [p.mkdir(parents=True, exist_ok=True)] *)
Definition mkdir (p : Path) : M unit :=
  fun w =>
    (Ok tt, mkWorld (files w)
                    (if is_dir w p then dirs w else dirs w ++ [abspath p])
                    (clock w) (trace w ++ [EMkdir p])).

(** [shutil.move(src, dst)] of a regular file: into [dst] when that is a
    directory, onto [dst] otherwise.  Moving a directory is outside the
    model. *)
Definition move (src dst : Path) : M unit :=
  fun w =>
    match lookup_file (files w) (abspath src) with
    | None =>
        if is_dir w src then (Raise (OSError (path_str src)), w)
        else (Raise (FileNotFoundError (path_str src)), w)
    | Some f =>
        let real_dst := if is_dir w dst then joinpath dst (mkPath false [name src]) else dst in
        if is_dir w dst && (is_file w real_dst || is_dir w real_dst)
        then (Raise (OSError (path_str real_dst)), w)
        else (Ok tt, mkWorld (store_file (remove_file (files w) (abspath src))
                                         (abspath real_dst) f)
                             (dirs w) (clock w) (trace w ++ [EMove src dst]))
    end.

Fixpoint is_prefix (a b : list str) : bool :=
  match a, b with
  | [], _ => true
  | x :: a', y :: b' => str_eqb x y && is_prefix a' b'
  | _ :: _, [] => false
  end.

(** [q] is [d] or lies below it. *)
Definition under (d q : Path) : bool := is_prefix (parts d) (parts q).

(** [shutil.rmtree(d)] *)
Definition rmtree (d : Path) : M unit :=
  fun w =>
    if is_dir w d then
      (Ok tt, mkWorld (List.filter (fun qf => negb (under (abspath d) (fst qf))) (files w))
                      (List.filter (fun q => negb (under (abspath d) q)) (dirs w))
                      (clock w) (trace w ++ [ERmtree d]))
    else (Raise (FileNotFoundError (path_str d)), w).

(** [Path(tempfile.mkdtemp())] *)
Definition mkdtemp : M Path :=
  match env_mkdtemp env with
  | Some d =>
      fun w => (Ok d, mkWorld (files w) (dirs w ++ [abspath d]) (clock w)
                              (trace w ++ [EMkdtemp d]))
  | None => raise (OSError (u "mkdtemp"))
  end.

(** ** Configuration & Constants *)

Definition DEFAULT_downloader_args : pydict :=
  [ (u "format", JStr (u "bestaudio/best"));
    (u "postprocessors",
       JArr [JObj [ (u "key", JStr (u "FFmpegExtractAudio"));
                    (u "preferredcodec", JStr (u "mp3"));
                    (u "preferredquality", JStr (u "192")) ]]);
    (u "outtmpl", JStr (u "%(title)s.%(ext)s"));
    (u "quiet", JBool true);
    (u "no_warnings", JBool true) ].

Definition DEFAULT_CONFIG : pydict :=
  [ (u "whisper_url", JStr (u "http://192.168.1.212:8080/inference"));
    (u "ollama_url", JStr (u "http://192.168.1.212:11434/api/generate"));
    (u "summarize_model", JStr (u "qwen2.5"));
    (u "output_directory", JStr (u "output/"));
    (u "downloader_args", JObj DEFAULT_downloader_args) ].

Definition CONFIG_FILE_NAME : str := u "transcribe_config.json".

Definition SYSTEM_PROMPT : str := u
"You are an expert technical writer and analyst. Your task is to generate a comprehensive, structured Markdown outline based on the following transcript.

Follow these strict guidelines:
1. **Structure**: Use hierarchical headings (H1 for title, H2 for main topics, H3 for subtopics) to reflect the logical flow.
2. **Detail**: Go beyond high-level summaries. Capture specific facts, decisions, technical specifications, and key arguments.
3. **Clarity**: Use bullet points for readability. Bold key terms and entities.
4. **Action Items**: Explicitly list any action items, next steps, or open questions at the end.
5. **Context**: Preserving the context of the discussion is crucial. Do not over-generalize.
6. **Format**: Return ONLY the Markdown content. Do not include conversational filler like 'Here is the outline'.".

(** ** Utilities *)

Definition setup_logging (verbose : bool) : M unit := ret tt.

(** One element of the iterable handed to [dict.update]: it must be a
    sequence of two items, the first one hashable.  The configuration is
    only ever read at string keys, so an item whose key is not a string
    leaves the modelled items unchanged. *)
Definition update_item (d : pydict) (item : json) : result pydict :=
  match item with
  | JArr [k; v] =>
      match k with
      | JStr key => Ok (dict_set d key v)
      | JArr _ | JObj _ => Raise TypeError
      | _ => Ok d
      end
  | JStr [a; b] => Ok (dict_set d [a] (JStr [b]))
  | JObj [(k1, _); (k2, _)] => Ok (dict_set d k1 (JStr k2))
  | JArr _ | JStr _ | JObj _ => Raise ValueError
  | _ => Raise TypeError
  end.

Fixpoint update_items (d : pydict) (items : list json) : result pydict :=
  match items with
  | [] => Ok d
  | item :: items' =>
      match update_item d item with
      | Ok d' => update_items d' items'
      | Raise e => Raise e
      end
  end.

(** [d.update(v)] for a value [v] that [json.load] returned. *)
Definition py_update (d : pydict) (v : json) : result pydict :=
  match v with
  | JObj other => Ok (dict_update d other)
  | JArr items => update_items d items
  | JStr [] => Ok d
  | JStr (_ :: _) => Raise ValueError
  | _ => Raise TypeError
  end.

Definition lift {A} (r : result A) : M A := fun w => (r, w).

(** Load configuration from JSON file or return defaults. *)
Definition load_config : M pydict :=
  let config_path := path_of_str CONFIG_FILE_NAME in
  let config := DEFAULT_CONFIG in
  found <- exists_ config_path ;;
  if found then
    try_except
      (text <- read_text config_path ;;
       match json_loads text with
       | None => raise JSONDecodeError
       | Some user_config => lift (py_update config user_config)
       end)
      is_JSONDecodeError
      (fun e =>
         print (u "Warning: Failed to parse config file: " ++ exn_str e
                ++ u ". Using defaults.") ;;
         ret config)
  else ret config.

(** Send a cross-platform desktop notification. *)
Definition notify (title message : str) : M unit :=
  if env_notify_ok env title message
  then emit (ENotify title message)
  else logging WARNING (u "Notification failed").

(** Ensure external tools like ffmpeg are available. *)
Definition check_dependencies : M unit :=
  if env_which env (u "ffmpeg") then ret tt
  else
    logging ERROR (u "FFmpeg not found in PATH. Please install FFmpeg.") ;;
    sys_exit 1.

(** ** Pipeline Components *)

(** *** Downloader *)

(** [found_files.sort(key=..., reverse=True)]: a stable sort into
    descending order of the key; entries with equal keys keep their order. *)
Fixpoint insert_desc {A} (key : A -> Z) (x : A) (l : list A) : list A :=
  match l with
  | [] => [x]
  | y :: l' => if (key y <=? key x)%Z then x :: l else y :: insert_desc key x l'
  end.

Definition sort_desc {A} (key : A -> Z) (l : list A) : list A :=
  foldr (insert_desc key) [] l.

(** [list(output_dir.glob(pattern))]: the files of the directory whose name
    matches, in the order of the directory scan, each with the modification
    time [stat] reports for it.  Subdirectories of the download directory
    are not modelled. *)
Definition glob (fs : list (Path * file)) (output_dir : Path) (pattern : str)
  : list (Path * Z) :=
  map (fun qf => (joinpath output_dir (mkPath false [name (fst qf)]), mtime (snd qf)))
      (List.filter
         (fun qf => path_eqb (parent (fst qf)) (abspath output_dir)
                    && fnmatch (name (fst qf)) pattern)
         fs).

(** The files the download engine leaves in the output directory. *)
Definition leave_files (output_dir : Path) (created : list (str * file))
    (fs : list (Path * file)) : list (Path * file) :=
  fold_left
    (fun fs nf => store_file fs (abspath (joinpath output_dir (mkPath false [fst nf])))
                            (snd nf))
    created fs.

(** [ydl.extract_info(url, download=True)] followed by
    [ydl.prepare_filename(info)]: the engine leaves its files in the output
    directory and names the file it planned to write. *)
Definition ydl_extract (url : str) (opts : pydict) (output_dir : Path) : M str :=
  emit (EYdl url opts) ;;
  match env_ydl env with
  | YdlRaise msg => raise (DownloadError msg)
  | YdlDone filename created =>
      fun w =>
        (Ok filename,
         mkWorld (leave_files output_dir created (files w))
                 (dirs w) (clock w) (trace w))
  end.

(** [Downloader.__init__] keeps [config.get("downloader_args", default)]. *)
Definition Downloader (config : pydict) : json :=
  match dict_get config (u "downloader_args") with
  | Some v => v
  | None => JObj DEFAULT_downloader_args
  end.

(** Download audio from URL to the specified directory. *)
Definition download (ydl_opts : json) (url : str) (output_dir : Path) : M Path :=
  logging INFO (u "Downloading audio from: " ++ url) ;;
  mkdir output_dir ;;
  opts <- match ydl_opts with
          | JObj d => ret d
          | JArr _ => raise TypeError
          | _ => raise AttributeError
          end ;;
  outtmpl <- match dict_get opts (u "outtmpl") with
             | Some (JStr t) => ret t
             | Some _ => raise TypeError
             | None => raise (KeyError (u "outtmpl"))
             end ;;
  let opts := dict_set opts (u "outtmpl") (JStr (path_str (path_div output_dir outtmpl))) in
  let opts := dict_set opts (u "paths") (JObj [(u "home", JStr (path_str output_dir))]) in
  try_except
    (filename <- ydl_extract url opts output_dir ;;
     let base_name := stem (path_of_str filename) in
     found_files <- (fun w => (Ok (glob (files w) output_dir (base_name ++ u ".*")), w)) ;;
     match sort_desc snd found_files with
     | [] => raise (FileNotFoundError (u "Downloaded file not found."))
     | (final_path, _) :: _ =>
         logging INFO (u "Download complete: " ++ name final_path) ;;
         ret final_path
     end)
    is_Exception
    (fun e => logging ERROR (u "Download failed: " ++ exn_str e) ;; raise e).

(** *** Transcriber *)

(** [requests.post] followed by [raise_for_status] and [response.json()].
    The event records the call; what comes of it is the collaborator's
    answer. *)
Definition post_json (url : json) (body : PostBody) (answer : http_outcome) : M json :=
  emit (EPost url body) ;;
  match answer with
  | HttpError msg => raise (RequestException msg)
  | HttpResponse status body =>
      if ((400 <=? status) && (status <? 600))%Z
      then raise (RequestException (u "HTTP error " ++ Z_to_str status))
      else
        match body with
        | Some v => ret v
        | None => raise (RequestException (u "invalid JSON"))
        end
  end.

(** [obj.get(key, default)] on the parsed answer of a service. *)
Definition py_get (obj : json) (key : str) (default : json) : M json :=
  match obj with
  | JObj d =>
      match dict_get d key with
      | Some v => ret v
      | None => ret default
      end
  | _ => raise AttributeError
  end.

(** Convert audio to 16kHz mono WAV for Whisper. *)
Definition _convert_to_wav_16k (input_path : Path) : M Path :=
  output_path <- match with_suffix input_path (u ".wav") with
                 | Some q => ret q
                 | None => raise ValueError
                 end ;;
  logging INFO (u "Converting " ++ name input_path ++ u " to 16kHz WAV...") ;;
  let cmd := [ u "ffmpeg"; u "-y"; u "-i"; path_str input_path;
               u "-ar"; u "16000"; u "-ac"; u "1"; u "-loglevel"; u "error";
               path_str output_path ] in
  (if env_which env (u "ffmpeg") then ret tt
   else raise (FileNotFoundError (u "ffmpeg"))) ;;
  emit (ERun cmd None) ;;
  match ff_written (env_ffmpeg env) with
  | Some b => put_file output_path b
  | None => ret tt
  end ;;
  if (ff_returncode (env_ffmpeg env) =? 0)%Z then ret output_path
  else raise (CalledProcessError (ff_returncode (env_ffmpeg env)) []).

(** Transcribe audio file. Returns paths to (transcript.txt, timestamps.json).
    [json.dump] hands the text to the file in chunks; the model writes it in
    one piece, which gives the same file whenever the dump succeeds. *)
Definition transcribe (server_url : json) (audio_path : Path) : M (Path * Path) :=
  wav_path <- _convert_to_wav_16k audio_path ;;
  logging INFO (u "Uploading to Whisper server...") ;;
  try_finally
    (f <- read_bytes wav_path ;;
     result <- post_json server_url
                 (Multipart (name wav_path) f
                    [ (u "response_format", u "verbose_json");
                      (u "temperature", u "0.0") ])
                 (env_whisper env) ;;
     let base_name := stem audio_path in
     let txt_path := path_div (parent audio_path) (base_name ++ u ".txt") in
     let json_path := path_div (parent audio_path) (base_name ++ u "_timestamps.json") in
     write_text txt_path
       (text <- py_get result (u "text") (JStr []) ;;
        match text with
        | JStr t => ret (strip t)
        | _ => raise AttributeError
        end) ;;
     write_text json_path
       (segments <- py_get result (u "segments") (JArr []) ;;
        ret (json_dumps segments)) ;;
     logging INFO (u "Transcription saved to " ++ name txt_path) ;;
     ret (txt_path, json_path))
    (found <- exists_ wav_path ;;
     when (found && negb (path_eqb wav_path audio_path)) (unlink wav_path)).

(** *** Summarizer *)

Record Summarizer := mkSummarizer { server_url : json; model : json }.

(** Summarize using the Gemini CLI tool. *)
Definition _summarize_gemini (self : Summarizer) (transcript_text : str)
    (output_path : Path) : M unit :=
  (if env_which env (u "gemini") then ret tt
   else raise (FileNotFoundError
                 (u "The 'gemini' CLI tool is required but not found in PATH."))) ;;
  let cmd := [u "gemini"; u "-p"; SYSTEM_PROMPT] in
  try_except
    (emit (ERun cmd (Some transcript_text)) ;;
     (if (pr_returncode (env_gemini env) =? 0)%Z then ret tt
      else raise (CalledProcessError (pr_returncode (env_gemini env))
                                     (pr_stderr (env_gemini env)))) ;;
     write_text output_path (ret (pr_stdout (env_gemini env))) ;;
     logging INFO (u "Summary saved to " ++ name output_path))
    is_CalledProcessError
    (fun e =>
       logging ERROR (u "Gemini CLI failed: "
                      ++ match e with CalledProcessError _ err => err | _ => [] end) ;;
       raise (RuntimeError (u "Gemini CLI failed with return code "
                            ++ match e with
                               | CalledProcessError c _ => Z_to_str c
                               | _ => []
                               end))).

(** Summarize using the Ollama API. *)
Definition _summarize_ollama (self : Summarizer) (transcript_text : str)
    (output_path : Path) : M unit :=
  let prompt := SYSTEM_PROMPT ++ [10; 10] ++ u "Transcript:" ++ [10] ++ transcript_text in
  let payload := JObj [ (u "model", model self);
                        (u "prompt", JStr prompt);
                        (u "stream", JBool false) ] in
  try_except
    (result <- post_json (server_url self) (JsonBody payload) (env_ollama env) ;;
     summary_text <- py_get result (u "response") (JStr []) ;;
     write_text output_path
       (match summary_text with
        | JStr t => ret t
        | _ => raise TypeError
        end) ;;
     logging INFO (u "Summary saved to " ++ name output_path))
    is_RequestException
    (fun e => logging ERROR (u "Summarization failed: " ++ exn_str e) ;; raise e).

(** [str(v)] inside an f-string, for the values a configuration can hold
    under [summarize_model]; the text of a value that is not a string is
    approximated by its JSON form (it only shows in a log line). *)
Definition format_json (v : json) : str :=
  match v with
  | JStr t => t
  | _ => json_dumps v
  end.

(** Generate summary from transcript using Ollama or Gemini CLI. *)
Definition summarize (self : Summarizer) (transcript_path output_path : Path) : M unit :=
  logging INFO (u "Summarizing " ++ name transcript_path ++ u " using "
                ++ format_json (model self) ++ u "...") ;;
  transcript_text <- read_text transcript_path ;;
  lowered <- match model self with
             | JStr m => ret (lower m)
             | _ => raise AttributeError
             end ;;
  if str_eqb lowered (u "gemini")
  then _summarize_gemini self transcript_text output_path
  else _summarize_ollama self transcript_text output_path.

(** ** Main Logic *)

Record Args := mkArgs { input : str; no_summary : bool; verbose : bool }.

Definition is_KeyboardInterrupt (e : exn) : bool :=
  match e with KeyboardInterrupt => true | _ => false end.

(** The three assignments under [if "downloader_args" in config]. *)
Definition enable_verbose_downloader (config : pydict) : M pydict :=
  match dict_get config (u "downloader_args") with
  | None => ret config
  | Some (JObj d) =>
      let d := dict_set d (u "quiet") (JBool false) in
      let d := dict_set d (u "no_warnings") (JBool false) in
      let d := dict_set d (u "verbose") (JBool true) in
      ret (dict_set config (u "downloader_args") (JObj d))
  | Some _ => raise TypeError
  end.

(** [config[key]] *)
Definition getitem (config : pydict) (key : str) : M json :=
  match dict_get config key with
  | Some v => ret v
  | None => raise (KeyError key)
  end.

(** Lines 279-291: logging, dependencies, configuration. *)
Definition configure (args : Args) : M pydict :=
  setup_logging (verbose args) ;;
  check_dependencies ;;
  config <- load_config ;;
  config <- (if verbose args then
               logging DEBUG (u "Verbose mode enabled.") ;;
               enable_verbose_downloader config
             else ret config) ;;
  logging INFO (u "Loaded configuration.") ;;
  ret config.

Definition is_url (input_arg : str) : bool :=
  startswith input_arg (u "http://") || startswith input_arg (u "https://").

(** Step 1: Input Handling (Download or Local).  The result is
    [(temp_download_dir, audio_path, original_filename)]. *)
Definition step1_input_handling (downloader : json) (input_arg : str)
  : M (option Path * Path * str) :=
  if is_url input_arg then
    try_except
      (temp_download_dir <- mkdtemp ;;
       audio_path <- download downloader input_arg temp_download_dir ;;
       ret (Some temp_download_dir, audio_path, name audio_path))
      is_Exception
      (fun e =>
         logging ERROR (u "Download Failed: " ++ exn_str e) ;;
         notify (u "Download Failed") (exn_str e) ;;
         sys_exit 1)
  else
    let audio_path := env_resolve env input_arg in
    found <- exists_ audio_path ;;
    if found then ret (None, audio_path, name audio_path)
    else
      logging ERROR (u "File not found: " ++ path_str audio_path) ;;
      sys_exit 1.

(** Step 2: Workspace Creation, and the move of the audio file into the
    workspace.  The result is [(slug_base, slug_dir, final_audio_path)]. *)
Definition step2_workspace (config : pydict)
    (temp_download_dir : option Path) (audio_path : Path) (original_filename : str)
  : M (str * Path * Path) :=
  let slug_base := slugify (stem_of original_filename) in
  output_base_dir <- match dict_get config (u "output_directory") with
                     | Some (JStr d) => ret (path_of_str d)
                     | Some _ => raise TypeError
                     | None => ret (path_of_str (u "output/"))
                     end ;;
  let slug_dir := path_div output_base_dir slug_base in
  slug_exists <- exists_ slug_dir ;;
  (if slug_exists
   then logging WARNING (u "Directory '" ++ name slug_dir
                         ++ u "' already exists. Merging/Overwriting.")
   else mkdir slug_dir ;;
        logging INFO (u "Created workspace: " ++ path_str slug_dir)) ;;
  let final_audio_path := path_div slug_dir original_filename in
  match temp_download_dir with
  | Some tmp =>
      move audio_path final_audio_path ;;
      rmtree tmp ;;
      ret (slug_base, slug_dir, final_audio_path)
  | None =>
      if negb (path_eqb (parent audio_path) slug_dir)
      then move audio_path final_audio_path ;;
           ret (slug_base, slug_dir, final_audio_path)
      else ret (slug_base, slug_dir, audio_path)
  end.

(** Step 3: Transcription. *)
Definition step3_transcription (whisper_url : json) (final_audio_path : Path)
  : M Path :=
  try_except
    (paths <- transcribe whisper_url final_audio_path ;; ret (fst paths))
    is_Exception
    (fun e =>
       logging ERROR (u "Transcription failed: " ++ exn_str e) ;;
       notify (u "Transcription Failed") (exn_str e) ;;
       sys_exit 1).

(** Step 4: Summarization.  The result is the local variable
    [summary_path]: [None] when the branch that binds it was not taken. *)
Definition step4_summarization (args : Args) (summarizer : Summarizer)
    (slug_dir : Path) (slug_base : str) (transcript_path : Path)
    (original_filename : str) : M (option Path) :=
  if negb (no_summary args) then
    let summary_path := path_div slug_dir (slug_base ++ u "_summary.md") in
    try_except
      (summarize summarizer transcript_path summary_path ;;
       notify (u "Pipeline Complete") (u "Processed " ++ original_filename))
      is_Exception
      (fun e =>
         logging ERROR (u "Summarization failed: " ++ exn_str e) ;;
         notify (u "Summarization Failed") (exn_str e)) ;;
    ret (Some summary_path)
  else
    logging INFO (u "Skipping summary generation.") ;;
    notify (u "Transcription Complete") (u "Transcribed " ++ original_filename) ;;
    ret None.

Definition banner : str := repeat 61 40.

Definition summary_line (summary_path : Path) : str :=
  u " - Summary:    " ++ name summary_path.

(** Lines 372-380: the final status report.  The summary line is printed
    under [not args.no_summary and 'summary_path' in locals()]. *)
Definition report (args : Args) (slug_dir final_audio_path transcript_path : Path)
    (summary_path : option Path) : M unit :=
  print (10 :: banner) ;;
  print (u "SUCCESS") ;;
  print banner ;;
  print (u "Workspace: " ++ path_str slug_dir) ;;
  print (u " - Audio:      " ++ name final_audio_path) ;;
  print (u " - Transcript: " ++ name transcript_path) ;;
  match summary_path with
  | Some sp => when (negb (no_summary args)) (print (summary_line sp))
  | None => ret tt
  end ;;
  print banner.

Definition pipeline (args : Args) : M unit :=
  config <- configure args ;;
  let input_arg := input args in
  let downloader := Downloader config in
  whisper_url <- getitem config (u "whisper_url") ;;
  ollama_url <- getitem config (u "ollama_url") ;;
  summarize_model <- getitem config (u "summarize_model") ;;
  let summarizer := mkSummarizer ollama_url summarize_model in
  acquired <- step1_input_handling downloader input_arg ;;
  let '(temp_download_dir, audio_path, original_filename) := acquired in
  placed <- step2_workspace config temp_download_dir audio_path original_filename ;;
  let '(slug_base, slug_dir, final_audio_path) := placed in
  transcript_path <- step3_transcription whisper_url final_audio_path ;;
  summary_path <- step4_summarization args summarizer slug_dir slug_base
                    transcript_path original_filename ;;
  report args slug_dir final_audio_path transcript_path summary_path.

Definition main (args : Args) : M unit :=
  try_except2
    (pipeline args)
    is_KeyboardInterrupt
    (fun _ => logging INFO (u "Process interrupted by user.") ;; sys_exit 130)
    is_Exception
    (fun e =>
       logging CRITICAL (u "An unexpected error occurred: " ++ exn_str e) ;;
       sys_exit 1).

(** The exit status of the process that runs [main]. *)
Definition exit_status (r : result unit) : Z :=
  match r with
  | Ok _ => 0
  | Raise (SystemExit code) => code
  | Raise _ => 1
  end%Z.

Definition run (args : Args) (w : World) : Z * World :=
  let '(r, w') := main args w in (exit_status r, w').

End WithEnv.

(** * Closed scenarios

    A runtime and an environment for evaluating the model on concrete runs. *)

Definition simple_fnmatch (nm pattern : str) : bool :=
  match rev pattern with
  | c :: p' => if c =? 42 then startswith nm (rev p') else str_eqb nm pattern
  | [] => str_eqb nm pattern
  end.

#[local] Instance sample_lib : PyLib := {|
  float_repr := fun _ => u "0.5";
  float_of_literal := fun _ => S754_finite false 4503599627370496 (-53);
  lower_nonascii := fun c => [c];
  fnmatch := simple_fnmatch;
  slugify := fun s => s;
|}.

Definition p (s : string) : Path := path_of_str (u s).

Definition sample_env : Env := {|
  env_cwd := p "/home/user";
  env_home := p "/home/user";
  env_which := fun _ => true;
  env_resolve := fun s => path_of_str (u "/home/user/" ++ s);
  env_mkdtemp := Some (p "/tmp/tmpabc");
  env_notify_ok := fun _ _ => true;
  env_ydl := YdlDone (u "/tmp/tmpabc/Talk.webm")
               [(u "Talk.webm", mkFile [1] 10); (u "Talk.mp3", mkFile [2] 20)];
  env_ffmpeg := mkFfmpeg 0 (Some [82; 73; 70; 70]);
  env_whisper := HttpResponse 200 (Some (JObj [(u "text", JStr (u " hello world "));
      (u "segments", JArr [JObj [(u "start", JInt 0); (u "end", JInt 1); (u "text", JStr (u "hello world"))]])]));
  env_ollama := HttpError (u "connection refused");
  env_gemini := mkProc 0 (u "# Summary") [];
|}.

Definition sample_world : World :=
  mkWorld [(p "/home/user/talk.mp3", mkFile [73; 68; 51] 5)] [p "/home/user"; p "/tmp"] 100 [].

(** [q "abc"] is the JSON text of the string [abc]. *)
Definition q (s : string) : str := [34] ++ u s ++ [34].

(** A working directory that holds the override of the test suite. *)
Definition custom_config_world : World :=
  mkWorld [(p "/home/user/transcribe_config.json",
            mkFile ([123] ++ q "output_directory" ++ u ": " ++ q "custom_output/" ++ [125]) 1)]
          [p "/home/user"] 100 [].

(** The override sits in the per-user directory only. *)
Definition home_config_world : World :=
  mkWorld [(p "/home/user/.config/transcribe/transcribe_config.json",
            mkFile ([123] ++ q "output_directory" ++ u ": " ++ q "fallback_output/" ++ [125]) 1)]
          [p "/home/user"; p "/home/user/.config/transcribe"] 100 [].

(** An override saved as UTF-16 with a byte order mark: the text [{}]. *)
Definition utf16_config_world : World :=
  mkWorld [(p "/home/user/transcribe_config.json",
            mkFile [255; 254; 123; 0; 125; 0] 1);
           (p "/home/user/talk.mp3", mkFile [73; 68; 51] 5)]
          [p "/home/user"] 100 [].

(** * Properties *)

Arguments u : simpl never.
Arguments SYSTEM_PROMPT : simpl never.

(** Unfolds the combinators of the monad, and nothing of the text inside. *)
Ltac mrun :=
  cbv beta iota zeta delta
    [bind ret raise lift try_except try_except2 try_finally when emit print
     logging sys_exit exists_ read_text read_bytes setup_logging].

(** ** The Python [dict] *)

Lemma str_eqb_eq (a b : str) : str_eqb a b = true <-> a = b.
Proof. unfold str_eqb. apply bool_decide_eq_true. Qed.

Lemma str_eqb_refl (a : str) : str_eqb a a = true.
Proof. by apply str_eqb_eq. Qed.

Lemma str_eqb_neq (a b : str) : a <> b -> str_eqb a b = false.
Proof. intros. unfold str_eqb. by apply bool_decide_eq_false. Qed.

Lemma dict_get_set (d : pydict) k v k' :
  dict_get (dict_set d k v) k' = if str_eqb k k' then Some v else dict_get d k'.
Proof.
  induction d as [|[k0 v0] d IH]; simpl.
  - done.
  - destruct (str_eqb k0 k) eqn:E0; simpl.
    + apply str_eqb_eq in E0 as ->.
      destruct (str_eqb k k') eqn:E1; done.
    + rewrite IH. destruct (str_eqb k k') eqn:E1; [|done].
      apply str_eqb_eq in E1 as ->. by rewrite E0.
Qed.

Lemma dict_get_app (d1 d2 : pydict) k :
  dict_get (d1 ++ d2) k =
  match dict_get d1 k with Some v => Some v | None => dict_get d2 k end.
Proof.
  induction d1 as [|[k0 v0] d1 IH]; simpl; [done|].
  by destruct (str_eqb k0 k).
Qed.

(** After [d.update(other)] a key holds the last value [other] gives it,
    and its old value when [other] gives none. *)
Lemma dict_get_update (other d : pydict) k :
  dict_get (dict_update d other) k =
  match dict_get (rev other) k with Some v => Some v | None => dict_get d k end.
Proof.
  revert d. induction other as [|[k0 v0] other IH]; intros d; simpl; [done|].
  unfold dict_update in *. simpl. rewrite IH, dict_get_app, dict_get_set. simpl.
  destruct (dict_get (rev other) k); [done|].
  by destruct (str_eqb k0 k).
Qed.

Lemma dict_get_None_keys (d : pydict) k :
  dict_get d k = None <-> k ∉ map fst d.
Proof.
  induction d as [|[k0 v0] d IH]; simpl.
  - split; [intros _; apply not_elem_of_nil | done].
  - rewrite not_elem_of_cons. destruct (str_eqb k0 k) eqn:E.
    + apply str_eqb_eq in E. split; [done|]. intros [Hn _]. by destruct Hn.
    + rewrite IH. split; [|tauto]. intros Hn. split; [|done].
      intros ->. by rewrite str_eqb_refl in E.
Qed.

Lemma dict_get_rev (d : pydict) k :
  NoDup (map fst d) -> dict_get (rev d) k = dict_get d k.
Proof.
  induction d as [|[k0 v0] d IH]; simpl; [done|].
  intros Hnd. inversion Hnd as [|? ? Hn Hnd']; subst.
  rewrite dict_get_app, IH by done. simpl.
  destruct (str_eqb k0 k) eqn:E.
  - apply str_eqb_eq in E as ->.
    apply dict_get_None_keys in Hn. by rewrite Hn.
  - by destruct (dict_get d k).
Qed.

Lemma dict_set_keys (d : pydict) k v :
  map fst (dict_set d k v) =
  if dict_contains d k then map fst d else map fst d ++ [k].
Proof.
  unfold dict_contains.
  induction d as [|[k0 v0] d IH]; simpl; [done|].
  destruct (str_eqb k0 k) eqn:E; simpl; [done|].
  rewrite IH. by destruct (dict_get d k).
Qed.

Lemma dict_set_NoDup (d : pydict) k v :
  NoDup (map fst d) -> NoDup (map fst (dict_set d k v)).
Proof.
  intros Hnd. rewrite dict_set_keys. unfold dict_contains.
  destruct (dict_get d k) eqn:E; [done|].
  apply dict_get_None_keys in E.
  apply NoDup_app. split_and!; [done| |apply NoDup_singleton].
  intros x Hx Hx'. by apply list_elem_of_singleton in Hx' as ->.
Qed.

Lemma dict_update_NoDup (other d : pydict) :
  NoDup (map fst d) -> NoDup (map fst (dict_update d other)).
Proof.
  revert d. induction other as [|[k0 v0] other IH]; intros d Hd; [done|].
  apply IH. by apply dict_set_NoDup.
Qed.

Lemma dict_of_pairs_NoDup (pairs : list (str * json)) :
  NoDup (map fst (dict_of_pairs pairs)).
Proof. apply dict_update_NoDup. constructor. Qed.

(** A dictionary whose keys are distinct is what [dict(pairs)] makes of its
    own items. *)
Lemma dict_set_fresh (d : pydict) k v :
  k ∉ map fst d -> dict_set d k v = d ++ [(k, v)].
Proof.
  induction d as [|[k0 v0] d IH]; simpl; [done|].
  rewrite not_elem_of_cons. intros [Hne Hn].
  rewrite str_eqb_neq by done. by rewrite IH.
Qed.

Lemma dict_update_fresh (other d : pydict) :
  NoDup (map fst (d ++ other)) -> dict_update d other = d ++ other.
Proof.
  revert d. induction other as [|[k0 v0] other IH]; intros d Hd; simpl.
  - by rewrite app_nil_r.
  - unfold dict_update in *. simpl.
    replace (d ++ (k0, v0) :: other) with ((d ++ [(k0, v0)]) ++ other) in *
      by by rewrite <- app_assoc.
    rewrite dict_set_fresh.
    + by apply IH.
    + rewrite !map_app in Hd. apply NoDup_app in Hd as [Hd _].
      apply NoDup_app in Hd as (_ & Hd & _).
      intros Hin. apply (Hd _ Hin). simpl. apply list_elem_of_here.
Qed.

Lemma dict_of_pairs_NoDup_id (d : pydict) :
  NoDup (map fst d) -> dict_of_pairs d = d.
Proof. intros. by apply (dict_update_fresh d []). Qed.

(** ** Configuration *)

Section Config.
Context `{PyLib} (env : Env).

Lemma scan_number_not_obj s o r : scan_number s <> Some (JObj o, r).
Proof.
  unfold scan_number. repeat case_match; congruence.
Qed.

(** Every object the scanner returns has distinct keys. *)
Lemma scan_once_obj_NoDup fuel s o r :
  scan_once fuel s = Some (JObj o, r) -> NoDup (map fst o).
Proof.
  destruct fuel as [|fuel]; [done|]. cbn [scan_once].
  destruct s as [|c s]; [done|].
  intros Hs.
  repeat case_match; simplify_eq;
    try apply dict_of_pairs_NoDup; try constructor.
  all: exfalso; by eapply scan_number_not_obj.
Qed.

Lemma json_loads_obj_NoDup text o :
  json_loads text = Some (JObj o) -> NoDup (map fst o).
Proof.
  unfold json_loads. intros Hl. repeat case_match; simplify_eq.
  by eapply scan_once_obj_NoDup.
Qed.

Definition config_path : Path := path_of_str CONFIG_FILE_NAME.

(** Without a file at [./transcribe_config.json] the defaults are returned
    and nothing else is looked at. *)
Lemma load_config_no_file w :
  is_file env w config_path = false ->
  is_dir env w config_path = false ->
  load_config env w = (Ok DEFAULT_CONFIG, w).
Proof.
  intros Hf Hd. unfold load_config. mrun. fold config_path. by rewrite Hf, Hd.
Qed.

Lemma is_file_lookup w q f :
  lookup_file (files w) (abspath env q) = Some f -> is_file env w q = true.
Proof. unfold is_file. by intros ->. Qed.

(** A file that holds a JSON object is merged into the defaults. *)
Lemma load_config_object w f text o :
  lookup_file (files w) (abspath env config_path) = Some f ->
  utf8_decode (data f) = Some text ->
  json_loads text = Some (JObj o) ->
  load_config env w = (Ok (dict_update DEFAULT_CONFIG o), w).
Proof.
  intros Hf Hd Hj. unfold load_config. mrun. fold config_path.
  rewrite (is_file_lookup _ _ _ Hf). simpl. by rewrite Hf, Hd, Hj.
Qed.

(** Text that is not JSON: a warning is printed and the defaults are
    returned. *)
Lemma load_config_invalid_json w f text :
  lookup_file (files w) (abspath env config_path) = Some f ->
  utf8_decode (data f) = Some text ->
  json_loads text = None ->
  exists warning,
    load_config env w
    = (Ok DEFAULT_CONFIG,
       mkWorld (files w) (dirs w) (clock w) (trace w ++ [EPrint warning])).
Proof.
  intros Hf Hd Hj. unfold load_config. mrun. fold config_path.
  rewrite (is_file_lookup _ _ _ Hf). simpl. rewrite Hf, Hd, Hj. simpl.
  by eexists.
Qed.

(** Octets that are not UTF-8: the [UnicodeDecodeError] of the read is not
    a [JSONDecodeError] and leaves [load_config]. *)
Lemma load_config_undecodable w f :
  lookup_file (files w) (abspath env config_path) = Some f ->
  utf8_decode (data f) = None ->
  load_config env w = (Raise UnicodeDecodeError, w).
Proof.
  intros Hf Hd. unfold load_config. mrun. fold config_path.
  rewrite (is_file_lookup _ _ _ Hf). simpl. by rewrite Hf, Hd.
Qed.

End Config.

(** C4: configuration resolution is a key-wise shallow merge.  Without an
    override file the result is exactly the default configuration; with an
    override whose text is a JSON object, every key of the override holds
    the override's value, every other key holds its default, and every
    default key is still present. *)
Theorem load_config_shallow_merge `{PyLib} (env : Env) (w : World) :
  (is_file env w config_path = false -> is_dir env w config_path = false ->
   load_config env w = (Ok DEFAULT_CONFIG, w))
  /\ (forall f text o,
        lookup_file (files w) (abspath env config_path) = Some f ->
        utf8_decode (data f) = Some text ->
        json_loads text = Some (JObj o) ->
        exists cfg,
          load_config env w = (Ok cfg, w)
          /\ (forall k v, dict_get o k = Some v -> dict_get cfg k = Some v)
          /\ (forall k, dict_get o k = None ->
                        dict_get cfg k = dict_get DEFAULT_CONFIG k)
          /\ (forall k, dict_contains DEFAULT_CONFIG k = true ->
                        dict_contains cfg k = true)).
Proof.
  split; [apply load_config_no_file|].
  intros f text o Hf Hd Hj. exists (dict_update DEFAULT_CONFIG o).
  pose proof (json_loads_obj_NoDup _ _ Hj) as Hnd.
  split; [by eapply load_config_object|].
  split_and!.
  - intros k v Hk. by rewrite dict_get_update, dict_get_rev, Hk.
  - intros k Hk. by rewrite dict_get_update, dict_get_rev, Hk.
  - intros k. unfold dict_contains.
    rewrite dict_get_update, dict_get_rev by done.
    by destruct (dict_get o k).
Qed.

Lemma load_config_shallow_merge_witness :
  exists cfg,
    load_config sample_env custom_config_world = (Ok cfg, custom_config_world)
    /\ dict_get cfg (u "output_directory") = Some (JStr (u "custom_output/"))
    /\ dict_get cfg (u "whisper_url") = dict_get DEFAULT_CONFIG (u "whisper_url").
Proof.
  destruct (load_config_shallow_merge sample_env custom_config_world) as [_ Hm].
  destruct (Hm (mkFile ([123] ++ q "output_directory" ++ u ": " ++ q "custom_output/" ++ [125]) 1)
               ([123] ++ q "output_directory" ++ u ": " ++ q "custom_output/" ++ [125])
               [(u "output_directory", JStr (u "custom_output/"))])
    as (cfg & Hl & Hov & Hdef & _).
  - reflexivity.
  - reflexivity.
  - reflexivity.
  - exists cfg. split; [exact Hl|]. split.
    + apply Hov. reflexivity.
    + apply Hdef. reflexivity.
Defined.

(** C2: the override is looked for in the working directory only.  With
    the file present at [~/.config/transcribe/transcribe_config.json] and
    absent from the working directory, the defaults are returned. *)
Theorem load_config_skips_home_directory :
  let home_config :=
    path_div (path_div (path_div (env_home sample_env) (u ".config"))
                       (u "transcribe")) CONFIG_FILE_NAME in
  option_map data (lookup_file (files home_config_world) home_config)
  = Some ([123] ++ q "output_directory" ++ u ": " ++ q "fallback_output/" ++ [125])
  /\ load_config sample_env home_config_world = (Ok DEFAULT_CONFIG, home_config_world)
  /\ dict_get DEFAULT_CONFIG (u "output_directory") = Some (JStr (u "output/")).
Proof. vm_compute. done. Qed.

(** C5: an override file whose octets are not UTF-8 makes configuration
    resolution fail: [load_config] raises, no warning is printed, and the
    run ends with status 1. *)
Theorem load_config_fails_on_undecodable_file :
  load_config sample_env utf16_config_world
  = (Raise UnicodeDecodeError, utf16_config_world)
  /\ fst (run sample_env (mkArgs (u "talk.mp3") true false) utf16_config_world) = 1%Z.
Proof. vm_compute. done. Qed.

(** ** Acquisition *)

Section Sorting.
Context {A : Type} (key : A -> Z).

Lemma insert_desc_perm x l : insert_desc key x l ≡ₚ x :: l.
Proof.
  induction l as [|y l IH]; simpl; [done|].
  case_match; [done|]. rewrite IH. apply Permutation_swap.
Qed.

Lemma sort_desc_perm l : sort_desc key l ≡ₚ l.
Proof.
  induction l as [|x l IH]; simpl; [done|].
  by rewrite insert_desc_perm, IH.
Qed.

Definition desc (a b : A) : Prop := (key b <= key a)%Z.

Lemma insert_desc_sorted x l :
  StronglySorted desc l -> StronglySorted desc (insert_desc key x l).
Proof.
  induction 1 as [|y l Hs IH Hall]; simpl.
  - repeat constructor.
  - destruct (key y <=? key x)%Z eqn:E.
    + apply Z.leb_le in E. constructor; [by constructor|].
      constructor; [done|].
      eapply Forall_impl; [exact Hall|]. unfold desc. intros z Hz. simpl in *. lia.
    + apply Z.leb_gt in E. constructor; [done|].
      rewrite insert_desc_perm. constructor; [unfold desc; lia | done].
Qed.

Lemma sort_desc_sorted l : StronglySorted desc (sort_desc key l).
Proof.
  induction l as [|x l IH]; simpl; [constructor|]. by apply insert_desc_sorted.
Qed.

(** The first entry after the sort is an entry of the list and no entry
    has a larger key. *)
Lemma sort_desc_head l x t :
  sort_desc key l = x :: t ->
  x ∈ l /\ forall y, y ∈ l -> (key y <= key x)%Z.
Proof.
  intros Hs. pose proof (sort_desc_perm l) as Hp.
  pose proof (sort_desc_sorted l) as Hsd. rewrite Hs in Hp, Hsd.
  split.
  - rewrite <- Hp. apply list_elem_of_here.
  - intros y Hy. rewrite <- Hp in Hy.
    apply StronglySorted_inv in Hsd as [_ Hall].
    apply elem_of_cons in Hy as [->|Hy]; [lia|].
    rewrite Forall_forall in Hall. by apply Hall.
Qed.

Lemma sort_desc_nil l : sort_desc key l = [] -> l = [].
Proof.
  intros Hs. pose proof (sort_desc_perm l) as Hp. rewrite Hs in Hp.
  symmetry in Hp. by apply Permutation_nil_r in Hp.
Qed.

End Sorting.

Section Download.
Context `{PyLib} (env : Env).

(** The candidates [download] chooses from: the matches of
    [f"{base_name}.*"] in the download directory once the engine is done. *)
Definition candidates (w : World) (output_dir : Path) (filename : str)
    (created : list (str * file)) : list (Path * Z) :=
  glob env (leave_files env output_dir created (files w)) output_dir
       (stem (path_of_str filename) ++ u ".*").


End Download.

Definition two_downloads_world : World := mkWorld [] [p "/tmp"] 100 [].


Example download_picks_converted_file :
  fst (download sample_env (JObj DEFAULT_downloader_args) (u "https://x.y/v")
                (p "/tmp/tmpabc") two_downloads_world)
  = Ok (p "/tmp/tmpabc/Talk.mp3").
Proof. vm_compute. reflexivity. Qed.

(** ** What a computation leaves of the world

    [keeps R c]: every run of [c] takes a world to one related by [R],
    whether it returns or raises.  [R] is a preorder, so the judgement
    passes through the combinators of the monad. *)

Section Keeps.
Context (R : World -> World -> Prop) `{!PreOrder R}.

Definition keeps {A} (c : M A) : Prop := forall w, R w (snd (c w)).

Lemma keeps_ret {A} (a : A) : keeps (ret a).
Proof. intros w. simpl. reflexivity. Qed.

Lemma keeps_raise {A} e : keeps (@raise A e).
Proof. intros w. simpl. reflexivity. Qed.

Lemma keeps_lift {A} (r : result A) : keeps (lift r).
Proof. intros w. simpl. reflexivity. Qed.

Lemma keeps_bind {A B} (c : M A) (k : A -> M B) :
  keeps c -> (forall a, keeps (k a)) -> keeps (bind c k).
Proof.
  intros Hc Hk w. unfold bind. specialize (Hc w).
  destruct (c w) as [[a|e] w']; simpl in *; [|done].
  etransitivity; [exact Hc | apply Hk].
Qed.

Lemma keeps_try_except {A} (c : M A) catches handler :
  keeps c -> (forall e, keeps (handler e)) -> keeps (try_except c catches handler).
Proof.
  intros Hc Hh w. unfold try_except. specialize (Hc w).
  destruct (c w) as [[a|e] w']; simpl in *; [done|].
  destruct (catches e); [|done].
  etransitivity; [exact Hc | apply Hh].
Qed.

Lemma keeps_try_except2 {A} (c : M A) c1 h1 c2 h2 :
  keeps c -> (forall e, keeps (h1 e)) -> (forall e, keeps (h2 e)) ->
  keeps (try_except2 c c1 h1 c2 h2).
Proof.
  intros Hc H1 H2 w. unfold try_except2. specialize (Hc w).
  destruct (c w) as [[a|e] w']; simpl in *; [done|].
  destruct (c1 e); [etransitivity; [exact Hc | apply H1]|].
  destruct (c2 e); [etransitivity; [exact Hc | apply H2]|done].
Qed.

Lemma keeps_try_finally {A} (c : M A) cleanup :
  keeps c -> keeps cleanup -> keeps (try_finally c cleanup).
Proof.
  intros Hc Hf w. unfold try_finally. specialize (Hc w).
  destruct (c w) as [r w']; simpl in *. specialize (Hf w').
  destruct (cleanup w') as [[[]|e] w'']; simpl in *; by etransitivity.
Qed.

Lemma keeps_when b (c : M unit) : keeps c -> keeps (when b c).
Proof. intros Hc. destruct b; [done|apply keeps_ret]. Qed.

End Keeps.

(** The trace grows by events that satisfy [safe]; nothing else is said. *)
Definition grows (safe : Event -> Prop) (w w' : World) : Prop :=
  exists evs, trace w' = trace w ++ evs /\ Forall safe evs.

#[local] Instance grows_preorder safe : PreOrder (grows safe).
Proof.
  split.
  - intros w. exists []. by rewrite app_nil_r.
  - intros w1 w2 w3 (e1 & H1 & F1) (e2 & H2 & F2).
    exists (e1 ++ e2). rewrite H2, H1, app_assoc. split; [done|].
    by apply Forall_app.
Qed.

(** The files and directories are untouched. *)
Definition same_fs (w w' : World) : Prop :=
  files w' = files w /\ dirs w' = dirs w.

#[local] Instance same_fs_preorder : PreOrder same_fs.
Proof.
  split; [done|]. intros w1 w2 w3 [H1 H1'] [H2 H2']. split; congruence.
Qed.

Lemma grows_emit safe e : safe e -> keeps (grows safe) (emit e).
Proof. intros He w. exists [e]. simpl. split; [done|]. by constructor. Qed.

Lemma same_fs_emit e : keeps same_fs (emit e).
Proof. by intros w. Qed.

(** ** The exceptions a computation can raise *)

Definition raises {A} (P : exn -> Prop) (c : M A) : Prop :=
  forall w e, fst (c w) = Raise e -> P e.

Lemma raises_ret {A} P (a : A) : raises P (ret a).
Proof. by intros w e. Qed.

Lemma raises_raise {A} (P : exn -> Prop) e : P e -> raises P (@raise A e).
Proof. intros He w e' [= <-]. done. Qed.

Lemma raises_emit P e : raises P (emit e).
Proof. by intros w e'. Qed.

Lemma raises_bind {A B} P (c : M A) (k : A -> M B) :
  raises P c -> (forall a, raises P (k a)) -> raises P (bind c k).
Proof.
  intros Hc Hk w e. unfold bind. specialize (Hc w).
  destruct (c w) as [[a|e'] w'] eqn:E; simpl in *.
  - apply Hk.
  - intros [= <-]. by apply Hc.
Qed.

Lemma raises_try_except {A} P (c : M A) catches handler :
  raises (fun e => catches e = false -> P e) c ->
  (forall e, raises P (handler e)) ->
  raises P (try_except c catches handler).
Proof.
  intros Hc Hh w e. unfold try_except. specialize (Hc w).
  destruct (c w) as [[a|e'] w'] eqn:E; simpl in *; [done|].
  destruct (catches e') eqn:Ec.
  - apply Hh.
  - intros [= <-]. by apply Hc.
Qed.

Lemma raises_weaken {A} (P Q : exn -> Prop) (c : M A) :
  (forall e, P e -> Q e) -> raises P c -> raises Q c.
Proof. intros HPQ Hc w e He. apply HPQ. by eapply Hc. Qed.

Lemma raises_when P b (c : M unit) : raises P c -> raises P (when b c).
Proof. intros Hc. destruct b; [done|apply raises_ret]. Qed.

Lemma grows_mono (P Q : Event -> Prop) w w' :
  (forall e, P e -> Q e) -> grows P w w' -> grows Q w w'.
Proof.
  intros HPQ (evs & Ht & Hf). exists evs. split; [done|].
  eapply Forall_impl; [exact Hf|done].
Qed.

Lemma keeps_grows_mono {A} (P Q : Event -> Prop) (c : M A) :
  (forall e, P e -> Q e) -> keeps (grows P) c -> keeps (grows Q) c.
Proof. intros HPQ Hc w. eapply grows_mono; [exact HPQ|apply Hc]. Qed.

Lemma grows_silent safe w w' : trace w' = trace w -> grows safe w w'.
Proof. intros Ht. exists []. by rewrite app_nil_r. Qed.

(** The events each part of the script can emit. *)
Definition is_log (e : Event) : bool :=
  match e with ELog _ _ => true | _ => false end.

Definition configure_event (e : Event) : bool :=
  match e with ELog _ _ | EPrint _ => true | _ => false end.

Definition notify_event (e : Event) : bool :=
  match e with ELog _ _ | ENotify _ _ => true | _ => false end.

Definition download_event (e : Event) : bool :=
  match e with ELog _ _ | EMkdir _ | EYdl _ _ => true | _ => false end.

Definition transcribe_event (e : Event) : bool :=
  match e with
  | ELog _ _ | ERun _ _ | EPost _ _ | EWrite _ | EUnlink _ => true
  | _ => false
  end.

Definition summarize_event (e : Event) : bool :=
  match e with
  | ELog _ _ | ERun _ _ | EPost _ _ | EWrite _ => true
  | _ => false
  end.

Section Primitives.
Context `{PyLib} (env : Env) (safe : Event -> Prop).

Lemma grows_exists q : keeps (grows safe) (exists_ env q).
Proof. intros w. by apply grows_silent. Qed.

Lemma grows_read_bytes q : keeps (grows safe) (read_bytes env q).
Proof.
  intros w. apply grows_silent. unfold read_bytes. by repeat case_match.
Qed.

Lemma grows_read_text q : keeps (grows safe) (read_text env q).
Proof.
  apply keeps_bind; [apply _|apply grows_read_bytes|].
  intros b. case_match; [apply keeps_ret|apply keeps_raise]; apply _.
Qed.

Lemma grows_put_file q b : keeps (grows safe) (put_file env q b).
Proof. intros w. by apply grows_silent. Qed.

Lemma grows_write_text q (text : M str) :
  safe (EWrite q) -> keeps (grows safe) text ->
  keeps (grows safe) (write_text env q text).
Proof.
  intros Hs Ht. unfold write_text.
  apply keeps_bind; [apply _|by apply grows_emit|intros _].
  apply keeps_bind; [apply _|apply grows_put_file|intros _].
  apply keeps_bind; [apply _|done|intros s].
  case_match; [apply grows_put_file|apply keeps_raise; apply _].
Qed.

Lemma grows_unlink q : safe (EUnlink q) -> keeps (grows safe) (unlink env q).
Proof.
  intros Hs w. unfold unlink.
  repeat case_match; simpl; try (by apply grows_silent);
    (exists [EUnlink q]; split; [done|by constructor]).
Qed.

Lemma grows_mkdir q : safe (EMkdir q) -> keeps (grows safe) (mkdir env q).
Proof. intros Hs w. exists [EMkdir q]. split; [done|by constructor]. Qed.

Lemma grows_move a b : safe (EMove a b) -> keeps (grows safe) (move env a b).
Proof.
  intros Hs w. unfold move.
  repeat case_match; simpl; try (by apply grows_silent);
    (exists [EMove a b]; split; [done|by constructor]).
Qed.

Lemma grows_rmtree d : safe (ERmtree d) -> keeps (grows safe) (rmtree env d).
Proof.
  intros Hs w. unfold rmtree. case_match; simpl; [|by apply grows_silent].
  exists [ERmtree d]. split; [done|by constructor].
Qed.

Lemma grows_mkdtemp :
  (forall d, safe (EMkdtemp d)) -> keeps (grows safe) (mkdtemp env).
Proof.
  intros Hs w. unfold mkdtemp. case_match; simpl; [|by apply grows_silent].
  eexists [EMkdtemp _]. split; [done|by constructor].
Qed.

Lemma grows_notify t m :
  (forall e, notify_event e = true -> safe e) ->
  keeps (grows safe) (notify env t m).
Proof.
  intros Hs. unfold notify. case_match; apply grows_emit; by apply Hs.
Qed.

End Primitives.

(** Applies the rules of [keeps (grows _)] along the structure of a
    computation. *)
Ltac grows_step :=
  first
    [ apply keeps_ret; apply _
    | apply keeps_raise; apply _
    | apply keeps_lift; apply _
    | apply keeps_bind; [apply _| |intros ?]
    | apply keeps_try_except; [apply _| |intros ?]
    | apply keeps_try_finally; [apply _| |]
    | apply keeps_when; [apply _|]
    | apply grows_exists
    | apply grows_read_text
    | apply grows_read_bytes
    | apply grows_put_file
    | apply grows_write_text
    | apply grows_unlink
    | apply grows_mkdir
    | apply grows_move
    | apply grows_rmtree
    | apply grows_mkdtemp
    | apply grows_notify
    | apply grows_emit ].

Ltac grows_auto :=
  unfold logging, print, sys_exit;
  repeat first [ grows_step | case_match | progress intros ];
  try done.

Section Blocks.
Context `{PyLib} (env : Env).

Lemma load_config_grows :
  keeps (grows (fun e => configure_event e = true)) (load_config env).
Proof. unfold load_config. grows_auto. Qed.

Lemma configure_grows args :
  keeps (grows (fun e => configure_event e = true)) (configure env args).
Proof.
  unfold configure, setup_logging, check_dependencies, enable_verbose_downloader.
  grows_auto.
Qed.

Lemma download_grows opts url d :
  keeps (grows (fun e => download_event e = true)) (download env opts url d).
Proof.
  unfold download, ydl_extract. grows_auto.
  intros w. by apply grows_silent.
  intros w. by apply grows_silent.
Qed.

Lemma transcribe_grows url a :
  keeps (grows (fun e => transcribe_event e = true)) (transcribe env url a).
Proof.
  unfold transcribe, _convert_to_wav_16k, post_json, py_get. grows_auto.
Qed.

Lemma summarize_grows self a b :
  keeps (grows (fun e => summarize_event e = true)) (summarize env self a b).
Proof.
  unfold summarize, _summarize_gemini, _summarize_ollama, post_json, py_get.
  grows_auto.
Qed.

End Blocks.

(** ** Shapes of the trace

    [extends Q]: the trace grows by a list of events that satisfies [Q].
    The shapes used below hold of the empty list and of concatenations. *)

Class TraceShape (Q : list Event -> Prop) : Prop := {
  shape_nil : Q [];
  shape_app : forall a b, Q a -> Q b -> Q (a ++ b);
}.

Definition extends (Q : list Event -> Prop) (w w' : World) : Prop :=
  exists evs, trace w' = trace w ++ evs /\ Q evs.

#[local] Instance extends_preorder Q `{!TraceShape Q} : PreOrder (extends Q).
Proof.
  split.
  - intros w. exists []. rewrite app_nil_r. split; [done|apply shape_nil].
  - intros w1 w2 w3 (e1 & H1 & F1) (e2 & H2 & F2).
    exists (e1 ++ e2). rewrite H2, H1, app_assoc. split; [done|].
    by apply shape_app.
Qed.

Lemma keeps_grows_extends {A} (safe : Event -> Prop) Q (c : M A) :
  (forall evs, Forall safe evs -> Q evs) ->
  keeps (grows safe) c -> keeps (extends Q) c.
Proof.
  intros HQ Hc w. destruct (Hc w) as (evs & Ht & Hf).
  exists evs. split; [done|by apply HQ].
Qed.

(** Events other than those of the download and of the removal of the
    temporary directory. *)
Definition ordinary (e : Event) : bool :=
  match e with
  | EMkdtemp _ | EYdl _ _ | ERmtree _ => false
  | _ => true
  end.

Definition ordinary_or_ydl (e : Event) : bool :=
  match e with
  | EMkdtemp _ | ERmtree _ => false
  | _ => true
  end.

Section PipelineShape.
Context `{PyLib} (env : Env) (args : Args).
Context (Q : list Event -> Prop) `{!TraceShape Q}.
Hypothesis Q_ordinary : forall evs, Forall (fun e => ordinary e = true) evs -> Q evs.
Hypothesis Q_download :
  is_url (input args) = true ->
  forall d evs, env_mkdtemp env = Some d ->
    Forall (fun e => ordinary_or_ydl e = true) evs -> Q (EMkdtemp d :: evs).
Hypothesis Q_placed :
  is_url (input args) = true ->
  forall src dst d, env_mkdtemp env = Some d -> Q [EMove src dst; ERmtree d].

Lemma ordinary_keeps {A} (safe : Event -> bool) (c : M A) :
  (forall e, safe e = true -> ordinary e = true) ->
  keeps (grows (fun e => safe e = true)) c -> keeps (extends Q) c.
Proof.
  intros Hs Hc. eapply keeps_grows_extends; [|exact Hc].
  intros evs Hf. apply Q_ordinary. eapply Forall_impl; [exact Hf|]. apply Hs.
Qed.

Lemma configure_shape : keeps (extends Q) (configure env args).
Proof.
  eapply ordinary_keeps; [|apply configure_grows]. by intros [].
Qed.

Lemma getitem_shape cfg k : keeps (extends Q) (getitem cfg k).
Proof. unfold getitem. case_match; [apply keeps_ret|apply keeps_raise]; apply _. Qed.

Lemma step1_shape downloader :
  keeps (extends Q) (step1_input_handling env downloader (input args)).
Proof.
  unfold step1_input_handling. destruct (is_url (input args)) eqn:Hurl.
  - intros w. unfold try_except, bind, mkdtemp.
    destruct (env_mkdtemp env) as [d|] eqn:Hd; simpl.
    + set (w1 := mkWorld _ _ _ (trace w ++ [EMkdtemp d])).
      assert (keeps (grows (fun e => ordinary_or_ydl e = true))
                (try_except
                   (audio_path <- download env downloader (input args) d ;;
                    ret (Some d, audio_path, name audio_path))
                   is_Exception
                   (fun e =>
                      logging ERROR (u "Download Failed: " ++ exn_str e) ;;
                      notify env (u "Download Failed") (exn_str e) ;;
                      sys_exit 1))) as Hk.
      { apply keeps_try_except; [apply _| |intros e].
        - apply keeps_bind; [apply _| |intros a; apply keeps_ret; apply _].
          eapply keeps_grows_mono; [|apply download_grows]. by intros [].
        - grows_auto. by destruct e0. }
      destruct (Hk w1) as (evs & Ht & Hf).
      unfold try_except, bind in Ht. simpl in Ht.
      exists (EMkdtemp d :: evs). split; [|by apply Q_download].
      rewrite Ht. subst w1. simpl. by rewrite <- app_assoc.
    + assert (keeps (extends Q)
                (logging ERROR (u "Download Failed: " ++ exn_str (OSError (u "mkdtemp"))) ;;
                 notify env (u "Download Failed") (exn_str (OSError (u "mkdtemp"))) ;;
                 sys_exit 1 : M (option Path * Path * str))) as Hk.
      { eapply (ordinary_keeps notify_event); [by intros []|]. grows_auto. }
      apply Hk.
  - eapply (ordinary_keeps is_log); [by intros []|]. grows_auto.
Qed.

(** The temporary directory that step 1 returns is the one [mkdtemp] made. *)
Lemma step1_temp_dir downloader w tmp audio_path nm w' :
  step1_input_handling env downloader (input args) w
  = (Ok (Some tmp, audio_path, nm), w') ->
  is_url (input args) = true /\ env_mkdtemp env = Some tmp.
Proof.
  unfold step1_input_handling. destruct (is_url (input args)).
  - unfold try_except, bind, mkdtemp.
    destruct (env_mkdtemp env) as [d|]; simpl.
    + intros Hs. unfold ret in *. repeat case_match; simplify_eq. done.
    + unfold notify. by repeat case_match.
  - mrun. by repeat case_match.
Qed.

Lemma step2_shape config temp audio_path nm :
  (forall tmp, temp = Some tmp ->
     is_url (input args) = true /\ env_mkdtemp env = Some tmp) ->
  keeps (extends Q) (step2_workspace env config temp audio_path nm).
Proof.
  intros Htemp. unfold step2_workspace.
  apply keeps_bind; [apply _| |intros output_base_dir].
  { repeat case_match; first [apply keeps_ret|apply keeps_raise]; apply _. }
  apply keeps_bind; [apply _| |intros slug_exists].
  { eapply (ordinary_keeps is_log); [by intros []|]. grows_auto. }
  apply keeps_bind; [apply _| |intros _].
  { eapply (ordinary_keeps ordinary); [done|].
    grows_auto. }
  destruct temp as [tmp|].
  - destruct (Htemp tmp eq_refl) as [Hurl Hd].
    intros w. unfold bind, move, rmtree, ret.
    repeat case_match; simplify_eq; simpl;
      try (exists []; rewrite app_nil_r; split; [done|apply shape_nil]).
    all: try (eexists [EMove _ _; ERmtree tmp]; rewrite <- app_assoc; split; [done|];
              by apply Q_placed).
    all: try (eexists [EMove _ _]; split; [done|]; apply Q_ordinary;
              by repeat constructor).
  - eapply (ordinary_keeps ordinary); [done|].
    grows_auto.
Qed.

Lemma step3_shape url a : keeps (extends Q) (step3_transcription env url a).
Proof.
  unfold step3_transcription.
  eapply (ordinary_keeps (fun e => transcribe_event e || notify_event e));
    [by intros []|].
  apply keeps_try_except; [apply _| |intros e].
  - apply keeps_bind; [apply _| |intros ?; apply keeps_ret; apply _].
    eapply keeps_grows_mono; [|apply transcribe_grows]. by intros [].
  - grows_auto. by destruct e0.
Qed.

Lemma step4_shape summarizer slug_dir slug_base t nm :
  keeps (extends Q) (step4_summarization env args summarizer slug_dir slug_base t nm).
Proof.
  unfold step4_summarization.
  eapply (ordinary_keeps (fun e => summarize_event e || notify_event e));
    [by intros []|].
  case_match.
  - apply keeps_bind; [apply _| |intros ?; apply keeps_ret; apply _].
    apply keeps_try_except; [apply _| |intros e].
    + apply keeps_bind; [apply _| |intros ?].
      * eapply keeps_grows_mono; [|apply summarize_grows]. by intros [].
      * grows_auto. by destruct e.
    + grows_auto. by destruct e0.
  - grows_auto. by destruct e.
Qed.

Lemma report_shape a b c d : keeps (extends Q) (report args a b c d).
Proof.
  unfold report.
  eapply (ordinary_keeps ordinary); [done|].
  grows_auto.
Qed.

Lemma pipeline_shape : keeps (extends Q) (pipeline env args).
Proof.
  unfold pipeline.
  apply keeps_bind; [apply _|apply configure_shape|intros config].
  do 3 (apply keeps_bind; [apply _|apply getitem_shape|intros ?]).
  intros w. unfold bind at 1.
  pose proof (step1_shape (Downloader config) w) as Hs.
  destruct (step1_input_handling _ _ _ w) as [[[[temp audio_path] nm]|e] w1] eqn:H1;
    [|done].
  simpl in Hs. etransitivity; [exact Hs|]. clear Hs.
  assert (keeps (extends Q)
    (placed <- step2_workspace env config temp audio_path nm ;;
     let '(slug_base, slug_dir, final_audio_path) := placed in
     transcript_path <- step3_transcription env a final_audio_path ;;
     summary_path <- step4_summarization env args (mkSummarizer a0 a1) slug_dir
                       slug_base transcript_path nm ;;
     report args slug_dir final_audio_path transcript_path summary_path)) as Hk;
    [|apply Hk].
  apply keeps_bind; [apply _| |intros [[slug_base slug_dir] final_audio_path]].
  { apply step2_shape. intros tmp ->. by eapply step1_temp_dir. }
  apply keeps_bind; [apply _|apply step3_shape|intros ?].
  apply keeps_bind; [apply _|apply step4_shape|intros ?].
  apply report_shape.
Qed.

Lemma main_shape : keeps (extends Q) (main env args).
Proof.
  unfold main. apply keeps_try_except2; [apply _|apply pipeline_shape| |];
    intros e; (eapply (ordinary_keeps is_log); [by intros []|]); grows_auto.
Qed.

(** The events of a whole run have the shape [Q]. *)
Lemma run_shape w : extends Q w (snd (run env args w)).
Proof.
  unfold run. pose proof (main_shape w) as Hm.
  by destruct (main env args w).
Qed.

End PipelineShape.

(** ** Exit status *)

Definition clean_exit (e : exn) : Prop := e = SystemExit 1 \/ is_Exception e = true.

Section Status.
Context `{PyLib} (env : Env).

Lemma run_status args w :
  fst (run env args w)
  = match fst (pipeline env args w) with
    | Ok _ => 0
    | Raise KeyboardInterrupt => 130
    | Raise (SystemExit code) => code
    | Raise _ => 1
    end%Z.
Proof.
  unfold run, main, try_except2.
  destruct (pipeline env args w) as [[[]|e] w']; [done|].
  by destruct e.
Qed.

Lemma update_items_Exception d items e :
  update_items d items = Raise e -> is_Exception e = true.
Proof.
  revert d. induction items as [|item items IH]; intros d; simpl; [done|].
  destruct (update_item d item) as [d'|e'] eqn:E; [apply IH|].
  intros [= <-]. unfold update_item in E. by repeat case_match; simplify_eq.
Qed.

Lemma py_update_Exception d v e :
  py_update d v = Raise e -> is_Exception e = true.
Proof.
  destruct v; simpl; try (by intros [= <-]).
  - destruct s; by intros [= <-].
  - apply update_items_Exception.
Qed.

Lemma load_config_raises : raises (fun e => is_Exception e = true) (load_config env).
Proof.
  intros w e. unfold load_config. mrun.
  repeat case_match; simplify_eq; simpl; try done;
    try (by intros [= <-]).
  all: intros [= <-]; try done; by eapply py_update_Exception.
Qed.

Lemma load_config_same_fs : keeps same_fs (load_config env).
Proof.
  intros w. unfold load_config. mrun. by repeat case_match; simplify_eq; split.
Qed.

Lemma configure_same_fs args : keeps same_fs (configure env args).
Proof.
  unfold configure, setup_logging, check_dependencies, enable_verbose_downloader.
  apply keeps_bind; [apply _|apply keeps_ret; apply _|intros _].
  apply keeps_bind; [apply _| |intros _].
  { case_match; [apply keeps_ret; apply _|].
    apply keeps_bind; [apply _|apply same_fs_emit|intros _].
    apply keeps_raise; apply _. }
  apply keeps_bind; [apply _|apply load_config_same_fs|intros config].
  apply keeps_bind; [apply _| |intros ?].
  { case_match; [|apply keeps_ret; apply _].
    apply keeps_bind; [apply _|apply same_fs_emit|intros _].
    repeat case_match; first [apply keeps_ret|apply keeps_raise]; apply _. }
  apply keeps_bind; [apply _|apply same_fs_emit|intros _].
  apply keeps_ret; apply _.
Qed.

Lemma configure_raises args : raises clean_exit (configure env args).
Proof.
  unfold configure, setup_logging, check_dependencies, enable_verbose_downloader.
  apply raises_bind; [apply raises_ret|intros _].
  apply raises_bind; [|intros _].
  { case_match; [apply raises_ret|].
    apply raises_bind; [apply raises_emit|intros _].
    apply raises_raise. by left. }
  apply raises_bind; [|intros config].
  { eapply raises_weaken; [|apply load_config_raises]. intros e He. by right. }
  apply raises_bind; [|intros ?].
  { case_match; [|apply raises_ret].
    apply raises_bind; [apply raises_emit|intros _].
    repeat case_match; first [apply raises_ret|apply raises_raise; by right]. }
  apply raises_bind; [apply raises_emit|intros _]. apply raises_ret.
Qed.

(** A local input whose file is missing ends the run with status 1. *)
Lemma missing_local_file_status args w :
  is_url (input args) = false ->
  is_file env w (env_resolve env (input args)) = false ->
  is_dir env w (env_resolve env (input args)) = false ->
  fst (run env args w) = 1%Z.
Proof.
  intros Hurl Hf Hd. rewrite run_status. unfold pipeline.
  unfold bind at 1.
  pose proof (configure_same_fs args w) as [Hfs Hds].
  pose proof (configure_raises args w) as Hr.
  destruct (configure env args w) as [[config|e] w1]; simpl in *.
  2:{ destruct (Hr e eq_refl) as [->|He]; [done|by destruct e]. }
  unfold getitem, bind, raise, ret.
  destruct (dict_get config (u "whisper_url")); [|done].
  destruct (dict_get config (u "ollama_url")); [|done].
  destruct (dict_get config (u "summarize_model")); [|done].
  unfold step1_input_handling. rewrite Hurl. mrun.
  unfold is_file, is_dir in *. rewrite Hfs, Hds, Hf, Hd. done.
Qed.

End Status.

(** ** Input classification *)

Lemma startswith_spec s prefix :
  startswith s prefix = true <-> exists rest, s = prefix ++ rest.
Proof.
  revert s. induction prefix as [|c prefix IH]; intros s; simpl.
  - destruct s; (split; [intros _; by eexists|by intros _]).
  - destruct s as [|c' s]; simpl.
    + split; [done|]. by intros [rest ?].
    + rewrite andb_true_iff, IH, N.eqb_eq. split.
      * intros [-> [rest ->]]. by exists rest.
      * intros [rest [= -> ->]]. split; [done|by exists rest].
Qed.

#[local] Instance ordinary_shape : TraceShape (Forall (fun e => ordinary e = true)).
Proof. split; [constructor|]. intros a b Ha Hb. by apply Forall_app. Qed.



(** ** The temporary download directory *)

Section TempDir.
Context `{PyLib} (env : Env).

(** A download is preceded by the creation of a temporary directory, and a
    removal is that of the temporary directory, right after a move. *)
Definition temp_dir_discipline (evs : list Event) : Prop :=
  (forall pre url opts post, evs = pre ++ EYdl url opts :: post ->
     exists d, EMkdtemp d ∈ pre)
  /\ (forall pre d post, evs = pre ++ ERmtree d :: post ->
        env_mkdtemp env = Some d
        /\ exists pre' src dst, pre = pre' ++ [EMove src dst]).

Lemma split_at_event (a b pre post : list Event) (x : Event) :
  a ++ b = pre ++ x :: post ->
  (exists mid, a = pre ++ x :: mid /\ post = mid ++ b)
  \/ (exists pre2, pre = a ++ pre2 /\ b = pre2 ++ x :: post).
Proof.
  intros Heq. apply List.app_eq_app in Heq as [l [[-> Hl]|[-> Hl]]].
  - destruct l as [|y l]; simpl in Hl.
    + right. exists []. by rewrite !app_nil_r.
    + simplify_eq/=. left. by exists l.
  - right. by exists l.
Qed.

#[local] Instance temp_dir_shape : TraceShape temp_dir_discipline.
Proof.
  split.
  - split; [intros pre ? ? ? Heq|intros pre ? ? Heq]; by destruct pre.
  - intros a b [Ha1 Ha2] [Hb1 Hb2]. split.
    + intros pre url opts post Heq.
      apply split_at_event in Heq as [(mid & -> & ->)|(pre2 & -> & ->)].
      * by eapply Ha1.
      * destruct (Hb1 pre2 url opts post eq_refl) as [d Hd].
        exists d. apply elem_of_app. by right.
    + intros pre d post Heq.
      apply split_at_event in Heq as [(mid & -> & ->)|(pre2 & -> & ->)].
      * by eapply Ha2.
      * destruct (Hb2 pre2 d post eq_refl) as (Hd & pre' & src & dst & ->).
        split; [done|]. exists (a ++ pre'), src, dst. by rewrite app_assoc.
Qed.

Lemma Forall_not_in (P : Event -> bool) (evs pre post : list Event) x :
  Forall (fun e => P e = true) evs -> evs = pre ++ x :: post -> P x = true.
Proof.
  intros Hf ->. rewrite Forall_app, Forall_cons in Hf. tauto.
Qed.

Lemma discipline_ordinary evs :
  Forall (fun e => ordinary e = true) evs -> temp_dir_discipline evs.
Proof.
  intros Hf. split; [intros pre ? ? ? Heq|intros pre ? ? Heq];
    by pose proof (Forall_not_in _ _ _ _ _ Hf Heq).
Qed.

Lemma discipline_download d evs :
  env_mkdtemp env = Some d ->
  Forall (fun e => ordinary_or_ydl e = true) evs ->
  temp_dir_discipline (EMkdtemp d :: evs).
Proof.
  intros Hd Hf. split.
  - intros pre url opts post Heq. destruct pre as [|e pre]; [done|].
    injection Heq as <- _. exists d. apply list_elem_of_here.
  - intros pre d' post Heq. destruct pre as [|e pre]; [done|].
    injection Heq as _ Heq.
    by pose proof (Forall_not_in _ _ _ _ _ Hf Heq).
Qed.

Lemma discipline_placed src dst d :
  env_mkdtemp env = Some d ->
  temp_dir_discipline [EMove src dst; ERmtree d].
Proof.
  intros Hd. split.
  - intros pre url opts post Heq.
    destruct pre as [|? [|? [|? pre]]]; by simplify_eq/=.
  - intros pre d' post Heq.
    destruct pre as [|? [|? [|? pre]]]; simplify_eq/=.
    split; [done|]. by exists [], src, dst.
Qed.

Lemma run_discipline args w :
  extends temp_dir_discipline w (snd (run env args w)).
Proof.
  apply (run_shape env args temp_dir_discipline).
  - apply discipline_ordinary.
  - intros _. apply discipline_download.
  - intros _. apply discipline_placed.
Qed.

Lemma download_raises opts url d :
  raises (fun e => is_Exception e = true) (download env opts url d).
Proof.
  intros w e. unfold download, mkdir, ydl_extract. mrun.
  repeat case_match; simplify_eq; simpl; try done; by intros [= <-].
Qed.

Definition not_rmtree (e : Event) : bool :=
  match e with ERmtree _ => false | _ => true end.

Lemma bind_ok {A B} (c : M A) (k : A -> M B) w a w' :
  c w = (Ok a, w') -> bind c k w = k a w'.
Proof. unfold bind. by intros ->. Qed.

Lemma bind_raise {A B} (c : M A) (k : A -> M B) w e w' :
  c w = (Raise e, w') -> bind c k w = (Raise e, w').
Proof. unfold bind. by intros ->. Qed.

(** What [main] makes of an exception of the pipeline. *)
Lemma run_of_raise args w e w' :
  pipeline env args w = (Raise e, w') -> clean_exit e ->
  fst (run env args w) = 1%Z
  /\ grows (fun e => is_log e = true) w' (snd (run env args w)).
Proof.
  intros Hp He. rewrite run_status, Hp. unfold run, main, try_except2. rewrite Hp.
  destruct He as [->|He].
  - split; [done|]. simpl. by apply grows_silent.
  - destruct e; try done; (split; [done|]); simpl;
      (eexists [_]; split; [done|by repeat constructor]).
Qed.

(** When the download raises, the pipeline stops in step 1 and nothing has
    been removed. *)
Lemma pipeline_failed_download args w config w1 d w2 e w3 :
  is_url (input args) = true ->
  configure env args w = (Ok config, w1) ->
  mkdtemp env w1 = (Ok d, w2) ->
  download env (Downloader config) (input args) d w2 = (Raise e, w3) ->
  exists e' w4,
    pipeline env args w = (Raise e', w4) /\ clean_exit e'
    /\ grows (fun e => not_rmtree e = true) w w4.
Proof.
  intros Hurl Hc Hm Hdl.
  pose proof (download_raises (Downloader config) (input args) d w2 e) as He.
  rewrite Hdl in He. specialize (He eq_refl).
  assert (grows (fun e => not_rmtree e = true) w w1) as Hg1.
  { pose proof (configure_grows env args w) as Hg. rewrite Hc in Hg.
    eapply grows_mono; [|exact Hg]. by intros []. }
  assert (grows (fun e => not_rmtree e = true) w w3) as Hg3.
  { transitivity w1; [done|]. transitivity w2.
    { unfold mkdtemp in Hm. destruct (env_mkdtemp env); [|done].
      injection Hm as <- <-. eexists [_]. split; [done|]. by repeat constructor. }
    pose proof (download_grows env (Downloader config) (input args) d w2) as Hg.
    rewrite Hdl in Hg. eapply grows_mono; [|exact Hg]. by intros []. }
  unfold pipeline. rewrite (bind_ok _ _ _ _ _ Hc).
  unfold getitem.
  destruct (dict_get config (u "whisper_url"));
    [|eexists _, w1; split; [reflexivity|split; [by right|done]]].
  destruct (dict_get config (u "ollama_url"));
    [|eexists _, w1; split; [reflexivity|split; [by right|done]]].
  destruct (dict_get config (u "summarize_model"));
    [|eexists _, w1; split; [reflexivity|split; [by right|done]]].
  change (exists e' w4,
    bind (step1_input_handling env (Downloader config) (input args))
         (fun acquired =>
            let '(temp_download_dir, audio_path, original_filename) := acquired in
            placed <- step2_workspace env config temp_download_dir audio_path
                        original_filename ;;
            let '(slug_base, slug_dir, final_audio_path) := placed in
            transcript_path <- step3_transcription env j final_audio_path ;;
            summary_path <- step4_summarization env args (mkSummarizer j0 j1)
                              slug_dir slug_base transcript_path original_filename ;;
            report args slug_dir final_audio_path transcript_path summary_path) w1
    = (Raise e', w4) /\ clean_exit e' /\ grows (fun e => not_rmtree e = true) w w4).
  assert (exists w4,
    step1_input_handling env (Downloader config) (input args) w1
    = (Raise (SystemExit 1), w4) /\ grows (fun e => not_rmtree e = true) w3 w4)
    as (w4 & Hs1 & Hg4).
  { unfold step1_input_handling. rewrite Hurl. unfold try_except.
    rewrite (bind_ok _ _ _ _ _ Hm), (bind_raise _ _ _ _ _ Hdl), He.
    unfold notify. mrun.
    destruct (env_notify_ok env _ _); eexists; (split; [reflexivity|]); simpl;
      (eexists [_; _]; rewrite <- app_assoc; split; [done|by repeat constructor]). }
  exists (SystemExit 1), w4. rewrite (bind_raise _ _ _ _ _ Hs1).
  split; [done|]. split; [by left|]. by transitivity w3.
Qed.


End TempDir.

Definition failing_download_env : Env := {|
  env_cwd := p "/home/user";
  env_home := p "/home/user";
  env_which := fun _ => true;
  env_resolve := fun s => path_of_str (u "/home/user/" ++ s);
  env_mkdtemp := Some (p "/tmp/tmpabc");
  env_notify_ok := fun _ _ => true;
  env_ydl := YdlRaise (u "ERROR: Unsupported URL");
  env_ffmpeg := mkFfmpeg 0 (Some [82; 73; 70; 70]);
  env_whisper := HttpError (u "unreachable");
  env_ollama := HttpError (u "unreachable");
  env_gemini := mkProc 0 [] [];
|}.


Example failed_download_leaves_temp_dir :
  is_dir failing_download_env
    (snd (run failing_download_env (mkArgs (u "https://x.y/v") false false)
              sample_world))
    (p "/tmp/tmpabc") = true.
Proof. vm_compute. reflexivity. Qed.

(** ** The file system *)

Section Files.
Context `{PyLib} (env : Env).

Lemma path_eqb_eq a b : path_eqb a b = true <-> a = b.
Proof. unfold path_eqb. apply bool_decide_eq_true. Qed.

Lemma path_eqb_refl a : path_eqb a a = true.
Proof. by apply path_eqb_eq. Qed.

Lemma path_eqb_neq a b : a <> b -> path_eqb a b = false.
Proof. intros. unfold path_eqb. by apply bool_decide_eq_false. Qed.

Lemma lookup_remove_eq fs a : lookup_file (remove_file fs a) a = None.
Proof.
  induction fs as [|[b f] fs IH]; simpl; [done|].
  destruct (path_eqb b a) eqn:E; simpl; [done|]. by rewrite E.
Qed.

Lemma lookup_remove_ne fs a b :
  a <> b -> lookup_file (remove_file fs a) b = lookup_file fs b.
Proof.
  intros Hne. induction fs as [|[c f] fs IH]; simpl; [done|].
  destruct (path_eqb c a) eqn:E; simpl.
  - apply path_eqb_eq in E as ->. by rewrite path_eqb_neq.
  - by rewrite IH.
Qed.

Lemma lookup_app fs1 fs2 a :
  lookup_file (fs1 ++ fs2) a
  = match lookup_file fs1 a with Some f => Some f | None => lookup_file fs2 a end.
Proof.
  induction fs1 as [|[b f] fs1 IH]; simpl; [done|]. by destruct (path_eqb b a).
Qed.

Lemma lookup_store_eq fs a f : lookup_file (store_file fs a f) a = Some f.
Proof.
  unfold store_file. destruct (lookup_file fs a) as [f0|] eqn:E.
  - induction fs as [|[b g] fs IH]; simpl in *; [done|].
    destruct (path_eqb b a) eqn:Eb; simpl.
    + by rewrite path_eqb_refl.
    + rewrite Eb. by apply IH.
  - rewrite lookup_app, E. simpl. by rewrite path_eqb_refl.
Qed.

Lemma lookup_store_ne fs a b f :
  a <> b -> lookup_file (store_file fs a f) b = lookup_file fs b.
Proof.
  intros Hne. unfold store_file. destruct (lookup_file fs a) as [f0|] eqn:E.
  - clear E. induction fs as [|[c g] fs IH]; simpl in *; [done|].
    destruct (path_eqb c a) eqn:Ec; simpl.
    + apply path_eqb_eq in Ec as ->. by rewrite !path_eqb_neq.
    + by rewrite IH.
  - rewrite lookup_app. simpl. rewrite path_eqb_neq by done.
    by destruct (lookup_file fs b).
Qed.

End Files.

(** ** Cleanup of the intermediate waveform *)

Section Cleanup.
Context `{PyLib} (env : Env).

(** The [finally] block of [transcribe]. *)
Definition wav_cleanup (wav_path audio_path : Path) : M unit :=
  found <- exists_ env wav_path ;;
  when (found && negb (path_eqb wav_path audio_path)) (unlink env wav_path).

Lemma wav_cleanup_removes wav_path audio_path w :
  wav_path <> audio_path ->
  is_file env (snd (wav_cleanup wav_path audio_path w)) wav_path = false.
Proof.
  intros Hne. unfold wav_cleanup, when, unlink. mrun.
  rewrite (path_eqb_neq _ _ Hne). simpl. rewrite andb_true_r.
  unfold is_file.
  destruct (lookup_file (files w) (abspath env wav_path)) as [f|] eqn:E; simpl.
  - rewrite E. simpl. by rewrite lookup_remove_eq.
  - destruct (is_dir env w wav_path) eqn:Ed; simpl; rewrite ?E, ?Ed; simpl;
      by rewrite ?E.
Qed.

Lemma try_finally_world {A} (body : M A) cleanup w :
  snd (try_finally body cleanup w) = snd (cleanup (snd (body w))).
Proof.
  unfold try_finally. destruct (body w) as [r w1]. simpl.
  by destruct (cleanup w1) as [[[]|e] w2].
Qed.

(** Whatever the guarded block did, the waveform is gone after the
    [finally] block when its path differs from the input. *)
Lemma finally_removes_wav {A} (body : M A) wav_path audio_path w :
  wav_path <> audio_path ->
  is_file env (snd (try_finally body (wav_cleanup wav_path audio_path) w)) wav_path
  = false.
Proof.
  intros Hne. rewrite try_finally_world. by apply wav_cleanup_removes.
Qed.

(** And it is never unlinked when the two paths are equal. *)
Lemma finally_keeps_input {A} (body : M A) audio_path w :
  snd (try_finally body (wav_cleanup audio_path audio_path) w) = snd (body w).
Proof.
  rewrite try_finally_world.
  unfold wav_cleanup, when. mrun. by rewrite path_eqb_refl, andb_false_r.
Qed.

(** Once the conversion has returned, the waveform is removed on every way
    out of [transcribe]: after a successful transcription, and after a
    failure of the upload or of the service. *)
Lemma transcribe_removes_wav url audio_path wav_path w w1 :
  _convert_to_wav_16k env audio_path w = (Ok wav_path, w1) ->
  wav_path <> audio_path ->
  is_file env (snd (transcribe env url audio_path w)) wav_path = false.
Proof.
  intros Hc Hne. unfold transcribe. rewrite (bind_ok _ _ _ _ _ Hc).
  unfold bind at 1, logging, emit.
  by apply (finally_removes_wav _ wav_path audio_path).
Qed.

(** C3: a transcoder that leaves its output file and exits with a non-zero
    status makes [transcribe] raise before the [try] block is entered: the
    waveform, although created and different from the input, is still
    there afterwards. *)
Theorem failed_transcode_leaves_wav url audio_path wav_path b w :
  with_suffix audio_path (u ".wav") = Some wav_path ->
  env_which env (u "ffmpeg") = true ->
  ff_written (env_ffmpeg env) = Some b ->
  ff_returncode (env_ffmpeg env) <> 0%Z ->
  exists w',
    transcribe env url audio_path w
    = (Raise (CalledProcessError (ff_returncode (env_ffmpeg env)) []), w')
    /\ option_map data (lookup_file (files w') (abspath env wav_path)) = Some b.
Proof.
  intros Hs Hw Hb Hrc. unfold transcribe, _convert_to_wav_16k. mrun.
  rewrite Hs, Hw, Hb. unfold put_file. simpl.
  apply Z.eqb_neq in Hrc. rewrite Hrc. simpl.
  eexists. split; [done|]. simpl. by rewrite lookup_store_eq.
Qed.

End Cleanup.

Definition failing_ffmpeg_env : Env := {|
  env_cwd := p "/home/user";
  env_home := p "/home/user";
  env_which := fun _ => true;
  env_resolve := fun s => path_of_str (u "/home/user/" ++ s);
  env_mkdtemp := Some (p "/tmp/tmpabc");
  env_notify_ok := fun _ _ => true;
  env_ydl := YdlRaise [];
  env_ffmpeg := mkFfmpeg 1 (Some [82; 73; 70; 70]);
  env_whisper := HttpError (u "unreachable");
  env_ollama := HttpError (u "unreachable");
  env_gemini := mkProc 0 [] [];
|}.

Lemma failed_transcode_leaves_wav_witness :
  p "/home/user/talk.wav" <> p "/home/user/talk.mp3"
  /\ exists w',
       transcribe failing_ffmpeg_env (JStr (u "http://whisper/inference"))
                  (p "/home/user/talk.mp3") sample_world
       = (Raise (CalledProcessError 1 []), w')
       /\ option_map data (lookup_file (files w') (p "/home/user/talk.wav"))
          = Some [82; 73; 70; 70].
Proof.
  split; [discriminate|].
  apply (failed_transcode_leaves_wav failing_ffmpeg_env
           (JStr (u "http://whisper/inference")) (p "/home/user/talk.mp3")
           (p "/home/user/talk.wav") [82; 73; 70; 70] sample_world);
    [reflexivity|reflexivity|reflexivity|discriminate].
Defined.

(** ** The final report *)

Definition is_print (e : Event) : bool :=
  match e with EPrint _ => true | _ => false end.

Definition is_notify (e : Event) : bool :=
  match e with ENotify _ _ => true | _ => false end.

(** C1: the summarization service is unreachable.  The run ends with
    status 0, the failure is notified, the transcript is in the workspace
    and no summary file is written; the report nevertheless lists the
    summary line, after the audio and transcript lines. *)
Theorem failed_summary_is_still_reported :
  let r := run sample_env (mkArgs (u "talk.mp3") false false) sample_world in
  fst r = 0%Z
  /\ List.filter is_notify (trace (snd r))
     = [ENotify (u "Summarization Failed") (u "connection refused")]
  /\ is_file sample_env (snd r) (p "output/talk/talk.txt") = true
  /\ is_file sample_env (snd r) (p "output/talk/talk_summary.md") = false
  /\ List.filter is_print (trace (snd r))
     = [ EPrint (10 :: banner); EPrint (u "SUCCESS"); EPrint banner;
         EPrint (u "Workspace: output/talk");
         EPrint (u " - Audio:      talk.mp3");
         EPrint (u " - Transcript: talk.txt");
         EPrint (u " - Summary:    talk_summary.md");
         EPrint banner ].
Proof. vm_compute. done. Qed.

(** Whenever a summary was requested and the run gets as far as the
    report, the summary line is printed: step 4 binds [summary_path] before
    it calls the summarizer and swallows every exception of the call. *)
Lemma step4_binds_summary_path `{PyLib} env args summarizer slug_dir slug_base
    transcript_path nm w :
  no_summary args = false ->
  fst (step4_summarization env args summarizer slug_dir slug_base transcript_path nm w)
  = Ok (Some (path_div slug_dir (slug_base ++ u "_summary.md")))
  \/ exists e, fst (step4_summarization env args summarizer slug_dir slug_base
                      transcript_path nm w) = Raise e
               /\ is_Exception e = false.
Proof.
  intros Hn. unfold step4_summarization. rewrite Hn. cbv [negb].
  set (c := bind (summarize _ _ _ _) _).
  unfold bind, try_except, ret.
  destruct (c w) as [[[]|e] w1]; [by left|].
  destruct (is_Exception e) eqn:He.
  - left. unfold notify, logging, emit.
    by destruct (env_notify_ok env _ _).
  - right. by exists e.
Qed.

(** ** Dispatch of the summarizer *)

Definition is_post (e : Event) : bool :=
  match e with EPost _ _ => true | _ => false end.

Definition is_run (e : Event) : bool :=
  match e with ERun _ _ => true | _ => false end.

(** Neither a call of [requests.post] nor of [subprocess.run]. *)
Definition offline (e : Event) : Prop := is_post e = false /\ is_run e = false.

Lemma filter_offline evs :
  Forall offline evs ->
  List.filter is_post evs = [] /\ List.filter is_run evs = [].
Proof.
  induction 1 as [|e evs [Hp Hr] _ [IHp IHr]]; simpl; [done|].
  by rewrite Hp, Hr.
Qed.

Lemma try_except_after_emit {A} e (k : unit -> M A) catches handler w :
  keeps (grows offline) (try_except (k tt) catches handler) ->
  exists evs,
    trace (snd (try_except (bind (emit e) k) catches handler w)) = trace w ++ e :: evs
    /\ Forall offline evs.
Proof.
  intros Hk. destruct (Hk (snd (emit e w))) as (evs & Ht & Hf).
  exists evs. split; [|done].
  change (try_except (bind (emit e) k) catches handler w)
    with (try_except (k tt) catches handler (snd (emit e w))).
  rewrite Ht. simpl. by rewrite <- app_assoc.
Qed.

Lemma try_except_after_emit2 {A B} e (k1 : unit -> M A) (k2 : A -> M B)
    catches handler w :
  keeps (grows offline) (try_except (bind (k1 tt) k2) catches handler) ->
  exists evs,
    trace (snd (try_except (bind (bind (emit e) k1) k2) catches handler w))
    = trace w ++ e :: evs
    /\ Forall offline evs.
Proof.
  intros Hk. destruct (Hk (snd (emit e w))) as (evs & Ht & Hf).
  exists evs. split; [|done].
  change (try_except (bind (bind (emit e) k1) k2) catches handler w)
    with (try_except (bind (k1 tt) k2) catches handler (snd (emit e w))).
  rewrite Ht. simpl. by rewrite <- app_assoc.
Qed.

Section Dispatch.
Context `{PyLib} (env : Env).

(** The prompt and the body of the HTTP strategy. *)
Definition ollama_prompt (transcript_text : str) : str :=
  SYSTEM_PROMPT ++ [10; 10] ++ u "Transcript:" ++ [10] ++ transcript_text.

Definition ollama_payload (m : json) (transcript_text : str) : json :=
  JObj [ (u "model", m);
         (u "prompt", JStr (ollama_prompt transcript_text));
         (u "stream", JBool false) ].

Definition gemini_command : list str := [u "gemini"; u "-p"; SYSTEM_PROMPT].

Lemma gemini_events self text output_path w :
  env_which env (u "gemini") = true ->
  exists evs,
    trace (snd (_summarize_gemini env self text output_path w))
    = trace w ++ ERun gemini_command (Some text) :: evs
    /\ Forall offline evs.
Proof.
  intros Hw. unfold _summarize_gemini. rewrite Hw.
  unfold bind at 1, ret.
  apply try_except_after_emit. grows_auto.
Qed.

Lemma gemini_missing self text output_path w :
  env_which env (u "gemini") = false ->
  snd (_summarize_gemini env self text output_path w) = w.
Proof. intros Hw. unfold _summarize_gemini. by rewrite Hw. Qed.

Lemma ollama_events self text output_path w :
  exists evs,
    trace (snd (_summarize_ollama env self text output_path w))
    = trace w ++ EPost (server_url self) (JsonBody (ollama_payload (model self) text))
                 :: evs
    /\ Forall offline evs.
Proof.
  unfold _summarize_ollama, post_json.
  apply try_except_after_emit2. unfold py_get. grows_auto.
Qed.


End Dispatch.

Definition no_gemini_env : Env := {|
  env_cwd := p "/home/user";
  env_home := p "/home/user";
  env_which := fun tool => negb (str_eqb tool (u "gemini"));
  env_resolve := fun s => path_of_str (u "/home/user/" ++ s);
  env_mkdtemp := Some (p "/tmp/tmpabc");
  env_notify_ok := fun _ _ => true;
  env_ydl := YdlRaise [];
  env_ffmpeg := mkFfmpeg 0 (Some [82; 73; 70; 70]);
  env_whisper := HttpError (u "unreachable");
  env_ollama := HttpError (u "unreachable");
  env_gemini := mkProc 0 (u "# Summary") [];
|}.

Definition transcript_world : World :=
  mkWorld [(p "/home/user/output/talk/talk.txt", mkFile (u "hello world") 7)]
          [p "/home/user"; p "/home/user/output/talk"] 100 [].



(** ** The UTF-8 codec: decoding undoes encoding *)

(** Linear arithmetic over [N] with division and remainder by constants. *)
Ltac nlia := Zify.zify; Z.to_euclidean_division_equations; lia.

Lemma utf8_decode_encode_char c b rest :
  utf8_encode_char c = Some b ->
  utf8_decode (b ++ rest) = option_map (cons c) (utf8_decode rest).
Proof.
  unfold utf8_encode_char, is_surrogate.
  destruct (c <? 128) eqn:E1.
  { intros [= <-]. simpl. by rewrite E1. }
  apply N.ltb_ge in E1.
  destruct (c <? 2048) eqn:E2.
  { apply N.ltb_lt in E2. intros [= <-].
    cbn [app utf8_decode].
    assert ((192 + c / 64 <? 128) = false) as -> by (apply N.ltb_ge; nlia).
    assert ((192 + c / 64 <? 194) = false) as -> by (apply N.ltb_ge; nlia).
    assert ((192 + c / 64 <? 224) = true) as -> by (apply N.ltb_lt; nlia).
    unfold is_cont.
    assert ((128 <=? 128 + c mod 64) = true) as -> by (apply N.leb_le; nlia).
    assert ((128 + c mod 64 <=? 191) = true) as -> by (apply N.leb_le; nlia).
    cbn [andb]. do 2 f_equal. nlia. }
  apply N.ltb_ge in E2.
  destruct (c <? 65536) eqn:E3.
  { apply N.ltb_lt in E3.
    destruct ((55296 <=? c) && (c <=? 57343)) eqn:Es; [done|].
    intros [= <-]. cbn [app utf8_decode].
    assert ((224 + c / 4096 <? 128) = false) as -> by (apply N.ltb_ge; nlia).
    assert ((224 + c / 4096 <? 194) = false) as -> by (apply N.ltb_ge; nlia).
    assert ((224 + c / 4096 <? 224) = false) as -> by (apply N.ltb_ge; nlia).
    assert ((224 + c / 4096 <? 240) = true) as -> by (apply N.ltb_lt; nlia).
    assert ((224 + c / 4096 - 224) * 4096 + (128 + (c / 64) mod 64 - 128) * 64
            + (128 + c mod 64 - 128) = c) as -> by nlia.
    unfold is_cont, is_surrogate.
    assert ((128 <=? 128 + (c / 64) mod 64) = true) as -> by (apply N.leb_le; nlia).
    assert ((128 + (c / 64) mod 64 <=? 191) = true) as -> by (apply N.leb_le; nlia).
    assert ((128 <=? 128 + c mod 64) = true) as -> by (apply N.leb_le; nlia).
    assert ((128 + c mod 64 <=? 191) = true) as -> by (apply N.leb_le; nlia).
    assert ((2048 <=? c) = true) as -> by (apply N.leb_le; nlia).
    by rewrite Es. }
  apply N.ltb_ge in E3.
  destruct (c <? 1114112) eqn:E4; [|done].
  apply N.ltb_lt in E4. intros [= <-]. cbn [app utf8_decode].
  assert ((240 + c / 262144 <? 128) = false) as -> by (apply N.ltb_ge; nlia).
  assert ((240 + c / 262144 <? 194) = false) as -> by (apply N.ltb_ge; nlia).
  assert ((240 + c / 262144 <? 224) = false) as -> by (apply N.ltb_ge; nlia).
  assert ((240 + c / 262144 <? 240) = false) as -> by (apply N.ltb_ge; nlia).
  assert ((240 + c / 262144 <? 245) = true) as -> by (apply N.ltb_lt; nlia).
  assert ((240 + c / 262144 - 240) * 262144 + (128 + (c / 4096) mod 64 - 128) * 4096
          + (128 + (c / 64) mod 64 - 128) * 64 + (128 + c mod 64 - 128) = c)
    as -> by nlia.
  unfold is_cont.
  assert ((128 <=? 128 + (c / 4096) mod 64) = true) as -> by (apply N.leb_le; nlia).
  assert ((128 + (c / 4096) mod 64 <=? 191) = true) as -> by (apply N.leb_le; nlia).
  assert ((128 <=? 128 + (c / 64) mod 64) = true) as -> by (apply N.leb_le; nlia).
  assert ((128 + (c / 64) mod 64 <=? 191) = true) as -> by (apply N.leb_le; nlia).
  assert ((128 <=? 128 + c mod 64) = true) as -> by (apply N.leb_le; nlia).
  assert ((128 + c mod 64 <=? 191) = true) as -> by (apply N.leb_le; nlia).
  assert ((65536 <=? c) = true) as -> by (apply N.leb_le; nlia).
  by assert ((c <? 1114112) = true) as -> by (apply N.ltb_lt; nlia).
Qed.

Lemma utf8_decode_encode s b :
  utf8_encode s = Some b -> utf8_decode b = Some s.
Proof.
  revert b. induction s as [|c s IH]; intros b; simpl.
  - by intros [= <-].
  - destruct (utf8_encode_char c) as [bc|] eqn:Ec; [|done].
    destruct (utf8_encode s) as [bs|] eqn:Es; [|done].
    intros [= <-]. rewrite (utf8_decode_encode_char _ _ _ Ec).
    by rewrite (IH _ eq_refl).
Qed.

(** ** JSON text: reading back what [json.dumps] wrote *)

(** *** Strings *)

Lemma scanstring_escape_char c rest :
  scanstring (escape_char c ++ rest) = push c (scanstring rest).
Proof.
  destruct (c <? 32) eqn:E.
  - apply N.ltb_lt in E.
    destruct c as [|x]; [reflexivity|].
    repeat match goal with
           | x : positive |- _ => destruct x; try (exfalso; lia)
           end; reflexivity.
  - apply N.ltb_ge in E. unfold escape_char.
    destruct (c =? 34) eqn:E34; [apply N.eqb_eq in E34 as ->; reflexivity|].
    destruct (c =? 92) eqn:E92; [apply N.eqb_eq in E92 as ->; reflexivity|].
    assert ((c =? 10) = false) as -> by (apply N.eqb_neq; lia).
    assert ((c =? 13) = false) as -> by (apply N.eqb_neq; lia).
    assert ((c =? 9) = false) as -> by (apply N.eqb_neq; lia).
    assert ((c =? 8) = false) as -> by (apply N.eqb_neq; lia).
    assert ((c =? 12) = false) as -> by (apply N.eqb_neq; lia).
    assert ((c <? 32) = false) as -> by (apply N.ltb_ge; lia).
    cbn [app scanstring]. rewrite E34, E92.
    by assert ((c <? 32) = false) as -> by (apply N.ltb_ge; lia).
Qed.

Lemma scanstring_encode s rest :
  scanstring (concat (map escape_char s) ++ 34 :: rest) = Some (s, rest).
Proof.
  induction s as [|c s IH]; [reflexivity|].
  cbn [map concat]. rewrite <- app_assoc, scanstring_escape_char. by rewrite IH.
Qed.

Lemma encode_basestring_head s :
  exists t, encode_basestring s = 34 :: t.
Proof. by eexists. Qed.

(** *** Numbers *)

(** What follows a value in the text of [json.dumps]: nothing, a comma, or
    the line feed before a closing bracket. *)
Definition stops (rest : str) : Prop :=
  match rest with
  | [] => True
  | c :: _ => c = 44 \/ c = 10
  end.

Lemma uint_of_to_str d : uint_of_str (uint_to_str d) = d.
Proof. induction d; simpl; by rewrite ?IHd. Qed.

Lemma take_digits_stops rest : stops rest -> take_digits rest = ([], rest).
Proof. destruct rest as [|c rest]; [done|]. by intros [->| ->]. Qed.

Lemma take_digits_uint d rest :
  stops rest -> take_digits (uint_to_str d ++ rest) = (uint_to_str d, rest).
Proof.
  intros Hr. induction d; simpl; rewrite ?IHd; try done.
  by apply take_digits_stops.
Qed.

(** The numeral of a number has no leading zero. *)
Lemma to_uint_shape n :
  N.to_uint n = Decimal.D0 Decimal.Nil
  \/ (N.to_uint n <> Decimal.Nil /\ forall d, N.to_uint n <> Decimal.D0 d).
Proof.
  pose proof (DecimalN.Unsigned.to_of (N.to_uint n)) as Hn.
  rewrite DecimalN.Unsigned.of_to in Hn. rewrite Hn.
  unfold Decimal.unorm.
  destruct (Decimal.nzhead (N.to_uint n)) eqn:E; try (right; split; done).
  - by left.
  - by destruct (DecimalFacts.nzhead_nonzero _ _ E).
Qed.

Lemma match_integer_uint d rest :
  d = Decimal.D0 Decimal.Nil \/ (d <> Decimal.Nil /\ forall d', d <> Decimal.D0 d') ->
  stops rest ->
  match_integer (uint_to_str d ++ rest) = Some (uint_to_str d, rest)
  /\ match_integer (45 :: uint_to_str d ++ rest) = Some (45 :: uint_to_str d, rest).
Proof.
  intros [->|[Hnil Hz]] Hr; [done|].
  destruct d; try done; try (by destruct (Hz d));
    unfold match_integer; simpl; by rewrite take_digits_uint.
Qed.

Lemma match_frac_stops rest : stops rest -> match_frac rest = ([], rest).
Proof. destruct rest as [|c rest]; [done|]. by intros [->| ->]. Qed.

Lemma match_exp_stops rest : stops rest -> match_exp rest = ([], rest).
Proof. destruct rest as [|c rest]; [done|]. by intros [->| ->]. Qed.

Lemma N_of_to_str n : N.of_uint (uint_of_str (N_to_str n)) = n.
Proof. unfold N_to_str. by rewrite uint_of_to_str, DecimalN.Unsigned.of_to. Qed.

Lemma uint_to_str_head d c t :
  uint_to_str d = c :: t -> is_digit c = true.
Proof. destruct d; simpl; try done; by intros [= <- _]. Qed.

Lemma Z_of_to_str z : Z_of_str (Z_to_str z) = z.
Proof.
  destruct z as [|x|x]; unfold Z_of_str, Z_to_str.
  - reflexivity.
  - destruct (N_to_str (N.pos x)) as [|c t] eqn:E.
    + pose proof (N_of_to_str (N.pos x)) as Hn. by rewrite E in Hn.
    + pose proof (uint_to_str_head _ _ _ E) as Hd.
      assert ((c =? ch "-") = false) as ->.
      { apply N.eqb_neq. intros ->. done. }
      rewrite <- E, N_of_to_str. done.
  - change (ch "-" =? ch "-") with true. cbv iota.
    by rewrite N_of_to_str.
Qed.

Section Numbers.
Context `{PyLib}.

Lemma scan_number_int z rest :
  stops rest -> scan_number (Z_to_str z ++ rest) = Some (JInt z, rest).
Proof.
  intros Hr. unfold scan_number.
  assert (match_integer (Z_to_str z ++ rest) = Some (Z_to_str z, rest)) as ->.
  { destruct z as [|x|x]; unfold Z_to_str, N_to_str.
    - by apply match_integer_uint; [left|].
    - by apply match_integer_uint; [apply to_uint_shape|].
    - by apply (match_integer_uint (N.to_uint (N.pos x))); [apply to_uint_shape|]. }
  rewrite match_frac_stops, match_exp_stops by done.
  by rewrite Z_of_to_str.
Qed.

(** The text is a float literal: it matches [NUMBER_RE] as a whole, with a
    fraction or an exponent. *)
Definition float_literal (tok : str) : bool :=
  match match_integer tok with
  | None => false
  | Some (integer, r) =>
      let '(frac, r1) := match_frac r in
      let '(exp, r2) := match_exp r1 in
      str_eqb r2 [] && negb (str_eqb frac [] && str_eqb exp [])
  end.

(** What the round trip needs of [float.__repr__] and [float] on one
    finite float. *)
Definition float_ok (f : spec_float) : Prop :=
  match f with
  | S754_nan | S754_infinity _ => True
  | _ => float_literal (float_repr f) = true
         /\ float_of_literal (float_repr f) = f
  end.

End Numbers.

Lemma take_digits_app s d r rest :
  take_digits s = (d, r) -> stops rest ->
  take_digits (s ++ rest) = (d, r ++ rest) /\ s = d ++ r.
Proof.
  revert d r. induction s as [|c s IH]; intros d r; simpl.
  - intros [= <- <-] Hr. by rewrite take_digits_stops.
  - destruct (is_digit c).
    + destruct (take_digits s) as [d' r'] eqn:E. intros [= <- <-] Hr.
      destruct (IH _ _ eq_refl Hr) as [-> ->]. done.
    + by intros [= <- <-].
Qed.

Lemma match_integer_app s i r rest :
  match_integer s = Some (i, r) -> stops rest ->
  match_integer (s ++ rest) = Some (i, r ++ rest) /\ s = i ++ r.
Proof.
  unfold match_integer. intros Hm Hr.
  destruct s as [|c s]; [done|]. simpl in *.
  destruct (c =? 45) eqn:Ec.
  - apply N.eqb_eq in Ec as ->.
    destruct s as [|c' s]; [done|]. simpl in *.
    destruct (c' =? 48) eqn:E0; [apply N.eqb_eq in E0 as ->; by simplify_eq|].
    destruct (is_digit c'); [|done].
    destruct (take_digits s) as [d r'] eqn:E. simplify_eq.
    by destruct (take_digits_app _ _ _ _ E Hr) as [-> ->].
  - destruct (c =? 48) eqn:E0; [apply N.eqb_eq in E0 as ->; by simplify_eq|].
    destruct (is_digit c); [|done].
    destruct (take_digits s) as [d r'] eqn:E. simplify_eq.
    by destruct (take_digits_app _ _ _ _ E Hr) as [-> ->].
Qed.

Lemma match_frac_app s f r rest :
  match_frac s = (f, r) -> stops rest ->
  match_frac (s ++ rest) = (f, r ++ rest) /\ s = f ++ r.
Proof.
  unfold match_frac. intros Hm Hr.
  destruct s as [|c s]; simpl in *.
  - simplify_eq. split; [|done]. by apply match_frac_stops.
  - destruct (c =? 46) eqn:Ec; [apply N.eqb_eq in Ec as ->|by simplify_eq].
    destruct (take_digits s) as [d r'] eqn:E.
    destruct (take_digits_app _ _ _ _ E Hr) as [-> ->].
    destruct d; by simplify_eq.
Qed.

Lemma match_exp_app s e r rest :
  match_exp s = (e, r) -> stops rest ->
  match_exp (s ++ rest) = (e, r ++ rest) /\ s = e ++ r.
Proof.
  unfold match_exp. intros Hm Hr.
  destruct s as [|c s]; simpl in *.
  - simplify_eq. split; [|done]. by apply match_exp_stops.
  - destruct ((c =? 101) || (c =? 69)); [|by simplify_eq].
    destruct s as [|c' s]; simpl in *.
    + simplify_eq. destruct rest as [|c0 rest]; [done|].
      by destruct Hr as [->| ->].
    + destruct ((c' =? 45) || (c' =? 43)).
      * destruct (take_digits s) as [d r'] eqn:E.
        destruct (take_digits_app _ _ _ _ E Hr) as [-> ->].
        destruct d; by simplify_eq.
      * destruct (take_digits (c' :: s)) as [d r'] eqn:E.
        destruct (take_digits_app _ _ _ _ E Hr) as [Ht Hs].
        change ((c' :: s) ++ rest) with (c' :: s ++ rest) in Ht.
        rewrite Ht. simpl in Hs.
        destruct d; simplify_eq; simpl; (split; [done|]); by rewrite ?Hs.
Qed.

Section Floats.
Context `{PyLib}.

Lemma scan_number_float tok rest :
  float_literal tok = true -> stops rest ->
  scan_number (tok ++ rest) = Some (JFloat (float_of_literal tok), rest).
Proof.
  unfold float_literal, scan_number. intros Hl Hr.
  destruct (match_integer tok) as [[i r]|] eqn:Ei; [|done].
  destruct (match_frac r) as [f r1] eqn:Ef.
  destruct (match_exp r1) as [e r2] eqn:Ee.
  apply andb_true_iff in Hl as [Hr2 Hfe]. apply str_eqb_eq in Hr2 as ->.
  destruct (match_integer_app _ _ _ _ Ei Hr) as [-> ->].
  destruct (match_frac_app _ _ _ _ Ef Hr) as [-> ->].
  destruct (match_exp_app _ _ _ _ Ee Hr) as [-> ->].
  rewrite app_nil_r. simpl.
  destruct f, e; try done.
Qed.

(** A float literal starts with a digit or a minus sign. *)
Lemma float_literal_head tok :
  float_literal tok = true ->
  exists c t, tok = c :: t /\ (is_digit c = true \/ c = 45).
Proof.
  unfold float_literal, match_integer. intros Hl.
  destruct tok as [|c t]; [done|]. exists c, t. split; [done|].
  destruct (c =? 45) eqn:E; [right; by apply N.eqb_eq|]. left.
  destruct (c =? 48) eqn:E0; [by apply N.eqb_eq in E0 as ->|].
  by destruct (is_digit c).
Qed.

End Floats.

(** *** Values *)

Section JsonInduction.
Context (P : json -> Prop).
Hypothesis Hnull : P JNull.
Hypothesis Hbool : forall b, P (JBool b).
Hypothesis Hint : forall z, P (JInt z).
Hypothesis Hfloat : forall f, P (JFloat f).
Hypothesis Hstr : forall s, P (JStr s).
Hypothesis Harr : forall items, Forall P items -> P (JArr items).
Hypothesis Hobj : forall fields, Forall (fun kv => P (snd kv)) fields -> P (JObj fields).

(** Induction on a value, with the hypothesis for every item of an array
    and every value of an object. *)
Fixpoint json_induction (v : json) : P v :=
  match v with
  | JNull => Hnull
  | JBool b => Hbool b
  | JInt z => Hint z
  | JFloat f => Hfloat f
  | JStr s => Hstr s
  | JArr items =>
      Harr items
        ((fix go (l : list json) : Forall P l :=
            match l with
            | [] => List.Forall_nil _
            | x :: l' => @List.Forall_cons _ P x l' (json_induction x) (go l')
            end) items)
  | JObj fields =>
      Hobj fields
        ((fix go (l : list (str * json)) : Forall (fun kv => P (snd kv)) l :=
            match l with
            | [] => List.Forall_nil _
            | kv :: l' =>
                @List.Forall_cons _ (fun kv => P (snd kv)) kv l'
                  (json_induction (snd kv)) (go l')
            end) fields)
  end.

End JsonInduction.

(** The nesting depth of a value: the fuel [scan_once] needs for it. *)
Fixpoint depth (v : json) : nat :=
  match v with
  | JArr items =>
      S ((fix go (l : list json) : nat :=
            match l with
            | [] => O
            | x :: l' => Nat.max (depth x) (go l')
            end) items)
  | JObj fields =>
      S ((fix go (l : list (str * json)) : nat :=
            match l with
            | [] => O
            | kv :: l' => Nat.max (depth (snd kv)) (go l')
            end) fields)
  | _ => 1%nat
  end.

Section Values.
Context `{PyLib}.

(** The values the round trip is stated for: the keys of every object are
    distinct, as in a Python [dict], and every finite float is one that
    [repr] and [float] agree on. *)
Fixpoint json_ok (v : json) : Prop :=
  match v with
  | JFloat f => float_ok f
  | JArr items =>
      (fix go (l : list json) : Prop :=
         match l with
         | [] => True
         | x :: l' => json_ok x /\ go l'
         end) items
  | JObj fields =>
      NoDup (map fst fields)
      /\ (fix go (l : list (str * json)) : Prop :=
            match l with
            | [] => True
            | kv :: l' => json_ok (snd kv) /\ go l'
            end) fields
  | _ => True
  end.

Lemma json_ok_arr items : json_ok (JArr items) <-> Forall json_ok items.
Proof.
  simpl. induction items as [|x items IH]; [by split|].
  rewrite Forall_cons. by rewrite IH.
Qed.

Lemma json_ok_obj fields :
  json_ok (JObj fields)
  <-> NoDup (map fst fields) /\ Forall (fun kv => json_ok (snd kv)) fields.
Proof.
  simpl. apply and_iff_compat_l.
  induction fields as [|x fields IH]; [by split|].
  rewrite Forall_cons. by rewrite IH.
Qed.

Lemma depth_arr items x :
  x ∈ items -> (depth x < depth (JArr items))%nat.
Proof.
  simpl. induction 1 as [x l|x y l _ IH]; lia.
Qed.

Lemma depth_obj fields kv :
  kv ∈ fields -> (depth (snd kv) < depth (JObj fields))%nat.
Proof.
  simpl. induction 1 as [x l|x y l _ IH]; lia.
Qed.

End Values.

Lemma skip_ws_spaces k t : skip_ws (repeat 32 k ++ t) = skip_ws t.
Proof. induction k as [|k IH]; [done|]. simpl. exact IH. Qed.

Lemma skip_ws_newline_indent level t :
  skip_ws (newline_indent level ++ t) = skip_ws t.
Proof. unfold newline_indent. simpl. apply skip_ws_spaces. Qed.

Lemma skip_ws_head c t : is_ws c = false -> skip_ws (c :: t) = c :: t.
Proof. intros Hc. simpl. by rewrite Hc. Qed.

(** The first character of a number. *)
Definition number_start (c : N) : Prop := is_digit c = true \/ c = 45.

(** The first character of a value: neither white space nor a closing
    bracket. *)
Definition value_start (c : N) : Prop :=
  is_ws c = false /\ (c =? 93) = false /\ (c =? 125) = false.

Lemma is_digit_range c : is_digit c = true <-> 48 <= c <= 57.
Proof. unfold is_digit. rewrite andb_true_iff, !N.leb_le. done. Qed.

Lemma number_start_value c : number_start c -> value_start c.
Proof.
  intros [Hd| ->]; [|done]. apply is_digit_range in Hd.
  unfold value_start, is_ws.
  repeat split; repeat (apply orb_false_intro); apply N.eqb_neq; lia.
Qed.

Lemma Z_to_str_head z : exists c t, Z_to_str z = c :: t /\ number_start c.
Proof.
  assert (forall n, exists c t, N_to_str n = c :: t /\ number_start c) as Hn.
  { intros n. unfold N_to_str.
    destruct (uint_to_str (N.to_uint n)) as [|c t] eqn:E.
    - exfalso. destruct (to_uint_shape n) as [Hz|[Hnil _]].
      + by rewrite Hz in E.
      + by destruct (N.to_uint n).
    - exists c, t. split; [done|]. left. by eapply uint_to_str_head. }
  destruct z as [|x|x]; unfold Z_to_str; [apply Hn|apply Hn|].
  eexists _, _. split; [done|]. by right.
Qed.

Section Scanner.
Context `{PyLib}.

(** On the first character of a number [scan_once] goes to the number
    scanner. *)
Lemma scan_once_number fuel c t res :
  number_start c -> scan_number (c :: t) = Some res ->
  scan_once (S fuel) (c :: t) = Some res.
Proof.
  intros Hc Hs. cbn [scan_once].
  assert ((c =? 34) = false /\ (c =? 123) = false /\ (c =? 91) = false
          /\ (110 =? c) = false /\ (116 =? c) = false /\ (102 =? c) = false)
    as (-> & -> & -> & Hn & Ht & Hf).
  { destruct Hc as [Hd| ->]; [|done]. apply is_digit_range in Hd.
    repeat split; apply N.eqb_neq; lia. }
  change (u "null") with [110; 117; 108; 108].
  change (u "true") with [116; 114; 117; 101].
  change (u "false") with [102; 97; 108; 115; 101].
  cbn [startswith]. rewrite Hn, Ht, Hf. cbn [andb]. by rewrite Hs.
Qed.

Lemma floatstr_scan fuel f rest :
  float_ok f -> stops rest ->
  scan_once (S fuel) (floatstr f ++ rest) = Some (JFloat f, rest).
Proof.
  intros Hf Hr.
  assert (forall g, float_ok g ->
            floatstr g = float_repr g ->
            float_literal (float_repr g) = true ->
            float_of_literal (float_repr g) = g ->
            scan_once (S fuel) (floatstr g ++ rest) = Some (JFloat g, rest)) as Hfin.
  { intros g _ -> Hl Hg.
    destruct (float_literal_head _ Hl) as (c & t & Ht & Hc).
    pose proof (scan_number_float _ _ Hl Hr) as Hs. rewrite Hg in Hs.
    rewrite Ht in Hs |- *.
    change ((c :: t) ++ rest) with (c :: (t ++ rest)) in Hs |- *.
    by apply scan_once_number. }
  destruct f as [s|s| |s m e]; simpl in Hf.
  - destruct Hf. by apply Hfin.
  - by destruct s.
  - done.
  - destruct Hf. by apply Hfin.
Qed.

Lemma floatstr_head f :
  float_ok f -> exists c t, floatstr f = c :: t /\ value_start c.
Proof.
  intros Hf.
  assert (forall g, floatstr g = float_repr g ->
                    float_literal (float_repr g) = true ->
                    exists c t, floatstr g = c :: t /\ value_start c) as Hfin.
  { intros g -> Hl. destruct (float_literal_head _ Hl) as (c & t & Ht & Hc).
    exists c, t. split; [done|]. by apply number_start_value. }
  destruct f as [s|s| |s m e]; simpl in Hf.
  - destruct Hf. by apply Hfin.
  - destruct s; by eexists _, _.
  - by eexists _, _.
  - destruct Hf. by apply Hfin.
Qed.

(** Every value is written with a first character that starts a value. *)
Lemma dumps_head level v :
  json_ok v -> exists c t, dumps_at level v = c :: t /\ value_start c.
Proof.
  destruct v as [|b|z|f|s|items|fields]; intros Hok.
  - by eexists _, _.
  - destruct b; by eexists _, _.
  - destruct (Z_to_str_head z) as (c & t & Hz & Hc).
    exists c, t. split; [done|]. by apply number_start_value.
  - by apply floatstr_head.
  - by eexists _, _.
  - destruct items; by eexists _, _.
  - destruct fields; by eexists _, _.
Qed.

End Scanner.

Lemma join_cons sep x y l : join sep (x :: y :: l) = x ++ sep ++ join sep (y :: l).
Proof. reflexivity. Qed.

Lemma join_head sep x l : exists t, join sep (x :: l) = x ++ t.
Proof.
  destruct l as [|y l]; [exists []; simpl; by rewrite app_nil_r|].
  rewrite join_cons. by eexists.
Qed.

Lemma join_length sep (l : list str) :
  Forall (fun x => x <> []) l -> (length l <= length (join sep l))%nat.
Proof.
  induction 1 as [|x l Hx _ IH]; [done|].
  destruct l as [|y l].
  - simpl. destruct x; [done|]. simpl. lia.
  - rewrite join_cons, !length_app. destruct x; [done|]. simpl in *. lia.
Qed.

Lemma skip_ws_space t : skip_ws (32 :: t) = skip_ws t.
Proof. reflexivity. Qed.

Section Loops.
Context `{PyLib} (scan : str -> option (json * str)).

(** The scanner reads back every value of the list, whatever follows. *)
Definition reads_back (level : nat) (v : json) : Prop :=
  json_ok v /\ forall r, stops r -> scan (dumps_at level v ++ r) = Some (v, r).

Lemma value_text_skip_ws level v t :
  json_ok v -> skip_ws (dumps_at level v ++ t) = dumps_at level v ++ t.
Proof.
  intros Hok. destruct (dumps_head level v Hok) as (c & t' & -> & Hc & _).
  by apply skip_ws_head.
Qed.

Lemma array_items_dumps level items rest n :
  items <> [] -> (length items <= n)%nat ->
  Forall (reads_back (S level)) items ->
  array_items scan n
    (join (44 :: newline_indent (S level)) (map (dumps_at (S level)) items)
     ++ newline_indent level ++ 93 :: rest)
  = Some (items, rest).
Proof.
  intros Hne Hn Hall. revert n Hn.
  induction Hall as [|v items [Hok Hv] Hall IH]; [done|]. intros n Hn.
  destruct n as [|n]; [simpl in Hn; lia|]. cbn [array_items].
  destruct items as [|v2 items].
  - cbn [map join]. rewrite Hv by (by left + (simpl; by right)).
    rewrite skip_ws_newline_indent. simpl. done.
  - cbn [map]. rewrite join_cons, <- !app_assoc. cbn [app].
    rewrite Hv by (simpl; by left).
    rewrite skip_ws_head by done.
    change (44 =? 93) with false. change (44 =? 44) with true. cbv iota.
    rewrite skip_ws_newline_indent.
    inversion Hall as [|? ? [Hok2 _] _]; subst.
    destruct (join_head (44 :: newline_indent (S level)) (dumps_at (S level) v2)
                (map (dumps_at (S level)) items)) as [t Ht].
    pose proof (IH ltac:(done) n ltac:(simpl in *; lia)) as IH'.
    cbn [map] in IH'.
    rewrite Ht, <- app_assoc in IH' |- *.
    rewrite value_text_skip_ws by done. by rewrite IH'.
Qed.

Lemma object_items_dumps level (fields : list (str * json)) rest n :
  fields <> [] -> (length fields <= n)%nat ->
  Forall (fun kv => reads_back (S level) (snd kv)) fields ->
  object_items scan n
    (join (44 :: newline_indent (S level))
          (map (fun kv => encode_basestring (fst kv) ++ [58; 32]
                          ++ dumps_at (S level) (snd kv)) fields)
     ++ newline_indent level ++ 125 :: rest)
  = Some (fields, rest).
Proof.
  intros Hne Hn Hall. revert n Hn.
  induction Hall as [|[k v] fields [Hok Hv] Hall IH]; [done|]. intros n Hn.
  destruct n as [|n]; [simpl in Hn; lia|]. cbn [object_items].
  simpl in Hok, Hv.
  destruct fields as [|[k2 v2] fields].
  - cbn [map join fst snd]. unfold encode_basestring.
    rewrite <- !app_assoc. cbn [app].
    change (34 =? 34) with true. cbv iota.
    rewrite scanstring_encode. rewrite (skip_ws_head 58) by done.
    change (58 =? 58) with true. cbv iota.
    rewrite skip_ws_space, value_text_skip_ws by done.
    rewrite Hv by (simpl; by right).
    rewrite skip_ws_newline_indent. simpl. done.
  - pose proof (IH ltac:(done) n ltac:(simpl in *; lia)) as IH'.
    cbn [map]. cbn [map] in IH'. rewrite join_cons. cbn [fst snd] in IH' |- *.
    destruct (join_head (44 :: newline_indent (S level))
                (encode_basestring k2 ++ [58; 32] ++ dumps_at (S level) v2)
                (map (fun kv => encode_basestring (fst kv) ++ [58; 32]
                                ++ dumps_at (S level) (snd kv)) fields)) as [t Ht].
    unfold str in *. rewrite Ht in IH' |- *. clear Ht.
    unfold encode_basestring in IH' |- *.
    rewrite <- !app_assoc in IH' |- *. cbn [app] in IH' |- *.
    rewrite <- ?app_assoc in IH' |- *. cbn [app] in IH' |- *.
    change (34 =? 34) with true. cbv iota.
    rewrite scanstring_encode. rewrite (skip_ws_head 58) by done.
    change (58 =? 58) with true. cbv iota.
    rewrite skip_ws_space, value_text_skip_ws by done.
    rewrite Hv by (simpl; by left).
    rewrite skip_ws_head by done.
    change (44 =? 125) with false. change (44 =? 44) with true. cbv iota.
    rewrite <- ?app_assoc. cbn [app]. rewrite <- ?app_assoc. cbn [app].
    rewrite skip_ws_newline_indent.
    rewrite (skip_ws_head 34) by done.
    match goal with
    | |- context [object_items scan n ?x] =>
        match type of IH' with
        | object_items _ _ ?y = _ => replace x with y; [by rewrite IH'|]
        end
    end.
    repeat (rewrite <- app_assoc; cbn [app]). done.
Qed.

End Loops.

Lemma join_first (P : N -> Prop) sep (l : list str) :
  l <> [] -> Forall (fun x => exists c t, x = c :: t /\ P c) l ->
  exists c t, join sep l = c :: t /\ P c.
Proof.
  intros Hne Hall. destruct Hall as [|x l (c & t & -> & Hc) _]; [done|].
  destruct (join_head sep (c :: t) l) as [t' Ht].
  exists c, (t ++ t'). split; [exact Ht|done].
Qed.

Section RoundTrip.
Context `{PyLib}.

Lemma dumps_nonempty level v : json_ok v -> dumps_at level v <> [].
Proof. intros Hok. by destruct (dumps_head level v Hok) as (c & t & -> & _). Qed.

Lemma stops_newline_indent level t : stops (newline_indent level ++ t).
Proof. simpl. by right. Qed.

Lemma stops_comma t : stops (44 :: t).
Proof. simpl. by left. Qed.

(** The scanner reads back what [dumps_at] writes, at every indentation
    level and before everything that can follow a value. *)
Lemma scan_once_dumps v :
  json_ok v -> forall level fuel rest,
  (depth v <= fuel)%nat -> stops rest ->
  scan_once fuel (dumps_at level v ++ rest) = Some (v, rest).
Proof.
  induction v as [|b|z|f|s|items IH|fields IH] using json_induction;
    intros Hok level fuel rest Hfuel Hr;
    (destruct fuel as [|fuel]; [simpl in Hfuel; lia|]).
  - reflexivity.
  - by destruct b.
  - destruct (Z_to_str_head z) as (c & t & Hz & Hc). cbn [dumps_at].
    pose proof (scan_number_int z rest Hr) as Hs. rewrite Hz in Hs |- *.
    by apply scan_once_number.
  - by apply floatstr_scan.
  - cbn [dumps_at scan_once]. unfold encode_basestring.
    rewrite <- !app_assoc. cbn [app]. change (34 =? 34) with true. cbv iota.
    by rewrite scanstring_encode.
  - destruct items as [|x items]; [reflexivity|].
    apply json_ok_arr in Hok.
    assert (Forall (reads_back (scan_once fuel) (S level)) (x :: items)) as Hall.
    { apply Forall_forall. intros y Hy. split.
      - by eapply (proj1 (Forall_forall _ _) Hok).
      - intros r Hstop. eapply (proj1 (Forall_forall _ _) IH); try done.
        + by eapply (proj1 (Forall_forall _ _) Hok).
        + pose proof (depth_arr _ _ Hy). lia. }
    set (l := x :: items) in *.
    assert (l <> []) as Hne by done.
    assert (dumps_at level (JArr l) =
            91 :: newline_indent (S level)
            ++ join (44 :: newline_indent (S level)) (map (dumps_at (S level)) l)
            ++ newline_indent level ++ [93]) as -> by done.
    clearbody l.
    cbn [scan_once app]. change (91 =? 34) with false.
    change (91 =? 123) with false. change (91 =? 91) with true. cbv iota.
    rewrite <- !app_assoc. cbn [app]. rewrite skip_ws_newline_indent.
    set (J := join _ _).
    assert (exists c t, J = c :: t /\ value_start c) as (c & t & HJ & Hc).
    { apply join_first; [by destruct l|]. apply Forall_map.
      eapply Forall_impl; [exact Hall|]. intros y [Hy _]. by apply dumps_head. }
    assert ((length l <= length (newline_indent (S level) ++ J
                                 ++ newline_indent level ++ 93%N :: rest))%nat) as Hlen.
    { rewrite !length_app. etrans; [|apply Nat.le_add_l].
      etrans; [|apply Nat.le_add_r].
      rewrite <- (length_map (dumps_at (S level)) l). apply join_length.
      apply Forall_map. eapply Forall_impl; [exact Hall|].
      intros y [Hy _]. by apply dumps_nonempty. }
    assert (array_items (scan_once fuel)
              (length (newline_indent (S level) ++ J
                       ++ newline_indent level ++ 93 :: rest))
              (J ++ newline_indent level ++ 93 :: rest) = Some (l, rest)) as Hloop
      by by apply array_items_dumps.
    destruct Hc as (Hws & H93 & _).
    rewrite HJ in Hloop |- *. cbn [app] in Hloop |- *.
    rewrite skip_ws_head by done. rewrite H93.
    by rewrite Hloop.
  - destruct fields as [|kv fields]; [reflexivity|].
    apply json_ok_obj in Hok as [Hnd Hok].
    assert (Forall (fun kv => reads_back (scan_once fuel) (S level) (snd kv))
              (kv :: fields)) as Hall.
    { apply Forall_forall. intros y Hy. split.
      - by apply (proj1 (Forall_forall _ _) Hok).
      - intros r Hstop. eapply (proj1 (Forall_forall _ _) IH); try done.
        + by apply (proj1 (Forall_forall _ _) Hok).
        + pose proof (depth_obj _ _ Hy). lia. }
    set (l := kv :: fields) in *.
    assert (l <> []) as Hne by done.
    assert (dumps_at level (JObj l) =
            123 :: newline_indent (S level)
            ++ join (44 :: newline_indent (S level))
                 (map (fun kv => encode_basestring (fst kv) ++ [58; 32]
                                 ++ dumps_at (S level) (snd kv)) l)
            ++ newline_indent level ++ [125]) as -> by done.
    clearbody l.
    cbn [scan_once app]. change (123 =? 34) with false.
    change (123 =? 123) with true. cbv iota.
    rewrite <- !app_assoc. cbn [app]. rewrite skip_ws_newline_indent.
    set (J := join _ _).
    assert (exists c t, J = c :: t /\ c = 34) as (c & t & HJ & ->).
    { apply join_first; [by destruct l|]. apply Forall_map.
      apply Forall_forall. intros y _. by eexists _, _. }
    assert ((length l <= length (newline_indent (S level) ++ J
                                 ++ newline_indent level ++ 125%N :: rest))%nat) as Hlen.
    { rewrite !length_app. etrans; [|apply Nat.le_add_l].
      etrans; [|apply Nat.le_add_r].
      rewrite <- (length_map (fun kv => encode_basestring (fst kv) ++ [58; 32]
                                 ++ dumps_at (S level) (snd kv)) l).
      apply join_length. apply Forall_map. apply Forall_forall. by intros y _. }
    assert (object_items (scan_once fuel)
              (length (newline_indent (S level) ++ J
                       ++ newline_indent level ++ 125 :: rest))
              (J ++ newline_indent level ++ 125 :: rest) = Some (l, rest)) as Hloop
      by by apply object_items_dumps.
    rewrite HJ in Hloop |- *. cbn [app] in Hloop |- *.
    rewrite skip_ws_head by done. change (34 =? 125) with false. cbv iota.
    rewrite Hloop. by rewrite dict_of_pairs_NoDup_id.
Qed.

End RoundTrip.

Lemma join_elem_length sep (l : list str) x :
  x ∈ l -> (length x <= length (join sep l))%nat.
Proof.
  induction 1 as [x l|x y l Hin IH].
  - destruct l; [done|]. rewrite join_cons, length_app. lia.
  - destruct l as [|z l]; [by apply elem_of_nil in Hin|].
    rewrite join_cons, !length_app. lia.
Qed.

Lemma elem_of_map {A B} (f : A -> B) (l : list A) x : x ∈ l -> f x ∈ map f l.
Proof. rewrite !list_elem_of_In. apply in_map. Qed.

Section Loads.
Context `{PyLib}.

(** The text of a value is at least as long as the value is deep. *)
Lemma depth_length v level : (depth v <= S (length (dumps_at level v)))%nat.
Proof.
  revert level.
  induction v as [|b|z|f|s|items IH|fields IH] using json_induction;
    intros level; try (simpl; lia).
  - destruct items as [|x items]; [simpl; lia|].
    set (l := x :: items) in *.
    assert (dumps_at level (JArr l) =
            91 :: newline_indent (S level)
            ++ join (44 :: newline_indent (S level)) (map (dumps_at (S level)) l)
            ++ newline_indent level ++ [93]) as -> by done.
    clearbody l. cbn [length]. rewrite !length_app.
    set (J := join _ _).
    assert (forall y, y ∈ l -> (depth y <= S (length J))%nat) as Hy.
    { intros y Hy. etrans; [apply (proj1 (Forall_forall _ _) IH y Hy (S level))|].
      apply le_n_S. apply join_elem_length. by apply elem_of_map. }
    assert (forall n, (forall y, y ∈ l -> (depth y <= n)%nat) ->
                      (depth (JArr l) <= S n)%nat) as Hmax.
    { intros n. simpl. clear. induction l as [|y l IHl]; intros Hn; [lia|].
      pose proof (Hn y ltac:(by left)).
      pose proof (IHl (fun z Hz => Hn z ltac:(by right))). lia. }
    pose proof (Hmax _ Hy). simpl in *. lia.
  - destruct fields as [|kv fields]; [simpl; lia|].
    set (l := kv :: fields) in *.
    assert (dumps_at level (JObj l) =
            123 :: newline_indent (S level)
            ++ join (44 :: newline_indent (S level))
                 (map (fun kv => encode_basestring (fst kv) ++ [58; 32]
                                 ++ dumps_at (S level) (snd kv)) l)
            ++ newline_indent level ++ [125]) as -> by done.
    clearbody l. cbn [length]. rewrite !length_app.
    set (J := join _ _).
    assert (forall y, y ∈ l -> (depth (snd y) <= S (length J))%nat) as Hy.
    { intros y Hy. etrans; [apply (proj1 (Forall_forall _ _) IH y Hy (S level))|].
      apply le_n_S.
      etrans; [|apply join_elem_length;
                apply (elem_of_map
                         (fun kv => encode_basestring (fst kv) ++ [58; 32]
                                    ++ dumps_at (S level) (snd kv)) _ _ Hy)].
      rewrite !length_app. lia. }
    assert (forall n, (forall y, y ∈ l -> (depth (snd y) <= n)%nat) ->
                      (depth (JObj l) <= S n)%nat) as Hmax.
    { intros n. simpl. clear. induction l as [|y l IHl]; intros Hn; [lia|].
      pose proof (Hn y ltac:(by left)).
      pose proof (IHl (fun z Hz => Hn z ltac:(by right))). lia. }
    pose proof (Hmax _ Hy). simpl in *. lia.
Qed.

(** No text of [json.dumps] starts with a byte order mark. *)
Lemma dumps_no_bom v :
  json_ok v -> startswith (json_dumps v) [65279] = false.
Proof.
  intros Hok.
  assert (forall c t, number_start c -> startswith (c :: t) [65279] = false) as Hnum.
  { intros c t Hc. cbn [startswith].
    replace (65279 =? c) with false; [done|]. symmetry. apply N.eqb_neq.
    destruct Hc as [Hd| ->]; [|done]. apply is_digit_range in Hd. lia. }
  unfold json_dumps.
  destruct v as [|b|z|f|s|items|fields]; try reflexivity.
  - by destruct b.
  - destruct (Z_to_str_head z) as (c & t & Hz & Hc). cbn [dumps_at].
    rewrite Hz. by apply Hnum.
  - cbn [dumps_at]. simpl in Hok.
    assert (forall g, floatstr g = float_repr g ->
                      float_literal (float_repr g) = true ->
                      startswith (floatstr g) [65279] = false) as Hfin.
    { intros g -> Hl. destruct (float_literal_head _ Hl) as (c & t & -> & Hc).
      by apply Hnum. }
    destruct f as [s|s| |s m e]; simpl in Hok.
    + destruct Hok. by apply Hfin.
    + by destruct s.
    + done.
    + destruct Hok. by apply Hfin.
  - by destruct items.
  - by destruct fields.
Qed.

(** [json.loads] reads back what [json.dumps] with [indent=2] writes. *)
Lemma json_loads_dumps v : json_ok v -> json_loads (json_dumps v) = Some v.
Proof.
  intros Hok. unfold json_loads. rewrite dumps_no_bom by done.
  unfold json_dumps. destruct (dumps_head 0 v Hok) as (c & t & Hd & Hc & _).
  rewrite Hd at 2. rewrite skip_ws_head by done. rewrite <- Hd.
  pose proof (scan_once_dumps v Hok 0 (S (length (dumps_at 0 v))) []
                (depth_length v 0) I) as Hs.
  rewrite app_nil_r in Hs. by rewrite Hs.
Qed.

End Loads.

(** *** Paths of the transcript files *)

Lemma split_on_no_sep sep s : sep ∉ s -> split_on sep s = [s].
Proof.
  induction s as [|c s IH]; intros Hs; [done|]. simpl.
  rewrite not_elem_of_cons in Hs. destruct Hs as [Hc Hs].
  rewrite (proj2 (N.eqb_neq c sep)) by done. by rewrite IH.
Qed.

(** A file name without a slash is a path of one component. *)
Lemma path_of_str_name c s :
  47 ∉ (c :: s) -> c :: s <> [46] -> path_of_str (c :: s) = mkPath false [c :: s].
Proof.
  intros Hs Hdot. unfold path_of_str. rewrite split_on_no_sep by done.
  assert ((47 =? c) = false) as Hc.
  { apply N.eqb_neq. intros <-. apply Hs. by left. }
  cbn [startswith]. rewrite Hc. cbn [andb List.filter].
  assert (str_eqb (c :: s) [46] = false) as ->; [|done].
  destruct (str_eqb (c :: s) [46]) eqn:E; [|done].
  exfalso. apply Hdot. unfold str_eqb in E. by apply bool_decide_eq_true in E.
Qed.

Lemma rsplit_dot_app s a b : rsplit_dot s = Some (a, b) -> s = a ++ b.
Proof.
  revert a b. induction s as [|c s IH]; intros a b; simpl; [done|].
  destruct (rsplit_dot s) as [[a' b']|].
  - intros [= <- <-]. by rewrite (IH a' b' eq_refl) at 1.
  - destruct (c =? 46); [|done]. by intros [= <- <-].
Qed.

Lemma stem_of_prefix nm : exists b, nm = stem_of nm ++ b.
Proof.
  unfold stem_of, split_suffix. destruct (rsplit_dot nm) as [[a b]|] eqn:E.
  - apply rsplit_dot_app in E.
    destruct a as [|a0 a]; [exists []; by rewrite app_nil_r|].
    destruct b as [|b0 [|b1 b]]; try (exists []; by rewrite app_nil_r).
    by eexists.
  - exists []. by rewrite app_nil_r.
Qed.

Lemma stem_of_nonempty nm : nm <> [] -> stem_of nm <> [].
Proof.
  intros Hnm. unfold stem_of, split_suffix.
  destruct (rsplit_dot nm) as [[[|a0 a] [|b0 [|b1 b]]]|]; done.
Qed.

Lemma stem_of_no_slash nm : 47 ∉ nm -> 47 ∉ stem_of nm.
Proof.
  intros Hnm Hin. destruct (stem_of_prefix nm) as [b Hb].
  apply Hnm. rewrite Hb. apply elem_of_app. by left.
Qed.

(** The file next to the input whose name is the stem of the input and an
    ending. *)
Definition sibling (p : Path) (ending : str) : Path :=
  mkPath (is_abs p) (removelast (parts p) ++ [stem p ++ ending]).

Lemma path_div_sibling p ending :
  name p <> [] -> 47 ∉ name p -> 47 ∉ ending -> ending <> [] ->
  path_div (parent p) (stem p ++ ending) = sibling p ending.
Proof.
  intros Hnm Hslash Hend Hne. unfold path_div, sibling, stem.
  pose proof (stem_of_nonempty _ Hnm) as Hst.
  pose proof (stem_of_no_slash _ Hslash) as Hss.
  destruct (stem_of (name p)) as [|c s] eqn:E; [done|].
  change ((c :: s) ++ ending) with (c :: (s ++ ending)).
  rewrite path_of_str_name.
  - done.
  - change (c :: s ++ ending) with ((c :: s) ++ ending).
    rewrite elem_of_app. by intros [|].
  - destruct s; destruct ending; done.
Qed.

Lemma with_suffix_sibling p ending wav :
  with_suffix p ending = Some wav -> wav = sibling p ending /\ name p <> [].
Proof.
  unfold with_suffix, sibling, stem. destruct (name p); [done|].
  by intros [= <-].
Qed.

Section Siblings.
Context (env : Env).

Lemma abspath_sibling_ne p e1 e2 :
  e1 <> e2 -> abspath env (sibling p e1) <> abspath env (sibling p e2).
Proof.
  intros Hne. unfold abspath, sibling, joinpath. simpl.
  destruct (is_abs p); simpl; intros [= Heq]; apply Hne.
  - apply app_inv_head in Heq. injection Heq as Heq. by apply app_inv_head in Heq.
  - rewrite !app_assoc in Heq. apply app_inv_head in Heq.
    injection Heq as Heq. by apply app_inv_head in Heq.
Qed.

End Siblings.

(** *** What [transcribe] leaves on disk *)

Section Persist.
Context `{PyLib} (env : Env).

(** The file at [p] holds the bytes [b]. *)
Definition holds (w : World) (p : Path) (b : bytes) : Prop :=
  exists m, lookup_file (files w) (abspath env p) = Some (mkFile b m).

Lemma put_file_holds p b w : holds (snd (put_file env p b w)) p b.
Proof. exists (clock w). simpl. apply lookup_store_eq. Qed.

Lemma put_file_keeps p b w q c :
  abspath env p <> abspath env q ->
  holds w q c -> holds (snd (put_file env p b w)) q c.
Proof. intros Hne [m Hm]. exists m. simpl. by rewrite lookup_store_ne. Qed.

Lemma emit_keeps e w q c : holds w q c -> holds (snd (emit e w)) q c.
Proof. done. Qed.

Lemma read_bytes_holds w p b : holds w p b -> read_bytes env p w = (Ok b, w).
Proof. intros [m Hm]. unfold read_bytes. by rewrite Hm. Qed.

Lemma read_text_holds w p b s :
  holds w p b -> utf8_decode b = Some s -> read_text env p w = (Ok s, w).
Proof.
  intros Hp Hs. unfold read_text. rewrite (bind_ok _ _ _ _ _ (read_bytes_holds _ _ _ Hp)).
  by rewrite Hs.
Qed.

(** Writing a text that UTF-8 can encode: the file holds the encoded text
    afterwards and the other files are as they were. *)
Lemma write_text_ok p (text : M str) s b w :
  (forall w0, text w0 = (Ok s, w0)) -> utf8_encode s = Some b ->
  exists w',
    write_text env p text w = (Ok tt, w')
    /\ holds w' p b
    /\ forall q c, abspath env p <> abspath env q -> holds w q c -> holds w' q c.
Proof.
  intros Ht Hb. unfold write_text.
  eexists. split; [|split].
  - unfold bind at 1. unfold emit at 1. unfold bind at 1. unfold put_file at 1.
    unfold bind at 1. rewrite Ht. rewrite Hb. unfold put_file. reflexivity.
  - eexists. simpl. apply lookup_store_eq.
  - intros q c Hne [m Hm]. exists m. simpl. by rewrite !lookup_store_ne.
Qed.

Lemma unlink_holds p b w :
  holds w p b ->
  exists w', unlink env p w = (Ok tt, w')
    /\ forall q c, abspath env p <> abspath env q -> holds w q c -> holds w' q c.
Proof.
  intros [m Hm]. unfold unlink. rewrite Hm. eexists. split; [done|].
  intros q c Hne [m' Hq]. exists m'. simpl. by rewrite lookup_remove_ne.
Qed.

(** The text of the answer of the speech service: empty when the field is
    absent; nothing when the field is not a string. *)
Definition response_text (result : pydict) : option str :=
  match dict_get result (u "text") with
  | None => Some []
  | Some (JStr t) => Some t
  | Some _ => None
  end.

(** The segments of the answer: the empty list when the field is absent. *)
Definition response_segments (result : pydict) : json :=
  match dict_get result (u "segments") with
  | Some v => v
  | None => JArr []
  end.

Lemma convert_ok audio_path b w :
  name audio_path <> [] ->
  env_which env (u "ffmpeg") = true ->
  ff_written (env_ffmpeg env) = Some b ->
  ff_returncode (env_ffmpeg env) = 0%Z ->
  exists w1,
    _convert_to_wav_16k env audio_path w = (Ok (sibling audio_path (u ".wav")), w1)
    /\ holds w1 (sibling audio_path (u ".wav")) b.
Proof.
  intros Hnm Hwhich Hb Hrc. unfold _convert_to_wav_16k.
  assert (with_suffix audio_path (u ".wav") = Some (sibling audio_path (u ".wav"))) as ->.
  { unfold with_suffix, sibling, stem. by destruct (name audio_path). }
  rewrite Hwhich, Hb, Hrc. change (0 =? 0)%Z with true. cbv iota.
  eexists. split.
  - unfold bind, ret, logging, emit, put_file. reflexivity.
  - eexists. simpl. apply lookup_store_eq.
Qed.

Lemma post_json_ok url body status v w :
  (status < 400 \/ 600 <= status)%Z ->
  exists w', post_json url body (HttpResponse status (Some v)) w = (Ok v, w')
             /\ files w' = files w.
Proof.
  intros Hst. unfold post_json.
  assert (((400 <=? status) && (status <? 600))%Z = false) as ->.
  { apply andb_false_iff. rewrite Z.leb_gt, Z.ltb_ge. lia. }
  by eexists.
Qed.

Lemma holds_files w w' p b : files w' = files w -> holds w p b -> holds w' p b.
Proof. intros Hf [m Hm]. exists m. by rewrite Hf. Qed.

Lemma transcribe_ok url audio_path b status result t bt bj w :
  name audio_path <> [] ->
  47 ∉ name audio_path ->
  env_which env (u "ffmpeg") = true ->
  ff_written (env_ffmpeg env) = Some b ->
  ff_returncode (env_ffmpeg env) = 0%Z ->
  env_whisper env = HttpResponse status (Some (JObj result)) ->
  (status < 400 \/ 600 <= status)%Z ->
  response_text result = Some t ->
  utf8_encode (strip t) = Some bt ->
  utf8_encode (json_dumps (response_segments result)) = Some bj ->
  exists w',
    transcribe env url audio_path w
    = (Ok (sibling audio_path (u ".txt"),
           sibling audio_path (u "_timestamps.json")), w')
    /\ holds w' (sibling audio_path (u ".txt")) bt
    /\ holds w' (sibling audio_path (u "_timestamps.json")) bj.
Proof.
  intros Hnm Hslash Hwhich Hb Hrc Hresp Hst Ht Hbt Hbj.
  unfold transcribe.
  destruct (convert_ok audio_path b w Hnm Hwhich Hb Hrc) as (w1 & Hc & Hwav).
  rewrite (bind_ok _ _ _ _ _ Hc).
  unfold bind at 1. unfold logging at 1, emit at 1.
  match goal with |- context [try_finally _ _ ?w] => set (w2 := w) end.
  assert (holds w2 (sibling audio_path (u ".wav")) b) as Hwav2 by done.
  clearbody w2. clear Hc Hwav w1 w.
  rewrite !path_div_sibling
    by (done || (apply (bool_decide_unpack _); by vm_compute)).
  set (wavp := sibling audio_path (u ".wav")) in *.
  set (txtp := sibling audio_path (u ".txt")).
  set (jsonp := sibling audio_path (u "_timestamps.json")).
  assert (forall e1 e2, e1 <> e2 ->
            abspath env (sibling audio_path e1) <> abspath env (sibling audio_path e2))
    as Hsib by (intros; by apply abspath_sibling_ne).
  assert (abspath env txtp <> abspath env wavp) as Htw
    by (apply Hsib; intros E; vm_compute in E; discriminate E).
  assert (abspath env jsonp <> abspath env wavp) as Hjw
    by (apply Hsib; intros E; vm_compute in E; discriminate E).
  assert (abspath env jsonp <> abspath env txtp) as Hjt
    by (apply Hsib; intros E; vm_compute in E; discriminate E).
  clear Hsib.
  unfold try_finally.
  rewrite (bind_ok _ _ _ _ _ (read_bytes_holds _ _ _ Hwav2)).
  rewrite Hresp.
  match goal with
  | |- context [post_json url ?body _] =>
      destruct (post_json_ok url body status (JObj result) w2 Hst) as (w3 & Hp & Hf3)
  end.
  rewrite (bind_ok _ _ _ _ _ Hp).
  pose proof (holds_files _ _ _ _ Hf3 Hwav2) as Hwav3.
  match goal with
  | |- context [write_text env txtp ?text] =>
      destruct (write_text_ok txtp text (strip t) bt w3) as (w4 & Hw4 & Htxt4 & Hk4)
  end.
  { intros w0. unfold py_get, response_text in *.
    destruct (dict_get result (u "text")) as [[| | | |t'| |]|]; try done.
    - by injection Ht as ->.
    - by injection Ht as <-. }
  { done. }
  rewrite (bind_ok _ _ _ _ _ Hw4).
  match goal with
  | |- context [write_text env jsonp ?text] =>
      destruct (write_text_ok jsonp text (json_dumps (response_segments result)) bj w4)
        as (w5 & Hw5 & Hjson5 & Hk5)
  end.
  { intros w0. unfold py_get, response_segments.
    by destruct (dict_get result (u "segments")). }
  { done. }
  rewrite (bind_ok _ _ _ _ _ Hw5).
  unfold bind at 1. unfold logging at 1, emit at 1. unfold ret at 1.
  match goal with
  | |- context [bind (exists_ env wavp) _ ?w] => set (w6 := w)
  end.
  assert (holds w6 wavp b) as Hwav6 by (apply Hk5, Hk4; done).
  assert (holds w6 txtp bt) as Htxt6 by (apply Hk5; done).
  assert (holds w6 jsonp bj) as Hjson6 by done.
  clearbody w6.
  unfold bind, exists_.
  assert (is_file env w6 wavp = true) as ->.
  { destruct Hwav6 as [m Hm]. unfold is_file. by rewrite Hm. }
  cbn [orb andb]. destruct (path_eqb wavp audio_path); cbn [negb when].
  - by eexists.
  - destruct (unlink_holds wavp b w6 Hwav6) as (w7 & -> & Hk7).
    eexists. split; [done|]. split; apply Hk7; done.
Qed.

End Persist.

(** ** The transcript and the segments *)

(** One half, the float of the sample runtime. *)
Definition half : spec_float := S754_finite false 4503599627370496 (-53).

Definition whisper_env (answer : http_outcome) : Env := {|
  env_cwd := p "/home/user";
  env_home := p "/home/user";
  env_which := fun _ => true;
  env_resolve := fun s => path_of_str (u "/home/user/" ++ s);
  env_mkdtemp := Some (p "/tmp/tmpabc");
  env_notify_ok := fun _ _ => true;
  env_ydl := YdlRaise [];
  env_ffmpeg := mkFfmpeg 0 (Some [82; 73; 70; 70]);
  env_whisper := answer;
  env_ollama := HttpError (u "unreachable");
  env_gemini := mkProc 0 [] [];
|}.

(** An answer with one timed segment. *)
Definition timed_segments : json :=
  JArr [JObj [(u "id", JInt 0); (u "start", JFloat half); (u "end", JFloat half);
              (u "text", JStr (u " hello world")); (u "tokens", JArr [JInt 50364; JInt (-1)]);
              (u "words", JArr []); (u "no_speech", JBool false); (u "speaker", JNull)]].

Definition timed_answer : pydict :=
  [(u "text", JStr (u " hello world ")); (u "segments", timed_segments)].

(** An answer whose text is [null]. *)
Definition null_text_answer : pydict :=
  [(u "text", JNull); (u "segments", JArr [])].

(** An answer whose text is the lone surrogate [U+D83D], as [json.loads]
    makes of an escape that has lost its second half. *)
Definition surrogate_answer : pydict :=
  [(u "text", JStr [55357]); (u "segments", JArr [])].

Section Transcript.
Context `{PyLib} (env : Env).


End Transcript.


(** A run of [transcribe] on the sample input against a service that gives
    [answer] with status 200. *)
Definition transcribe_with (answer : pydict) : result (Path * Path) * World :=
  transcribe (whisper_env (HttpResponse 200 (Some (JObj answer))))
             (JStr (u "http://whisper/inference")) (p "/home/user/talk.mp3")
             sample_world.



(** * Further properties of the script *)

(** ** Configuration *)

(** A value [json.load] can return that is neither text nor a container. *)
Definition is_scalar (v : json) : bool :=
  match v with
  | JNull | JBool _ | JInt _ | JFloat _ => true
  | _ => false
  end.

Section ConfigKeys.
Context `{PyLib} (env : Env).

Lemma dict_set_contains (d : pydict) k v k' :
  dict_contains d k' = true -> dict_contains (dict_set d k v) k' = true.
Proof.
  unfold dict_contains. rewrite dict_get_set. by destruct (str_eqb k k').
Qed.

Lemma dict_update_contains (other d : pydict) k :
  dict_contains d k = true -> dict_contains (dict_update d other) k = true.
Proof.
  revert d. induction other as [|[k0 v0] other IH]; intros d Hd; [done|].
  apply IH. by apply dict_set_contains.
Qed.

Lemma update_item_contains d item d' k :
  update_item d item = Ok d' ->
  dict_contains d k = true -> dict_contains d' k = true.
Proof.
  unfold update_item. intros Hu Hd.
  repeat case_match; simplify_eq; try done; by apply dict_set_contains.
Qed.

Lemma update_items_contains items d d' k :
  update_items d items = Ok d' ->
  dict_contains d k = true -> dict_contains d' k = true.
Proof.
  revert d. induction items as [|item items IH]; intros d; simpl.
  - by intros [= <-].
  - destruct (update_item d item) as [d1|e] eqn:E; [|done].
    intros Hu Hd. apply (IH d1 Hu). by eapply update_item_contains.
Qed.

Lemma py_update_contains d v d' k :
  py_update d v = Ok d' ->
  dict_contains d k = true -> dict_contains d' k = true.
Proof.
  destruct v as [| | | |s|items|other]; simpl; try done.
  - destruct s; [|done]. by intros [= <-].
  - apply update_items_contains.
  - intros [= <-]. apply dict_update_contains.
Qed.

(** X1: whatever the override file holds, a configuration that
    [load_config] returns has every key of the defaults, so the lookups
    [config["whisper_url"]], [config["ollama_url"]] and
    [config["summarize_model"]] of [main] find their key. *)
Theorem load_config_keeps_default_keys w config w' k :
  load_config env w = (Ok config, w') ->
  dict_contains DEFAULT_CONFIG k = true ->
  dict_contains config k = true.
Proof.
  unfold load_config. mrun. intros Hl Hk.
  repeat case_match; simplify_eq; try done.
  by eapply py_update_contains.
Qed.

(** X2: an override file that is text but not JSON does not stop the
    script: one warning is printed, the defaults are returned and the file
    system is as it was. *)
Theorem load_config_warns_on_invalid_json w f text :
  lookup_file (files w) (abspath env config_path) = Some f ->
  utf8_decode (data f) = Some text ->
  json_loads text = None ->
  exists reason,
    load_config env w
    = (Ok DEFAULT_CONFIG,
       mkWorld (files w) (dirs w) (clock w)
         (trace w ++ [EPrint (u "Warning: Failed to parse config file: " ++ reason
                              ++ u ". Using defaults.")])).
Proof.
  intros Hf Hd Hj. unfold load_config. mrun. fold config_path.
  rewrite (is_file_lookup _ _ _ _ Hf). simpl. rewrite Hf, Hd, Hj.
  by exists (exn_str JSONDecodeError).
Qed.

(** X3: [load_config] only reads.  Files, directories and clock are as
    before, and at most one line is printed. *)
Theorem load_config_reads_only w :
  files (snd (load_config env w)) = files w
  /\ dirs (snd (load_config env w)) = dirs w
  /\ clock (snd (load_config env w)) = clock w
  /\ (trace (snd (load_config env w)) = trace w
      \/ exists line, trace (snd (load_config env w)) = trace w ++ [EPrint line]).
Proof.
  unfold load_config. mrun.
  repeat case_match; simplify_eq; simpl; split_and!; try done; eauto.
Qed.

(** X4: an override file that holds a JSON number, [true], [false] or
    [null] is not a parse error: [config.update] raises [TypeError], which
    the handler for [JSONDecodeError] lets through, and nothing is printed. *)
Theorem load_config_rejects_scalar w f text v :
  lookup_file (files w) (abspath env config_path) = Some f ->
  utf8_decode (data f) = Some text ->
  json_loads text = Some v ->
  is_scalar v = true ->
  load_config env w = (Raise TypeError, w).
Proof.
  intros Hf Hd Hj Hv. unfold load_config. mrun. fold config_path.
  rewrite (is_file_lookup _ _ _ _ Hf). simpl. rewrite Hf, Hd, Hj.
  by destruct v.
Qed.

End ConfigKeys.

(** An override that is cut short, and one that holds a number. *)
Definition broken_config_world : World :=
  mkWorld [(p "/home/user/transcribe_config.json", mkFile (u "{oops") 1)]
          [p "/home/user"] 100 [].

Definition number_config_world : World :=
  mkWorld [(p "/home/user/transcribe_config.json", mkFile (u "42") 1)]
          [p "/home/user"] 100 [].

Lemma load_config_keeps_default_keys_witness :
  dict_contains
    (dict_update DEFAULT_CONFIG [(u "output_directory", JStr (u "custom_output/"))])
    (u "whisper_url") = true.
Proof.
  apply (load_config_keeps_default_keys sample_env custom_config_world
           (dict_update DEFAULT_CONFIG [(u "output_directory", JStr (u "custom_output/"))])
           custom_config_world (u "whisper_url")).
  - vm_compute. reflexivity.
  - vm_compute. reflexivity.
Defined.

Lemma load_config_warns_on_invalid_json_witness :
  exists reason,
    load_config sample_env broken_config_world
    = (Ok DEFAULT_CONFIG,
       mkWorld (files broken_config_world) (dirs broken_config_world)
         (clock broken_config_world)
         (trace broken_config_world
          ++ [EPrint (u "Warning: Failed to parse config file: " ++ reason
                      ++ u ". Using defaults.")])).
Proof.
  apply (load_config_warns_on_invalid_json sample_env broken_config_world
           (mkFile (u "{oops") 1) (u "{oops")).
  - vm_compute. reflexivity.
  - vm_compute. reflexivity.
  - vm_compute. reflexivity.
Defined.

Lemma load_config_rejects_scalar_witness :
  load_config sample_env number_config_world = (Raise TypeError, number_config_world).
Proof.
  apply (load_config_rejects_scalar sample_env number_config_world
           (mkFile (u "42") 1) (u "42") (JInt 42)).
  - vm_compute. reflexivity.
  - vm_compute. reflexivity.
  - vm_compute. reflexivity.
  - reflexivity.
Defined.


(** ** Dependencies *)

Section Dependencies.
Context `{PyLib} (env : Env).

(** X5: without [ffmpeg] on the search path the run ends with status 1
    before anything else is done: one error is logged, the configuration is
    not read and no file or directory is touched. *)
Theorem run_without_ffmpeg args w :
  env_which env (u "ffmpeg") = false ->
  run env args w
  = (1%Z,
     mkWorld (files w) (dirs w) (clock w)
       (trace w ++ [ELog ERROR (u "FFmpeg not found in PATH. Please install FFmpeg.")])).
Proof.
  intros Hw. unfold run, main, try_except2, pipeline, configure, setup_logging,
    check_dependencies.
  rewrite Hw. reflexivity.
Qed.

End Dependencies.

(** A machine without the transcoder. *)
Definition no_ffmpeg_env : Env := {|
  env_cwd := p "/home/user";
  env_home := p "/home/user";
  env_which := fun tool => negb (str_eqb tool (u "ffmpeg"));
  env_resolve := fun s => path_of_str (u "/home/user/" ++ s);
  env_mkdtemp := Some (p "/tmp/tmpabc");
  env_notify_ok := fun _ _ => true;
  env_ydl := YdlRaise [];
  env_ffmpeg := mkFfmpeg 127 None;
  env_whisper := HttpError (u "unreachable");
  env_ollama := HttpError (u "unreachable");
  env_gemini := mkProc 0 [] [];
|}.

Lemma run_without_ffmpeg_witness :
  run no_ffmpeg_env (mkArgs (u "talk.mp3") false false) sample_world
  = (1%Z,
     mkWorld (files sample_world) (dirs sample_world) (clock sample_world)
       (trace sample_world
        ++ [ELog ERROR (u "FFmpeg not found in PATH. Please install FFmpeg.")])).
Proof.
  apply (run_without_ffmpeg no_ffmpeg_env (mkArgs (u "talk.mp3") false false)
           sample_world).
  reflexivity.
Defined.


(** ** Download *)

Definition is_ydl (e : Event) : bool :=
  match e with EYdl _ _ => true | _ => false end.

(** The options [download] hands to the engine: the template is placed
    under the output directory and the directory is named as home. *)
Definition engine_options (opts : pydict) (outtmpl : str) (output_dir : Path) : pydict :=
  dict_set
    (dict_set opts (u "outtmpl") (JStr (path_str (path_div output_dir outtmpl))))
    (u "paths") (JObj [(u "home", JStr (path_str output_dir))]).

Section DownloadOptions.
Context `{PyLib} (env : Env).

(** X6: the options of an override replace the default options as a whole:
    [Downloader] keeps the [downloader_args] of the override when it has
    them, whatever they are, and the defaults otherwise. *)
Theorem downloader_options_of_override (o : pydict) :
  NoDup (map fst o) ->
  Downloader (dict_update DEFAULT_CONFIG o)
  = match dict_get o (u "downloader_args") with
    | Some v => v
    | None => JObj DEFAULT_downloader_args
    end.
Proof.
  intros Hnd. unfold Downloader. rewrite dict_get_update, dict_get_rev by done.
  by destruct (dict_get o (u "downloader_args")).
Qed.

(** X7: options without an [outtmpl] stop the download before the engine
    is asked: the output directory has been made, [KeyError] leaves
    [download] from outside its [try], so no failure is logged, and no file
    is touched. *)
Theorem download_without_outtmpl (opts : pydict) url output_dir w :
  dict_get opts (u "outtmpl") = None ->
  download env (JObj opts) url output_dir w
  = (Raise (KeyError (u "outtmpl")),
     mkWorld (files w)
       (if is_dir env w output_dir then dirs w else dirs w ++ [abspath env output_dir])
       (clock w)
       (trace w ++ [ELog INFO (u "Downloading audio from: " ++ url);
                    EMkdir output_dir])).
Proof.
  intros Hk. unfold download. mrun. unfold mkdir. simpl. rewrite Hk. simpl.
  by rewrite <- app_assoc.
Qed.



End DownloadOptions.

(** An override that asks for another format and says nothing else. *)
Definition format_only_options : pydict := [(u "format", JStr (u "worstaudio"))].

Lemma downloader_options_of_override_witness :
  Downloader (dict_update DEFAULT_CONFIG
                [(u "downloader_args", JObj format_only_options)])
  = JObj format_only_options.
Proof.
  apply (downloader_options_of_override
           [(u "downloader_args", JObj format_only_options)]).
  apply (bool_decide_unpack _). vm_compute. exact I.
Defined.

Lemma download_without_outtmpl_witness :
  download sample_env (JObj format_only_options) (u "https://x.y/v")
           (p "/tmp/tmpabc") two_downloads_world
  = (Raise (KeyError (u "outtmpl")),
     mkWorld [] [p "/tmp"; p "/tmp/tmpabc"] 100
       [ELog INFO (u "Downloading audio from: " ++ u "https://x.y/v");
        EMkdir (p "/tmp/tmpabc")]).
Proof.
  apply (download_without_outtmpl sample_env format_only_options (u "https://x.y/v")
           (p "/tmp/tmpabc") two_downloads_world).
  reflexivity.
Defined.




(** ** Transcription *)

(** The command line of the conversion. *)
Definition ffmpeg_command (input_path output_path : Path) : list str :=
  [ u "ffmpeg"; u "-y"; u "-i"; path_str input_path;
    u "-ar"; u "16000"; u "-ac"; u "1"; u "-loglevel"; u "error";
    path_str output_path ].

(** The form that goes to the speech service with the waveform. *)
Definition whisper_form (wav_path : Path) (content : bytes) : PostBody :=
  Multipart (name wav_path) content
    [ (u "response_format", u "verbose_json"); (u "temperature", u "0.0") ].

(** The answers [post_json] turns into a [RequestException]: no answer at
    all, an error status, or a body that is not JSON. *)
Definition answer_fails (answer : http_outcome) : bool :=
  match answer with
  | HttpError _ => true
  | HttpResponse status body =>
      ((400 <=? status) && (status <? 600))%Z
      || match body with Some _ => false | None => true end
  end.

Definition is_write (e : Event) : bool :=
  match e with EWrite _ => true | _ => false end.

Lemma filter_none {A} (f : A -> bool) (l : list A) :
  Forall (fun x => f x = false) l -> List.filter f l = [].
Proof. induction 1 as [|x l Hx _ IH]; simpl; [done|]. by rewrite Hx. Qed.

Lemma try_finally_bind_ok {A B} (c : M A) (k : A -> M B) cleanup w a w' :
  c w = (Ok a, w') ->
  try_finally (bind c k) cleanup w = try_finally (k a) cleanup w'.
Proof. intros Hc. unfold try_finally, bind. by rewrite Hc. Qed.

Lemma try_finally_bind_emit {A B} e (f : unit -> M A) (k : A -> M B) cleanup w :
  try_finally (bind (bind (emit e) f) k) cleanup w
  = try_finally (bind (f tt) k) cleanup
      (mkWorld (files w) (dirs w) (clock w) (trace w ++ [e])).
Proof. reflexivity. Qed.

Section Upload.
Context `{PyLib} (env : Env).

(** The world the conversion leaves when the transcoder has written its
    output and returned 0. *)
Lemma convert_world audio_path b w :
  name audio_path <> [] ->
  env_which env (u "ffmpeg") = true ->
  ff_written (env_ffmpeg env) = Some b ->
  ff_returncode (env_ffmpeg env) = 0%Z ->
  _convert_to_wav_16k env audio_path w
  = (Ok (sibling audio_path (u ".wav")),
     mkWorld (store_file (files w) (abspath env (sibling audio_path (u ".wav")))
                (mkFile b (clock w)))
             (dirs w) (clock w + 1)%Z
             (trace w ++ [ELog INFO (u "Converting " ++ name audio_path
                                     ++ u " to 16kHz WAV...");
                          ERun (ffmpeg_command audio_path
                                  (sibling audio_path (u ".wav"))) None])).
Proof.
  intros Hnm Hwhich Hb Hrc. unfold _convert_to_wav_16k.
  assert (with_suffix audio_path (u ".wav") = Some (sibling audio_path (u ".wav"))) as ->.
  { unfold with_suffix, sibling, stem. by destruct (name audio_path). }
  rewrite Hwhich, Hb, Hrc. change (0 =? 0)%Z with true. cbv iota.
  unfold bind, ret, logging, emit, put_file. simpl. by rewrite <- app_assoc.
Qed.

(** X10: when the conversion succeeds, [transcribe] sends one request,
    whatever the service answers: to the configured address, with the octets
    the transcoder wrote under the name of the waveform, and the two form
    fields [response_format=verbose_json] and [temperature=0.0]. *)
Theorem transcribe_uploads_waveform url audio_path b w :
  name audio_path <> [] ->
  env_which env (u "ffmpeg") = true ->
  ff_written (env_ffmpeg env) = Some b ->
  ff_returncode (env_ffmpeg env) = 0%Z ->
  exists evs,
    trace (snd (transcribe env url audio_path w)) = trace w ++ evs
    /\ List.filter is_post evs
       = [EPost url (whisper_form (sibling audio_path (u ".wav")) b)].
Proof.
  intros Hnm Hwhich Hb Hrc. unfold transcribe.
  rewrite (bind_ok _ _ _ _ _ (convert_world audio_path b w Hnm Hwhich Hb Hrc)).
  unfold bind at 1. unfold logging at 1, emit at 1. cbn [files dirs clock trace].
  erewrite try_finally_bind_ok.
  2:{ unfold read_bytes. cbn [files]. by rewrite lookup_store_eq. }
  cbn [data]. unfold post_json at 1.
  rewrite try_finally_bind_emit.
  cbn [files dirs clock trace].
  match goal with
  | |- context [try_finally ?body ?cleanup ?w0] =>
      assert (keeps (grows (fun e => is_post e = false)) (try_finally body cleanup))
        as Hk; [|destruct (Hk w0) as (evs & Ht & Hf)]
  end.
  { unfold py_get. grows_auto. }
  cbn [trace] in Ht.
  eexists. split.
  - rewrite Ht, <- !app_assoc. reflexivity.
  - simpl. by rewrite filter_none.
Qed.

(** X11: when the request to the speech service fails, [transcribe] raises
    the [RequestException] and writes neither transcript nor segments: no
    file is opened for writing, every file other than the waveform is as it
    was before the call, and the waveform is gone unless it is the input
    itself. *)
Theorem transcribe_failed_request url audio_path b w :
  name audio_path <> [] ->
  env_which env (u "ffmpeg") = true ->
  ff_written (env_ffmpeg env) = Some b ->
  ff_returncode (env_ffmpeg env) = 0%Z ->
  answer_fails (env_whisper env) = true ->
  exists msg w' evs,
    transcribe env url audio_path w = (Raise (RequestException msg), w')
    /\ trace w' = trace w ++ evs
    /\ List.filter is_write evs = []
    /\ (forall q, abspath env q <> abspath env (sibling audio_path (u ".wav")) ->
          lookup_file (files w') (abspath env q) = lookup_file (files w) (abspath env q))
    /\ (sibling audio_path (u ".wav") <> audio_path ->
        is_file env w' (sibling audio_path (u ".wav")) = false).
Proof.
  intros Hnm Hwhich Hb Hrc Hfail. unfold transcribe.
  rewrite (bind_ok _ _ _ _ _ (convert_world audio_path b w Hnm Hwhich Hb Hrc)).
  unfold bind at 1. unfold logging at 1, emit at 1. cbn [files dirs clock trace].
  erewrite try_finally_bind_ok.
  2:{ unfold read_bytes. cbn [files]. by rewrite lookup_store_eq. }
  cbn [data]. unfold post_json at 1.
  rewrite try_finally_bind_emit.
  cbn [files dirs clock trace].
  set (wav := sibling audio_path (u ".wav")).
  assert (exists msg, forall A (k : json -> M A) w0,
            bind (match env_whisper env with
                  | HttpError msg => raise (RequestException msg)
                  | HttpResponse status body =>
                      if ((400 <=? status) && (status <? 600))%Z
                      then raise (RequestException (u "HTTP error " ++ Z_to_str status))
                      else match body with
                           | Some v => ret v
                           | None => raise (RequestException (u "invalid JSON"))
                           end
                  end) k w0 = (Raise (RequestException msg), w0)) as [msg Hmsg].
  { unfold answer_fails in Hfail. destruct (env_whisper env) as [m|status body].
    - by exists m.
    - destruct ((400 <=? status) && (status <? 600))%Z; [by eexists|].
      destruct body; [done|]. by eexists. }
  unfold try_finally. rewrite Hmsg. clear Hmsg.
  unfold bind, exists_, is_file. cbn [files]. rewrite lookup_store_eq.
  cbn [orb andb]. destruct (path_eqb wav audio_path) eqn:Ewav; cbn [negb when].
  - unfold ret. eexists msg, _, _. split_and!.
    + reflexivity.
    + cbn [trace]. rewrite <- !app_assoc. reflexivity.
    + reflexivity.
    + intros q Hq. cbn [files]. by rewrite lookup_store_ne.
    + intros Hne. apply path_eqb_eq in Ewav. by destruct Hne.
  - unfold unlink. cbn [files]. rewrite lookup_store_eq.
    eexists msg, _, _. split_and!.
    + reflexivity.
    + cbn [trace]. rewrite <- !app_assoc. reflexivity.
    + reflexivity.
    + intros q Hq. cbn [files].
      by rewrite lookup_remove_ne, lookup_store_ne.
    + intros _. cbn [files]. by rewrite lookup_remove_eq.
Qed.

(** X12: once the transcoder has written the waveform and returned 0, the
    waveform is gone when [transcribe] is left, whatever the speech service
    answers and whether the results could be written or not, provided its
    path is not the path of the input. *)
Theorem transcribe_leaves_no_waveform url audio_path b w :
  name audio_path <> [] ->
  env_which env (u "ffmpeg") = true ->
  ff_written (env_ffmpeg env) = Some b ->
  ff_returncode (env_ffmpeg env) = 0%Z ->
  sibling audio_path (u ".wav") <> audio_path ->
  is_file env (snd (transcribe env url audio_path w)) (sibling audio_path (u ".wav"))
  = false.
Proof.
  intros Hnm Hwhich Hb Hrc Hne.
  eapply transcribe_removes_wav; [|done].
  by apply convert_world.
Qed.

(** X13: [transcribe] never unlinks its input: every unlink it performs is
    of a path other than [audio_path]. *)
Theorem transcribe_never_unlinks_input url audio_path w :
  exists evs,
    trace (snd (transcribe env url audio_path w)) = trace w ++ evs
    /\ Forall (fun e => e <> EUnlink audio_path) evs.
Proof.
  assert (keeps (grows (fun e => e <> EUnlink audio_path))
            (transcribe env url audio_path)) as Hk; [|exact (Hk w)].
  unfold transcribe.
  apply keeps_bind; [apply _| |intros wav_path].
  { unfold _convert_to_wav_16k. grows_auto. }
  apply keeps_bind; [apply _|grows_auto|intros _].
  apply keeps_try_finally; [apply _| |].
  { unfold post_json, py_get. grows_auto. }
  apply keeps_bind; [apply _|apply grows_exists|intros found].
  destruct (path_eqb wav_path audio_path) eqn:E.
  - rewrite andb_false_r. apply keeps_ret. apply _.
  - apply keeps_when; [apply _|]. apply grows_unlink.
    intros [= ->]. by rewrite path_eqb_refl in E.
Qed.

End Upload.

Lemma transcribe_uploads_waveform_witness :
  exists evs,
    trace (snd (transcribe (whisper_env (HttpResponse 200 (Some (JObj timed_answer))))
                  (JStr (u "http://whisper/inference")) (p "/home/user/talk.mp3")
                  sample_world))
    = trace sample_world ++ evs
    /\ List.filter is_post evs
       = [EPost (JStr (u "http://whisper/inference"))
            (whisper_form (sibling (p "/home/user/talk.mp3") (u ".wav"))
                          [82; 73; 70; 70])].
Proof.
  apply (transcribe_uploads_waveform
           (whisper_env (HttpResponse 200 (Some (JObj timed_answer))))
           (JStr (u "http://whisper/inference")) (p "/home/user/talk.mp3")
           [82; 73; 70; 70] sample_world).
  - vm_compute. discriminate.
  - reflexivity.
  - reflexivity.
  - reflexivity.
Defined.

Lemma transcribe_failed_request_witness :
  exists msg w' evs,
    transcribe (whisper_env (HttpResponse 503 (Some JNull)))
               (JStr (u "http://whisper/inference")) (p "/home/user/talk.mp3")
               sample_world
    = (Raise (RequestException msg), w')
    /\ trace w' = trace sample_world ++ evs
    /\ List.filter is_write evs = []
    /\ (forall q,
          abspath (whisper_env (HttpResponse 503 (Some JNull))) q
          <> abspath (whisper_env (HttpResponse 503 (Some JNull)))
                     (sibling (p "/home/user/talk.mp3") (u ".wav")) ->
          lookup_file (files w') (abspath (whisper_env (HttpResponse 503 (Some JNull))) q)
          = lookup_file (files sample_world)
                        (abspath (whisper_env (HttpResponse 503 (Some JNull))) q))
    /\ (sibling (p "/home/user/talk.mp3") (u ".wav") <> p "/home/user/talk.mp3" ->
        is_file (whisper_env (HttpResponse 503 (Some JNull))) w'
                (sibling (p "/home/user/talk.mp3") (u ".wav")) = false).
Proof.
  apply (transcribe_failed_request (whisper_env (HttpResponse 503 (Some JNull)))
           (JStr (u "http://whisper/inference")) (p "/home/user/talk.mp3")
           [82; 73; 70; 70] sample_world).
  - vm_compute. discriminate.
  - reflexivity.
  - reflexivity.
  - reflexivity.
  - reflexivity.
Defined.

Lemma transcribe_leaves_no_waveform_witness :
  is_file (whisper_env (HttpError (u "connection refused")))
    (snd (transcribe (whisper_env (HttpError (u "connection refused")))
            (JStr (u "http://whisper/inference")) (p "/home/user/talk.mp3")
            sample_world))
    (sibling (p "/home/user/talk.mp3") (u ".wav"))
  = false.
Proof.
  apply (transcribe_leaves_no_waveform (whisper_env (HttpError (u "connection refused")))
           (JStr (u "http://whisper/inference")) (p "/home/user/talk.mp3")
           [82; 73; 70; 70] sample_world).
  - vm_compute. discriminate.
  - reflexivity.
  - reflexivity.
  - reflexivity.
  - vm_compute. discriminate.
Defined.


(** ** Summaries *)

(** The text of the answer of the summarization service: empty when the
    field is absent; nothing when the field is not a string. *)
Definition response_summary (result : pydict) : option str :=
  match dict_get result (u "response") with
  | None => Some []
  | Some (JStr t) => Some t
  | Some _ => None
  end.

Section Summaries.
Context `{PyLib} (env : Env).

Lemma write_text_lookup p (text : M str) s b w :
  (forall w0, text w0 = (Ok s, w0)) -> utf8_encode s = Some b ->
  exists w',
    write_text env p text w = (Ok tt, w')
    /\ holds env w' p b
    /\ forall q, abspath env q <> abspath env p ->
         lookup_file (files w') (abspath env q) = lookup_file (files w) (abspath env q).
Proof.
  intros Ht Hb. unfold write_text.
  eexists. split; [|split].
  - unfold bind at 1. unfold emit at 1. unfold bind at 1. unfold put_file at 1.
    unfold bind at 1. rewrite Ht. rewrite Hb. unfold put_file. reflexivity.
  - eexists. cbn [files snd]. apply lookup_store_eq.
  - intros q Hq. cbn [files snd]. by rewrite !lookup_store_ne.
Qed.

Lemma py_get_response result summary w :
  response_summary result = Some summary ->
  py_get (JObj result) (u "response") (JStr []) w = (Ok (JStr summary), w).
Proof.
  unfold py_get, response_summary.
  destruct (dict_get result (u "response")) as [[| | | |t| |]|]; try done;
    by intros [= <-].
Qed.


Lemma post_json_fails url body answer w :
  answer_fails answer = true ->
  exists msg,
    post_json url body answer w
    = (Raise (RequestException msg),
       mkWorld (files w) (dirs w) (clock w) (trace w ++ [EPost url body])).
Proof.
  unfold answer_fails, post_json. intros Hfail.
  destruct answer as [m|status v]; [by exists m|].
  destruct ((400 <=? status) && (status <? 600))%Z; [by eexists|].
  destruct v; [done|]. by eexists.
Qed.

(** X15: when the request to the summarization service fails,
    [_summarize_ollama] logs the failure and raises the [RequestException]
    again; the summary file is not opened and the file system is as it
    was. *)
Theorem ollama_failed_request self text output_path w :
  answer_fails (env_ollama env) = true ->
  exists msg payload,
    _summarize_ollama env self text output_path w
    = (Raise (RequestException msg),
       mkWorld (files w) (dirs w) (clock w)
         (trace w ++ [EPost (server_url self) (JsonBody payload);
                      ELog ERROR (u "Summarization failed: " ++ msg)])).
Proof.
  intros Hfail. unfold _summarize_ollama. cbv zeta.
  match goal with
  | |- context [post_json ?url ?body _] =>
      destruct (post_json_fails url body (env_ollama env) w Hfail) as [msg Hp]
  end.
  unfold try_except. rewrite (bind_raise _ _ _ _ _ Hp).
  cbn [is_RequestException]. unfold bind, logging, emit, raise. cbn [files dirs clock trace].
  eexists msg, _. by rewrite <- app_assoc.
Qed.

(** X16: when the [gemini] tool is on the search path and exits with a
    code other than 0, [_summarize_gemini] logs the error output of the
    tool and raises a [RuntimeError] that names the code; the summary file
    is not opened and the file system is as it was. *)
Theorem gemini_failed_run self text output_path w :
  env_which env (u "gemini") = true ->
  pr_returncode (env_gemini env) <> 0%Z ->
  _summarize_gemini env self text output_path w
  = (Raise (RuntimeError (u "Gemini CLI failed with return code "
                          ++ Z_to_str (pr_returncode (env_gemini env)))),
     mkWorld (files w) (dirs w) (clock w)
       (trace w ++ [ERun [u "gemini"; u "-p"; SYSTEM_PROMPT] (Some text);
                    ELog ERROR (u "Gemini CLI failed: " ++ pr_stderr (env_gemini env))])).
Proof.
  intros Hwhich Hrc. unfold _summarize_gemini. rewrite Hwhich. cbv zeta.
  apply Z.eqb_neq in Hrc. rewrite Hrc.
  unfold try_except, bind, ret, raise, logging, emit.
  cbn [is_CalledProcessError files dirs clock trace]. by rewrite <- app_assoc.
Qed.


(** X18: without a transcript to read, [summarize] raises
    [FileNotFoundError] before it chooses a summarizer: only the
    announcement is logged, no process is run and no request is sent. *)
Theorem summarize_without_transcript self transcript_path output_path w :
  is_file env w transcript_path = false ->
  is_dir env w transcript_path = false ->
  exists msg,
    summarize env self transcript_path output_path w
    = (Raise (FileNotFoundError msg),
       mkWorld (files w) (dirs w) (clock w)
         (trace w ++ [ELog INFO (u "Summarizing " ++ name transcript_path
                                 ++ u " using " ++ format_json (model self)
                                 ++ u "...")])).
Proof.
  unfold is_file, is_dir. intros Hf Hd. unfold summarize, bind, logging, emit,
    read_text, read_bytes, bind. cbn [files dirs clock trace].
  destruct (lookup_file (files w) (abspath env transcript_path)); [done|].
  unfold is_dir. cbn [dirs]. rewrite Hd. by eexists.
Qed.

End Summaries.

(** A machine whose summarization service and [gemini] tool answer as
    given. *)
Definition summary_env (ollama : http_outcome) (gemini : proc_outcome) : Env := {|
  env_cwd := p "/home/user";
  env_home := p "/home/user";
  env_which := fun _ => true;
  env_resolve := fun s => path_of_str (u "/home/user/" ++ s);
  env_mkdtemp := Some (p "/tmp/tmpabc");
  env_notify_ok := fun _ _ => true;
  env_ydl := YdlRaise [];
  env_ffmpeg := mkFfmpeg 0 (Some [82; 73; 70; 70]);
  env_whisper := HttpError (u "unreachable");
  env_ollama := ollama;
  env_gemini := gemini;
|}.

Definition outline_answer : pydict :=
  [(u "model", JStr (u "qwen2.5")); (u "response", JStr (u "# Outline")); (u "done", JBool true)].

Definition qwen : Summarizer :=
  mkSummarizer (JStr (u "http://ollama/api/generate")) (JStr (u "qwen2.5")).


Lemma ollama_failed_request_witness :
  exists msg payload,
    _summarize_ollama
      (summary_env (HttpError (u "connection refused")) (mkProc 0 [] []))
      qwen (u "hello world") (p "output/talk/talk_summary.md") transcript_world
    = (Raise (RequestException msg),
       mkWorld (files transcript_world) (dirs transcript_world) (clock transcript_world)
         (trace transcript_world
          ++ [EPost (server_url qwen) (JsonBody payload);
              ELog ERROR (u "Summarization failed: " ++ msg)])).
Proof.
  apply (ollama_failed_request
           (summary_env (HttpError (u "connection refused")) (mkProc 0 [] []))
           qwen (u "hello world") (p "output/talk/talk_summary.md") transcript_world).
  reflexivity.
Defined.

Lemma gemini_failed_run_witness :
  _summarize_gemini
    (summary_env (HttpError (u "unreachable")) (mkProc 2 [] (u "quota exceeded")))
    qwen (u "hello world") (p "output/talk/talk_summary.md") transcript_world
  = (Raise (RuntimeError (u "Gemini CLI failed with return code " ++ Z_to_str 2)),
     mkWorld (files transcript_world) (dirs transcript_world) (clock transcript_world)
       (trace transcript_world
        ++ [ERun [u "gemini"; u "-p"; SYSTEM_PROMPT] (Some (u "hello world"));
            ELog ERROR (u "Gemini CLI failed: " ++ u "quota exceeded")])).
Proof.
  apply (gemini_failed_run
           (summary_env (HttpError (u "unreachable")) (mkProc 2 [] (u "quota exceeded")))
           qwen (u "hello world") (p "output/talk/talk_summary.md") transcript_world).
  - reflexivity.
  - discriminate.
Defined.


Lemma summarize_without_transcript_witness :
  exists msg,
    summarize (summary_env (HttpError (u "unreachable")) (mkProc 0 [] []))
      qwen (p "output/talk/talk.txt") (p "output/talk/talk_summary.md") sample_world
    = (Raise (FileNotFoundError msg),
       mkWorld (files sample_world) (dirs sample_world) (clock sample_world)
         (trace sample_world
          ++ [ELog INFO (u "Summarizing " ++ name (p "output/talk/talk.txt")
                         ++ u " using " ++ format_json (model qwen) ++ u "...")])).
Proof.
  apply (summarize_without_transcript
           (summary_env (HttpError (u "unreachable")) (mkProc 0 [] []))
           qwen (p "output/talk/talk.txt") (p "output/talk/talk_summary.md")
           sample_world).
  - reflexivity.
  - reflexivity.
Defined.


(** ** The main program *)

Section Verbose.
Context `{PyLib} (env : Env).

(** X19: in verbose mode the options of the downloader get [quiet] and
    [no_warnings] false and [verbose] true; every other option, and every
    other key of the configuration, is as it was, and [Downloader] then
    keeps the changed options. *)
Theorem verbose_downloader_options (config d : pydict) w :
  dict_get config (u "downloader_args") = Some (JObj d) ->
  exists config' d',
    enable_verbose_downloader config w = (Ok config', w)
    /\ Downloader config' = JObj d'
    /\ dict_get d' (u "quiet") = Some (JBool false)
    /\ dict_get d' (u "no_warnings") = Some (JBool false)
    /\ dict_get d' (u "verbose") = Some (JBool true)
    /\ (forall k, k <> u "quiet" -> k <> u "no_warnings" -> k <> u "verbose" ->
          dict_get d' k = dict_get d k)
    /\ (forall k, k <> u "downloader_args" -> dict_get config' k = dict_get config k).
Proof.
  intros Hd. unfold enable_verbose_downloader. rewrite Hd. cbv zeta.
  set (d' := dict_set (dict_set (dict_set d (u "quiet") (JBool false))
                         (u "no_warnings") (JBool false))
               (u "verbose") (JBool true)).
  assert (forall k, dict_get d' k
                    = if str_eqb (u "verbose") k then Some (JBool true)
                      else if str_eqb (u "no_warnings") k then Some (JBool false)
                      else if str_eqb (u "quiet") k then Some (JBool false)
                      else dict_get d k) as Hget.
  { intros k. unfold d'. by rewrite !dict_get_set. }
  exists (dict_set config (u "downloader_args") (JObj d')), d'.
  split_and!.
  - reflexivity.
  - unfold Downloader. by rewrite dict_get_set, str_eqb_refl.
  - rewrite Hget. by vm_compute.
  - rewrite Hget. by vm_compute.
  - rewrite Hget. by vm_compute.
  - intros k H1 H2 H3. rewrite Hget. by rewrite !str_eqb_neq.
  - intros k Hk. rewrite dict_get_set. by rewrite str_eqb_neq.
Qed.

End Verbose.

Lemma verbose_downloader_options_witness :
  exists config' d',
    enable_verbose_downloader DEFAULT_CONFIG sample_world = (Ok config', sample_world)
    /\ Downloader config' = JObj d'
    /\ dict_get d' (u "quiet") = Some (JBool false)
    /\ dict_get d' (u "no_warnings") = Some (JBool false)
    /\ dict_get d' (u "verbose") = Some (JBool true)
    /\ (forall k, k <> u "quiet" -> k <> u "no_warnings" -> k <> u "verbose" ->
          dict_get d' k = dict_get DEFAULT_downloader_args k)
    /\ (forall k, k <> u "downloader_args" ->
          dict_get config' k = dict_get DEFAULT_CONFIG k).
Proof.
  apply (verbose_downloader_options DEFAULT_CONFIG DEFAULT_downloader_args sample_world).
  reflexivity.
Defined.


(** *** The exceptions of the pipeline *)

Lemma raises_try_finally {A} P (body : M A) cleanup :
  raises P body -> raises P cleanup -> raises P (try_finally body cleanup).
Proof.
  intros Hb Hc w e. unfold try_finally. specialize (Hb w). specialize (Hc (snd (body w))).
  destruct (body w) as [r w1]. simpl in *.
  destruct (cleanup w1) as [[[]|e'] w2]; simpl in *.
  - intros ->. by apply Hb.
  - intros [= <-]. by apply Hc.
Qed.

Lemma raises_try_except_caught {A} P (c : M A) catches handler :
  raises (fun e => catches e = false -> P e) c ->
  (forall e, catches e = true -> raises P (handler e)) ->
  raises P (try_except c catches handler).
Proof.
  intros Hc Hh w e. unfold try_except. specialize (Hc w).
  destruct (c w) as [[a|e'] w'] eqn:E; simpl in *; [done|].
  destruct (catches e') eqn:Ec.
  - by apply Hh.
  - intros [= <-]. by apply Hc.
Qed.

Lemma raises_lift {A} (P : exn -> Prop) (r : result A) :
  (forall e, r = Raise e -> P e) -> raises P (lift r).
Proof. intros Hr w e. simpl. apply Hr. Qed.

Section RaisesPrimitives.
Context `{PyLib} (env : Env) (P : exn -> Prop).
Hypothesis P_Exception : forall e, is_Exception e = true -> P e.

Lemma raises_exists q : raises P (exists_ env q).
Proof. by intros w e. Qed.

Lemma raises_read_bytes q : raises P (read_bytes env q).
Proof.
  intros w e. unfold read_bytes. repeat case_match; simpl; try done;
    intros [= <-]; by apply P_Exception.
Qed.

Lemma raises_read_text q : raises P (read_text env q).
Proof.
  unfold read_text. apply raises_bind; [apply raises_read_bytes|intros b].
  case_match; [apply raises_ret|by apply raises_raise, P_Exception].
Qed.

Lemma raises_put_file q b : raises P (put_file env q b).
Proof. by intros w e. Qed.

Lemma raises_write_text q (text : M str) :
  raises P text -> raises P (write_text env q text).
Proof.
  intros Ht. unfold write_text.
  apply raises_bind; [apply raises_emit|intros _].
  apply raises_bind; [apply raises_put_file|intros _].
  apply raises_bind; [done|intros s].
  case_match; [apply raises_put_file|by apply raises_raise, P_Exception].
Qed.

Lemma raises_unlink q : raises P (unlink env q).
Proof.
  intros w e. unfold unlink. repeat case_match; simpl; try done;
    intros [= <-]; by apply P_Exception.
Qed.

Lemma raises_mkdir q : raises P (mkdir env q).
Proof. by intros w e. Qed.

Lemma raises_move a b : raises P (move env a b).
Proof.
  intros w e. unfold move. repeat case_match; simpl; try done;
    intros [= <-]; by apply P_Exception.
Qed.

Lemma raises_rmtree d : raises P (rmtree env d).
Proof.
  intros w e. unfold rmtree. repeat case_match; simpl; try done;
    intros [= <-]; by apply P_Exception.
Qed.

Lemma raises_mkdtemp : raises P (mkdtemp env).
Proof.
  unfold mkdtemp. case_match; [by intros w e|by apply raises_raise, P_Exception].
Qed.

Lemma raises_notify t m : raises P (notify env t m).
Proof. unfold notify, logging. case_match; apply raises_emit. Qed.

End RaisesPrimitives.

(** Applies the rules of [raises] along the structure of a computation;
    what is left are the exceptions the script raises itself. *)
Ltac raises_step :=
  first
    [ apply raises_ret
    | apply raises_emit
    | apply raises_exists
    | apply raises_put_file
    | apply raises_mkdir
    | apply raises_notify
    | apply raises_read_text; [by eauto]
    | apply raises_read_bytes; [by eauto]
    | apply raises_unlink; [by eauto]
    | apply raises_move; [by eauto]
    | apply raises_rmtree; [by eauto]
    | apply raises_mkdtemp; [by eauto]
    | apply raises_write_text; [by eauto|]
    | apply raises_bind; [|intros ?]
    | apply raises_try_finally
    | apply raises_when
    | apply raises_raise ].

Ltac raises_auto :=
  unfold logging, print, sys_exit;
  repeat first [ raises_step | case_match | progress intros ];
  try done.

Section PipelineRaises.
Context `{PyLib} (env : Env).

Lemma transcribe_raises url a :
  raises (fun e => is_Exception e = true) (transcribe env url a).
Proof.
  unfold transcribe, _convert_to_wav_16k, post_json, py_get. raises_auto.
Qed.

Lemma summarize_raises self a b :
  raises (fun e => is_Exception e = true) (summarize env self a b).
Proof.
  unfold summarize, _summarize_gemini, _summarize_ollama, post_json, py_get.
  raises_auto.
  all: apply raises_try_except_caught; [|intros e' He'; raises_auto; by destruct e'].
  all: eapply raises_weaken; [intros e' He' _; exact He'|].
  all: raises_auto.
Qed.

Lemma clean_exit_Exception e : is_Exception e = true -> clean_exit e.
Proof. by right. Qed.

Lemma clean_exit_1 : clean_exit (SystemExit 1).
Proof. by left. Qed.

(** A block guarded by [except Exception] whose body raises nothing else
    leaves only through its handler. *)
Lemma raises_guarded {A} P (c : M A) handler :
  raises (fun e => is_Exception e = true) c ->
  (forall e, raises P (handler e)) ->
  raises P (try_except c is_Exception handler).
Proof.
  intros Hc Hh. apply raises_try_except; [|done].
  eapply raises_weaken; [|exact Hc]. intros e He Hn. by rewrite He in Hn.
Qed.

Lemma step1_raises downloader input_arg :
  raises clean_exit (step1_input_handling env downloader input_arg).
Proof.
  unfold step1_input_handling. case_match.
  - apply raises_guarded.
    + apply raises_bind; [by apply raises_mkdtemp|intros d].
      apply raises_bind; [apply download_raises|intros ?]. apply raises_ret.
    + intros e. raises_auto. apply clean_exit_1.
  - raises_auto. apply clean_exit_1.
Qed.

Lemma step2_raises config temp audio_path nm :
  raises clean_exit (step2_workspace env config temp audio_path nm).
Proof.
  unfold step2_workspace.
  pose proof clean_exit_Exception as HE.
  raises_auto. all: by right.
Qed.

Lemma step3_raises url a : raises clean_exit (step3_transcription env url a).
Proof.
  unfold step3_transcription. apply raises_guarded.
  - apply raises_bind; [apply transcribe_raises|intros ?]. apply raises_ret.
  - intros e. raises_auto. apply clean_exit_1.
Qed.

Lemma step4_raises args summarizer slug_dir slug_base t nm :
  raises clean_exit (step4_summarization env args summarizer slug_dir slug_base t nm).
Proof.
  unfold step4_summarization. case_match; [|raises_auto].
  apply raises_bind; [|intros ?; apply raises_ret].
  apply raises_guarded.
  - apply raises_bind; [apply summarize_raises|intros ?]. apply raises_notify.
  - intros e. raises_auto.
Qed.

Lemma report_raises P args a b c d : raises P (report args a b c d).
Proof. unfold report. raises_auto. Qed.

Lemma pipeline_raises args : raises clean_exit (pipeline env args).
Proof.
  unfold pipeline.
  apply raises_bind; [apply configure_raises|intros config].
  do 3 (apply raises_bind;
        [unfold getitem; case_match;
         [apply raises_ret|by apply raises_raise, clean_exit_Exception]|intros ?]).
  apply raises_bind; [apply step1_raises|intros [[temp audio_path] nm]].
  apply raises_bind; [apply step2_raises|intros [[slug_base slug_dir] final_audio_path]].
  apply raises_bind; [apply step3_raises|intros ?].
  apply raises_bind; [apply step4_raises|intros ?].
  apply report_raises.
Qed.

(** X20: a run ends with status 0 or with status 1.  Status 130 is that of
    an interrupt from the keyboard, which no call of the script raises by
    itself. *)
Theorem run_exit_status args w :
  fst (run env args w) = 0%Z \/ fst (run env args w) = 1%Z.
Proof.
  rewrite run_status. pose proof (pipeline_raises args w) as Hr.
  destruct (fst (pipeline env args w)) as [[]|e]; [by left|].
  destruct (Hr e eq_refl) as [->|He]; [by right|].
  by destruct e; right.
Qed.

End PipelineRaises.


(** *** The report *)

(** Every event but the line [SUCCESS] on standard output. *)
Definition not_success (e : Event) : bool :=
  match e with
  | EPrint line => negb (str_eqb line (u "SUCCESS"))
  | _ => true
  end.

(** The events of the report when the summary line is printed or not. *)
Definition report_events (args : Args)
    (slug_dir final_audio_path transcript_path : Path) (summary_path : option Path)
  : list Event :=
  [ EPrint (10 :: banner); EPrint (u "SUCCESS"); EPrint banner;
    EPrint (u "Workspace: " ++ path_str slug_dir);
    EPrint (u " - Audio:      " ++ name final_audio_path);
    EPrint (u " - Transcript: " ++ name transcript_path) ]
  ++ match summary_path with
     | Some sp => if no_summary args then [] else [EPrint (summary_line sp)]
     | None => []
     end
  ++ [ EPrint banner ].

Ltac quiet_auto :=
  grows_auto;
  try (match goal with x : Event |- _ => by destruct x end).

Section BeforeReport.
Context `{PyLib} (env : Env).

Lemma configure_quiet args :
  keeps (grows (fun e => not_success e = true)) (configure env args).
Proof.
  unfold configure, setup_logging, check_dependencies, enable_verbose_downloader,
    load_config.
  grows_auto.
Qed.

Lemma step1_quiet downloader input_arg :
  keeps (grows (fun e => not_success e = true))
        (step1_input_handling env downloader input_arg).
Proof.
  unfold step1_input_handling. case_match; [|quiet_auto].
  apply keeps_try_except; [apply _| |intros e; quiet_auto].
  apply keeps_bind; [apply _|by apply grows_mkdtemp|intros d].
  apply keeps_bind; [apply _| |intros ?; apply keeps_ret; apply _].
  eapply keeps_grows_mono; [|apply download_grows]. by intros [].
Qed.

Lemma step2_quiet config temp audio_path nm :
  keeps (grows (fun e => not_success e = true))
        (step2_workspace env config temp audio_path nm).
Proof. unfold step2_workspace. quiet_auto. Qed.

Lemma step3_quiet url a :
  keeps (grows (fun e => not_success e = true)) (step3_transcription env url a).
Proof.
  unfold step3_transcription.
  apply keeps_try_except; [apply _| |intros e; quiet_auto].
  apply keeps_bind; [apply _| |intros ?; apply keeps_ret; apply _].
  eapply keeps_grows_mono; [|apply transcribe_grows]. by intros [].
Qed.

Lemma step4_quiet args summarizer slug_dir slug_base t nm :
  keeps (grows (fun e => not_success e = true))
        (step4_summarization env args summarizer slug_dir slug_base t nm).
Proof.
  unfold step4_summarization. case_match; [|quiet_auto].
  apply keeps_bind; [apply _| |intros ?; apply keeps_ret; apply _].
  apply keeps_try_except; [apply _| |intros e; quiet_auto].
  apply keeps_bind; [apply _| |intros ?; quiet_auto].
  eapply keeps_grows_mono; [|apply summarize_grows]. by intros [].
Qed.

Lemma report_world args a b c d w :
  report args a b c d w
  = (Ok tt, mkWorld (files w) (dirs w) (clock w)
                    (trace w ++ report_events args a b c d)).
Proof.
  unfold report, report_events, print, bind, emit, when, ret. simpl.
  destruct d as [sp|]; [destruct (no_summary args)|]; simpl;
    by rewrite <- !app_assoc.
Qed.

(** [c] either raises or ends in the report, and is quiet before it. *)
Definition ends_in_report (args : Args) (c : M unit) : Prop :=
  forall w,
    (exists a b c' d w1,
        c w = report args a b c' d w1
        /\ grows (fun e => not_success e = true) w w1)
    \/ (exists e w1,
          c w = (Raise e, w1) /\ grows (fun e => not_success e = true) w w1).

Lemma ends_bind {A} args (c : M A) (k : A -> M unit) :
  keeps (grows (fun e => not_success e = true)) c ->
  (forall a, ends_in_report args (k a)) ->
  ends_in_report args (bind c k).
Proof.
  intros Hc Hk w. unfold bind. specialize (Hc w).
  destruct (c w) as [[a|e] w0]; simpl in Hc.
  - destruct (Hk a w0) as [(x & y & z & d & w1 & Hr & Hg)|(e & w1 & Hr & Hg)].
    + left. exists x, y, z, d, w1. split; [done|]. by transitivity w0.
    + right. exists e, w1. split; [done|]. by transitivity w0.
  - right. by exists e, w0.
Qed.

Lemma pipeline_ends_in_report args : ends_in_report args (pipeline env args).
Proof.
  unfold pipeline.
  apply ends_bind; [apply configure_quiet|intros config].
  do 3 (apply ends_bind; [unfold getitem; quiet_auto|intros ?]).
  apply ends_bind; [apply step1_quiet|intros [[temp audio_path] nm]].
  apply ends_bind; [apply step2_quiet|intros [[slug_base slug_dir] final_audio_path]].
  apply ends_bind; [apply step3_quiet|intros transcript_path].
  apply ends_bind; [apply step4_quiet|intros summary_path].
  intros w. left. by exists slug_dir, final_audio_path, transcript_path, summary_path, w.
Qed.

(** X21: the line [SUCCESS] is printed exactly by the runs that end with
    status 0. *)
Theorem success_line_iff_status_zero args w :
  exists evs,
    trace (snd (run env args w)) = trace w ++ evs
    /\ (fst (run env args w) = 0%Z <-> EPrint (u "SUCCESS") ∈ evs).
Proof.
  destruct (pipeline_ends_in_report args w)
    as [(a & b & c & d & w1 & Hr & evs & Ht & Hq)|(e & w1 & Hr & evs & Ht & Hq)].
  - rewrite report_world in Hr.
    exists (evs ++ report_events args a b c d).
    unfold run, main, try_except2. rewrite Hr. cbn [fst snd trace exit_status].
    split; [by rewrite Ht, app_assoc|].
    split; [intros _|done].
    apply elem_of_app. right. unfold report_events.
    apply elem_of_app. left. apply elem_of_cons. right. by left.
  - assert (EPrint (u "SUCCESS") ∉ evs) as Hno.
    { intros Hin. rewrite Forall_forall in Hq. specialize (Hq _ Hin).
      unfold not_success in Hq. by rewrite str_eqb_refl in Hq. }
    pose proof (pipeline_raises env args w e) as Hexit.
    rewrite Hr in Hexit. specialize (Hexit eq_refl).
    unfold run, main, try_except2. rewrite Hr.
    destruct Hexit as [->|He].
    + exists evs. cbn. split; [done|]. split; [lia|]. intros Hin. by destruct Hno.
    + destruct e; try done; cbn;
        (eexists (evs ++ [_]); split; [rewrite Ht, <- app_assoc; reflexivity|];
         split; [lia|]; intros Hin; apply elem_of_app in Hin as [Hin|Hin];
         [by destruct Hno|by apply list_elem_of_singleton in Hin]).
Qed.

End BeforeReport.


(** *** Runs without a summary *)

(** What reaches a summarizer: a request with a JSON body, or a process
    that is given standard input. *)
Definition summarizer_contact (e : Event) : bool :=
  match e with
  | EPost _ (JsonBody _) => true
  | ERun _ (Some _) => true
  | _ => false
  end.

Section NoSummary.
Context `{PyLib} (env : Env).

Lemma transcribe_no_contact url a :
  keeps (grows (fun e => summarizer_contact e = false)) (transcribe env url a).
Proof.
  unfold transcribe, _convert_to_wav_16k, post_json, py_get. quiet_auto.
Qed.

Lemma pipeline_no_contact args :
  no_summary args = true ->
  keeps (grows (fun e => summarizer_contact e = false)) (pipeline env args).
Proof.
  intros Hno. unfold pipeline.
  apply keeps_bind; [apply _| |intros config].
  { eapply keeps_grows_mono; [|apply configure_grows]. by intros []. }
  do 3 (apply keeps_bind; [apply _|unfold getitem; quiet_auto|intros ?]).
  apply keeps_bind; [apply _| |intros [[temp audio_path] nm]].
  { unfold step1_input_handling. case_match; [|quiet_auto].
    apply keeps_try_except; [apply _| |intros e; quiet_auto].
    apply keeps_bind; [apply _|by apply grows_mkdtemp|intros d].
    apply keeps_bind; [apply _| |intros ?; apply keeps_ret; apply _].
    eapply keeps_grows_mono; [|apply download_grows]. by intros []. }
  apply keeps_bind; [apply _| |intros [[slug_base slug_dir] final_audio_path]].
  { unfold step2_workspace. quiet_auto. }
  apply keeps_bind; [apply _| |intros transcript_path].
  { unfold step3_transcription.
    apply keeps_try_except; [apply _| |intros e; quiet_auto].
    apply keeps_bind; [apply _|apply transcribe_no_contact|intros ?].
    apply keeps_ret; apply _. }
  apply keeps_bind; [apply _| |intros summary_path].
  { unfold step4_summarization. rewrite Hno. cbn [negb]. quiet_auto. }
  unfold report. quiet_auto.
Qed.

(** X22: a run with [--no-summary] reaches no summarizer: it posts no
    request with a JSON body and gives no process anything on standard
    input. *)
Theorem no_summary_contacts_no_summarizer args w :
  no_summary args = true ->
  exists evs,
    trace (snd (run env args w)) = trace w ++ evs
    /\ Forall (fun e => summarizer_contact e = false) evs.
Proof.
  intros Hno.
  assert (keeps (grows (fun e => summarizer_contact e = false)) (main env args)) as Hk.
  { unfold main. apply keeps_try_except2; [apply _|by apply pipeline_no_contact| |];
      intros e; quiet_auto. }
  specialize (Hk w). unfold run. by destruct (main env args w).
Qed.

End NoSummary.

Lemma no_summary_contacts_no_summarizer_witness :
  exists evs,
    trace (snd (run sample_env (mkArgs (u "talk.mp3") true false) sample_world))
    = trace sample_world ++ evs
    /\ Forall (fun e => summarizer_contact e = false) evs.
Proof.
  apply (no_summary_contacts_no_summarizer sample_env
           (mkArgs (u "talk.mp3") true false) sample_world).
  reflexivity.
Defined.


(** ** The choice among downloaded files *)

Section FirstOfNewest.
Context {A : Type} (key : A -> Z).

Lemma insert_desc_head_le x l :
  Forall (fun y => (key y <= key x)%Z) l ->
  exists t, insert_desc key x l = x :: t.
Proof.
  intros Hl. destruct l as [|y l]; simpl; [by eexists|].
  inversion Hl as [|? ? Hy _]; subst.
  rewrite (proj2 (Z.leb_le _ _) Hy). by eexists.
Qed.

(** The stable sort into descending order puts first the earliest of the
    elements with the largest key. *)
Lemma sort_desc_first_of_largest l1 x l2 :
  Forall (fun y => (key y < key x)%Z) l1 ->
  Forall (fun y => (key y <= key x)%Z) l2 ->
  exists t, sort_desc key (l1 ++ x :: l2) = x :: t.
Proof.
  intros H1 H2. induction H1 as [|y l1 Hy _ [t IH]].
  - apply insert_desc_head_le.
    rewrite Forall_forall in H2 |- *. intros y Hy. apply H2.
    by rewrite <- (sort_desc_perm key l2).
  - change (sort_desc key ((y :: l1) ++ x :: l2))
      with (insert_desc key y (sort_desc key (l1 ++ x :: l2))).
    rewrite IH. simpl. rewrite (proj2 (Z.leb_gt _ _) Hy). by eexists.
Qed.

End FirstOfNewest.

Section NewestFile.
Context `{PyLib} (env : Env).

(** X23: whatever the number of candidates and their modification times,
    [download] returns the candidate that the directory scan lists first
    among those modified last: the sort is stable, so candidates with equal
    times keep the order of the scan. *)
Theorem download_first_of_newest (w : World) (ydl_opts : pydict)
    (outtmpl url filename : str) (output_dir : Path) (created : list (str * file))
    (earlier later : list (Path * Z)) (final_path : Path) (t : Z) :
  dict_get ydl_opts (u "outtmpl") = Some (JStr outtmpl) ->
  env_ydl env = YdlDone filename created ->
  candidates env w output_dir filename created = earlier ++ (final_path, t) :: later ->
  Forall (fun c => (snd c < t)%Z) earlier ->
  Forall (fun c => (snd c <= t)%Z) later ->
  fst (download env (JObj ydl_opts) url output_dir w) = Ok final_path.
Proof.
  intros Hout Hydl Hfound He Hl. unfold download. mrun.
  unfold mkdir, ydl_extract. mrun. rewrite Hout, Hydl. simpl.
  fold (candidates env w output_dir filename created). rewrite Hfound.
  destruct (sort_desc_first_of_largest snd earlier (final_path, t) later He Hl)
    as [rest ->].
  reflexivity.
Qed.

End NewestFile.

(** An engine that leaves two files with the same modification time. *)
Definition tied_download_env : Env := {|
  env_cwd := p "/home/user";
  env_home := p "/home/user";
  env_which := fun _ => true;
  env_resolve := fun s => path_of_str (u "/home/user/" ++ s);
  env_mkdtemp := Some (p "/tmp/tmpabc");
  env_notify_ok := fun _ _ => true;
  env_ydl := YdlDone (u "/tmp/tmpabc/Talk.webm")
               [(u "Talk.webm", mkFile [1] 20); (u "Talk.mp3", mkFile [2] 20)];
  env_ffmpeg := mkFfmpeg 0 (Some [82; 73; 70; 70]);
  env_whisper := HttpError (u "unreachable");
  env_ollama := HttpError (u "unreachable");
  env_gemini := mkProc 0 [] [];
|}.

Lemma download_first_of_newest_witness :
  fst (download tied_download_env (JObj DEFAULT_downloader_args) (u "https://x.y/v")
         (p "/tmp/tmpabc") two_downloads_world)
  = Ok (p "/tmp/tmpabc/Talk.webm").
Proof.
  apply (download_first_of_newest tied_download_env two_downloads_world
           DEFAULT_downloader_args (u "%(title)s.%(ext)s") (u "https://x.y/v")
           (u "/tmp/tmpabc/Talk.webm") (p "/tmp/tmpabc")
           [(u "Talk.webm", mkFile [1] 20); (u "Talk.mp3", mkFile [2] 20)]
           [] [(p "/tmp/tmpabc/Talk.mp3", 20%Z)] (p "/tmp/tmpabc/Talk.webm") 20%Z).
  - reflexivity.
  - reflexivity.
  - vm_compute. reflexivity.
  - constructor.
  - constructor; [simpl; lia|constructor].
Defined.


(** ** The workspace *)

Section Workspace.
Context `{PyLib} (env : Env).

(** The workspace of an input: the output directory of the configuration
    and, below it, the slug of the stem of the file name. *)
Definition workspace_of (output_directory nm : str) : Path :=
  path_div (path_of_str output_directory) (slugify (stem_of nm)).

Lemma joinpath_name_ne d nm :
  abspath env (joinpath d (mkPath false [nm])) <> abspath env d.
Proof.
  unfold abspath, joinpath. simpl. destruct (is_abs d); simpl.
  - intros Heq. apply (f_equal parts) in Heq. simpl in Heq.
    apply (f_equal length) in Heq. rewrite length_app in Heq. simpl in Heq. lia.
  - intros Heq. apply (f_equal parts) in Heq. simpl in Heq.
    apply (f_equal length) in Heq. rewrite !length_app in Heq. simpl in Heq. lia.
Qed.

Lemma is_dir_mkdir w d q :
  abspath env q <> abspath env d ->
  is_dir env (snd (mkdir env d w)) q = is_dir env w q.
Proof.
  intros Hne. unfold mkdir, is_dir. simpl.
  destruct (existsb (path_eqb (abspath env d)) (dirs w)); [done|].
  rewrite existsb_app. simpl. rewrite path_eqb_neq by done.
  by rewrite !orb_false_r.
Qed.

Lemma step2_moves_named_input (config : pydict) output_directory audio_path c nm b w :
  dict_get config (u "output_directory") = Some (JStr output_directory) ->
  47 ∉ (c :: nm) -> c :: nm <> [46] ->
  holds env w audio_path b ->
  is_file env w (workspace_of output_directory (c :: nm)) = false ->
  parent audio_path <> workspace_of output_directory (c :: nm) ->
  is_dir env w (path_div (workspace_of output_directory (c :: nm)) (c :: nm)) = false ->
  exists w',
    step2_workspace env config None audio_path (c :: nm) w
    = (Ok (slugify (stem_of (c :: nm)),
           workspace_of output_directory (c :: nm),
           path_div (workspace_of output_directory (c :: nm)) (c :: nm)), w')
    /\ is_dir env w' (workspace_of output_directory (c :: nm)) = true
    /\ holds env w' (path_div (workspace_of output_directory (c :: nm)) (c :: nm)) b
    /\ (abspath env (path_div (workspace_of output_directory (c :: nm)) (c :: nm))
        <> abspath env audio_path ->
        is_file env w' audio_path = false).
Proof.
  intros Hcfg Hslash Hdot [m Hb] Hnf Hpar Hdir.
  unfold step2_workspace. rewrite Hcfg.
  rewrite (bind_ok _ _ _ (path_of_str output_directory) w) by reflexivity.
  cbv beta zeta.
  fold (workspace_of output_directory (c :: nm)).
  set (slug_dir := workspace_of output_directory (c :: nm)) in *.
  set (final := path_div slug_dir (c :: nm)) in *.
  assert (abspath env final <> abspath env slug_dir) as Hfs.
  { unfold final, path_div. rewrite path_of_str_name by done.
    apply joinpath_name_ne. }
  unfold bind at 1. unfold exists_ at 1.
  rewrite (path_eqb_neq _ _ Hpar). cbn [negb].
  assert (forall w1, is_dir env w1 slug_dir = true -> is_dir env w1 final = false ->
            files w1 = files w ->
            exists w', (move env audio_path final ;; ret (slugify (stem_of (c :: nm)), slug_dir, final)) w1
                       = (Ok (slugify (stem_of (c :: nm)), slug_dir, final), w')
              /\ is_dir env w' slug_dir = true
              /\ holds env w' final b
              /\ (abspath env final <> abspath env audio_path ->
                  is_file env w' audio_path = false)) as Hmove.
  { intros w1 Hsd Hfd Hfiles. unfold bind, move, ret. rewrite Hfiles, Hb, Hfd.
    cbn [andb]. eexists. split; [reflexivity|]. split_and!.
    - done.
    - exists m. cbn [files]. by rewrite lookup_store_eq.
    - intros Hne. unfold is_file. cbn [files].
      by rewrite lookup_store_ne, lookup_remove_eq. }
  rewrite Hnf. cbn [orb].
  destruct (is_dir env w slug_dir) eqn:Hsd.
  - unfold bind at 1. unfold logging at 1, emit at 1.
    apply Hmove; done.
  - 
    unfold bind at 1. unfold bind at 1. unfold mkdir at 1.
    unfold logging at 1, emit at 1. cbn [fst snd].
    apply Hmove.
    + unfold is_dir in *. cbn [dirs]. rewrite Hsd.
      rewrite existsb_app. simpl. by rewrite path_eqb_refl, orb_true_r.
    + unfold is_dir in *. cbn [dirs]. rewrite Hsd.
      rewrite existsb_app. simpl. rewrite Hdir.
      by rewrite path_eqb_neq.
    + done.
Qed.


End Workspace.



Section RelativeWorkspace.
Context `{PyLib} (env : Env).

Lemma workspace_of_relative output_directory nm :
  startswith output_directory [47] = false ->
  startswith (slugify (stem_of nm)) [47] = false ->
  is_abs (workspace_of output_directory nm) = false.
Proof.
  intros Hd Hs. unfold workspace_of, path_div, joinpath.
  assert (forall s, is_abs (path_of_str s) = startswith s [47]) as Habs by done.
  rewrite !Habs, Hs. by cbn [is_abs].
Qed.

(** X25: with a relative output directory, as in the defaults, the test
    [audio_path.parent != slug_dir] compares an absolute path with a relative
    one and always holds: step 2 never takes the branch for a file that is
    already in its workspace, and whenever it returns for a local input it
    has just moved the file to [<output_directory>/<slug>/<name>]. *)
Theorem relative_workspace_always_moves (config : pydict) output_directory
    audio_path nm w r w' :
  dict_get config (u "output_directory") = Some (JStr output_directory) ->
  is_abs audio_path = true ->
  startswith output_directory [47] = false ->
  startswith (slugify (stem_of nm)) [47] = false ->
  step2_workspace env config None audio_path nm w = (Ok r, w') ->
  r = (slugify (stem_of nm), workspace_of output_directory nm,
       path_div (workspace_of output_directory nm) nm)
  /\ last (trace w')
     = Some (EMove audio_path (path_div (workspace_of output_directory nm) nm)).
Proof.
  intros Hcfg Habs Hd Hs. unfold step2_workspace. rewrite Hcfg.
  rewrite (bind_ok _ _ _ (path_of_str output_directory) w) by reflexivity.
  cbv beta zeta. fold (workspace_of output_directory nm).
  assert (path_eqb (parent audio_path) (workspace_of output_directory nm) = false) as ->.
  { apply path_eqb_neq. intros Heq. apply (f_equal is_abs) in Heq.
    rewrite workspace_of_relative in Heq by done. simpl in Heq. congruence. }
  cbn [negb]. unfold bind, exists_, mkdir, logging, emit, move, ret.
  repeat case_match; simplify_eq; intros [= <- <-]; cbn [trace];
    (split; [done|by rewrite last_snoc]).
Qed.

End RelativeWorkspace.

(** The input already lies in its workspace. *)
Definition workspace_world : World :=
  mkWorld [(p "/home/user/output/talk/talk.mp3", mkFile [73; 68; 51] 5)]
          [p "/home/user"; p "/home/user/output"; p "/home/user/output/talk"] 100 [].

Lemma relative_workspace_always_moves_witness :
  (slugify (stem_of (u "talk.mp3")), workspace_of (u "output/") (u "talk.mp3"),
   path_div (workspace_of (u "output/") (u "talk.mp3")) (u "talk.mp3"))
  = (u "talk", p "output/talk", p "output/talk/talk.mp3")
  /\ last (trace (snd (step2_workspace sample_env DEFAULT_CONFIG None
                         (p "/home/user/output/talk/talk.mp3") (u "talk.mp3")
                         workspace_world)))
     = Some (EMove (p "/home/user/output/talk/talk.mp3")
                   (path_div (workspace_of (u "output/") (u "talk.mp3")) (u "talk.mp3"))).
Proof.
  destruct (relative_workspace_always_moves sample_env DEFAULT_CONFIG (u "output/")
              (p "/home/user/output/talk/talk.mp3") (u "talk.mp3") workspace_world
              (u "talk", p "output/talk", p "output/talk/talk.mp3")
              (snd (step2_workspace sample_env DEFAULT_CONFIG None
                      (p "/home/user/output/talk/talk.mp3") (u "talk.mp3")
                      workspace_world)))
    as [Hr Ht].
  - reflexivity.
  - reflexivity.
  - reflexivity.
  - reflexivity.
  - vm_compute. reflexivity.
  - split; [symmetry; exact Hr|exact Ht].
Defined.


(** ** Reading back a written override *)

Section WrittenOverride.
Context `{PyLib} (env : Env).


End WrittenOverride.

(** The override of the test suite, as [json.dumps] with [indent=2] writes
    it. *)
Definition written_override : pydict :=
  [(u "output_directory", JStr (u "custom_output/"));
   (u "summarize_model", JStr (u "gemini"))].

Definition written_octets : bytes :=
  Eval vm_compute in default [] (utf8_encode (json_dumps (JObj written_override))).

Definition written_config_world : World :=
  mkWorld [(p "/home/user/transcribe_config.json", mkFile written_octets 1)]
          [p "/home/user"] 100 [].



(** ** An override that is a list of pairs *)

(** The JSON array of the two-element arrays [[key, value]]. *)
Definition pairs_array (pairs : list (str * json)) : json :=
  JArr (map (fun kv => JArr [JStr (fst kv); snd kv]) pairs).

Section PairsOverride.
Context `{PyLib} (env : Env).

Lemma update_items_pairs (pairs : list (str * json)) (d : pydict) :
  update_items d (map (fun kv => JArr [JStr (fst kv); snd kv]) pairs)
  = Ok (dict_update d pairs).
Proof.
  revert d. induction pairs as [|[k v] pairs IH]; intros d; [done|].
  cbn [map update_items update_item fst snd]. apply IH.
Qed.

(** X27: [config.update] also takes a sequence of pairs, so an override
    file that holds a JSON array of [[key, value]] arrays with string keys is
    accepted and merged item by item, like the object with those items. *)
Theorem load_config_merges_pairs w f text (pairs : list (str * json)) :
  lookup_file (files w) (abspath env config_path) = Some f ->
  utf8_decode (data f) = Some text ->
  json_loads text = Some (pairs_array pairs) ->
  load_config env w = (Ok (dict_update DEFAULT_CONFIG pairs), w).
Proof.
  intros Hf Hd Hj. unfold load_config. mrun. fold config_path.
  rewrite (is_file_lookup _ _ _ _ Hf). simpl. rewrite Hf, Hd, Hj.
  unfold pairs_array, py_update. by rewrite update_items_pairs.
Qed.

End PairsOverride.

Definition pairs_config_world : World :=
  mkWorld [(p "/home/user/transcribe_config.json",
            mkFile ([91; 91] ++ q "summarize_model" ++ u ", " ++ q "gemini" ++ [93; 93]) 1)]
          [p "/home/user"] 100 [].

Lemma load_config_merges_pairs_witness :
  load_config sample_env pairs_config_world
  = (Ok (dict_update DEFAULT_CONFIG [(u "summarize_model", JStr (u "gemini"))]),
     pairs_config_world).
Proof.
  apply (load_config_merges_pairs sample_env pairs_config_world
           (mkFile ([91; 91] ++ q "summarize_model" ++ u ", " ++ q "gemini" ++ [93; 93]) 1)
           ([91; 91] ++ q "summarize_model" ++ u ", " ++ q "gemini" ++ [93; 93])
           [(u "summarize_model", JStr (u "gemini"))]).
  - vm_compute. reflexivity.
  - vm_compute. reflexivity.
  - vm_compute. reflexivity.
Defined.


(** *** The summary line of the report *)

(** A line of the report that names a summary. *)
Definition is_summary_line (e : Event) : bool :=
  match e with
  | EPrint line => startswith line (u " - S")
  | _ => false
  end.

Section SummaryLine.
Context `{PyLib} (env : Env).

(** [c] either raises or ends in the report, with a summary path exactly
    when a summary was requested, and prints no summary line before. *)
Definition reaches_report (args : Args) (c : M unit) : Prop :=
  forall w,
    (exists a b c' d w1,
        c w = report args a b c' d w1
        /\ grows (fun e => is_summary_line e = false) w w1
        /\ (d = None <-> no_summary args = true))
    \/ (exists e w1, c w = (Raise e, w1)).

Lemma reaches_bind {A} args (c : M A) (k : A -> M unit) :
  keeps (grows (fun e => is_summary_line e = false)) c ->
  (forall a, reaches_report args (k a)) ->
  reaches_report args (bind c k).
Proof.
  intros Hc Hk w. unfold bind. specialize (Hc w).
  destruct (c w) as [[a|e] w0]; simpl in Hc.
  - destruct (Hk a w0) as [(x & y & z & d & w1 & Hr & Hg & Hd)|(e & w1 & Hr)].
    + left. exists x, y, z, d, w1. split; [done|]. split; [by transitivity w0|done].
    + right. by exists e, w1.
  - right. by exists e, w0.
Qed.

Lemma step4_result args summarizer slug_dir slug_base t nm w d w1 :
  step4_summarization env args summarizer slug_dir slug_base t nm w = (Ok d, w1) ->
  d = None <-> no_summary args = true.
Proof.
  unfold step4_summarization, bind, ret.
  destruct (no_summary args); cbn [negb]; intros Hs;
    repeat case_match; simplify_eq; done.
Qed.

Lemma pipeline_reaches_report args : reaches_report args (pipeline env args).
Proof.
  unfold pipeline.
  apply reaches_bind; [|intros config].
  { unfold configure, setup_logging, check_dependencies, enable_verbose_downloader,
      load_config. quiet_auto. }
  do 3 (apply reaches_bind; [unfold getitem; quiet_auto|intros ?]).
  apply reaches_bind; [|intros [[temp audio_path] nm]].
  { unfold step1_input_handling. case_match; [|quiet_auto].
    apply keeps_try_except; [apply _| |intros e; quiet_auto].
    apply keeps_bind; [apply _|by apply grows_mkdtemp|intros d].
    apply keeps_bind; [apply _| |intros ?; apply keeps_ret; apply _].
    eapply keeps_grows_mono; [|apply download_grows]. by intros []. }
  apply reaches_bind; [|intros [[slug_base slug_dir] final_audio_path]].
  { unfold step2_workspace. quiet_auto. }
  apply reaches_bind; [|intros transcript_path].
  { unfold step3_transcription.
    apply keeps_try_except; [apply _| |intros e; quiet_auto].
    apply keeps_bind; [apply _| |intros ?; apply keeps_ret; apply _].
    eapply keeps_grows_mono; [|apply transcribe_grows]. by intros []. }
  intros w. unfold bind.
  assert (keeps (grows (fun e => is_summary_line e = false))
            (step4_summarization env args (mkSummarizer a0 a1) slug_dir slug_base
               transcript_path nm)) as Hk.
  { unfold step4_summarization. case_match; [|quiet_auto].
    apply keeps_bind; [apply _| |intros ?; apply keeps_ret; apply _].
    apply keeps_try_except; [apply _| |intros e; quiet_auto].
    apply keeps_bind; [apply _| |intros ?; quiet_auto].
    eapply keeps_grows_mono; [|apply summarize_grows]. by intros []. }
  specialize (Hk w).
  destruct (step4_summarization _ _ _ _ _ _ _ w) as [[d|e] w1] eqn:E.
  - left. exists slug_dir, final_audio_path, transcript_path, d, w1.
    split; [done|]. split; [done|]. by eapply step4_result.
  - right. by exists e, w1.
Qed.

(** X28: in a run that ends with status 0 the report has a summary line
    exactly when the summary was not switched off with [--no-summary],
    whether or not a summary could be made. *)
Theorem summary_line_iff_requested args w :
  fst (run env args w) = 0%Z ->
  exists evs,
    trace (snd (run env args w)) = trace w ++ evs
    /\ (Exists (fun e => is_summary_line e = true) evs <-> no_summary args = false).
Proof.
  intros Hst.
  destruct (pipeline_reaches_report args w)
    as [(a & b & c & d & w1 & Hr & (evs & Ht & Hq) & Hd)|(e & w1 & Hr)].
  - rewrite report_world in Hr.
    exists (evs ++ report_events args a b c d).
    unfold run, main, try_except2. rewrite Hr. cbn [fst snd trace exit_status].
    split; [by rewrite Ht, app_assoc|].
    rewrite Exists_app. split.
    + intros [Hex|Hex].
      * apply Exists_exists in Hex as (e & Hin & He).
        rewrite Forall_forall in Hq. specialize (Hq _ Hin). congruence.
      * destruct (no_summary args) eqn:Hno; [|done]. exfalso.
        unfold report_events in Hex. rewrite Hno in Hex.
        assert (d = None) as -> by by apply Hd.
        cbn [app] in Hex.
        apply Exists_exists in Hex as (e & Hin & He).
        repeat (apply elem_of_cons in Hin as [->|Hin]; [by vm_compute in He|]).
        by apply elem_of_nil in Hin.
    + intros Hno. right. unfold report_events. rewrite Hno.
      destruct d as [sp|].
      * apply Exists_exists. exists (EPrint (summary_line sp)). split; [|done].
        apply elem_of_app. right. apply elem_of_app. left. by left.
      * destruct Hd as [Hd _]. specialize (Hd eq_refl). congruence.
  - exfalso. rewrite run_status, Hr in Hst. cbn [fst] in Hst.
    pose proof (pipeline_raises env args w e) as Hexit.
    rewrite Hr in Hexit. specialize (Hexit eq_refl).
    destruct Hexit as [->|He]; [done|]. by destruct e.
Qed.

End SummaryLine.

Lemma summary_line_iff_requested_witness :
  exists evs,
    trace (snd (run sample_env (mkArgs (u "talk.mp3") false false) sample_world))
    = trace sample_world ++ evs
    /\ (Exists (fun e => is_summary_line e = true) evs
        <-> no_summary (mkArgs (u "talk.mp3") false false) = false).
Proof.
  apply (summary_line_iff_requested sample_env (mkArgs (u "talk.mp3") false false)
           sample_world).
  vm_compute. reflexivity.
Defined.
